(** * workspace-bridge-mcp: project registry, config loader and tool handlers

    A shallow embedding of [src/config/projectLoader.js], [src/utils/gitHelpers.js],
    [src/tools/fileTools.js] and [src/tools/gitTools.js], and the properties of
    the registry, the loader and the two git tools with logic of their own
    (searchCommits and gitBlame).

    Conventions of the embedding.
    - JavaScript strings are [string]s.  Every separator, prefix and keyword
      the code looks for is ASCII, so offsets agree with the UTF-16 ones; of
      the white space that [trim] and [parseInt] skip, the ASCII part is
      modelled.
    - JavaScript numbers that reach the code (maxCount, skip, line numbers,
      author-time) are taken to be integers and are modelled by [Z]; [None]
      stands for NaN where [parseInt] can produce it.
    - The registry is the plain object [{}] that [loadProjects] creates: its
      own properties in creation order, on top of [Object.prototype].
    - [path] is Node's POSIX flavour; [path.resolve] depends on the working
      directory of the process, which is a parameter.
    - A handler is a program over the shared registry that may await a
      collaborator (fs, simple-git, JSON.parse), write to stderr, throw and
      catch.  The collaborators are an environment that answers each call
      with a value or an exception; a handler is followed on its own, without
      other handlers running in between its awaits. *)

From Stdlib Require Import String Ascii List ZArith NArith Lia Bool.
From Stdlib Require Decimal DecimalString DecimalN DecimalZ.
Import ListNotations.

Set Warnings "-register-all".

Open Scope string_scope.
Open Scope list_scope.

Infix "+:+" := String.append (at level 60, right associativity).

(* ================================================================== *)
(** ** JavaScript string primitives used by the sources *)
(* ================================================================== *)

(** [s.startsWith(p)] *)
Fixpoint startsWith (p s : string) : bool :=
  match p with
  | EmptyString => true
  | String a p' =>
      match s with
      | EmptyString => false
      | String b s' => Ascii.eqb a b && startsWith p' s'
      end
  end.

(** [s.substring(n)] for [0 <= n] *)
Fixpoint substring_from (n : nat) (s : string) : string :=
  match n, s with
  | O, _ => s
  | S _, EmptyString => EmptyString
  | S n', String _ s' => substring_from n' s'
  end.

(** [s.split(sep)] for a one-character separator: never the empty array. *)
Fixpoint split (sep : ascii) (s : string) : list string :=
  match s with
  | EmptyString => [EmptyString]
  | String c s' =>
      if Ascii.eqb c sep then EmptyString :: split sep s'
      else match split sep s' with
           | [] => [String c EmptyString]
           | w :: ws => String c w :: ws
           end
  end.

(** [xs.join(sep)] *)
Definition join (sep : string) (xs : list string) : string := String.concat sep xs.

(** [hay.includes(needle)] *)
Fixpoint includes (needle hay : string) : bool :=
  if startsWith needle hay then true
  else match hay with
       | EmptyString => false
       | String _ hay' => includes needle hay'
       end.

(** ASCII part of the ECMAScript WhiteSpace and LineTerminator classes:
    TAB, LF, VT, FF, CR and SPACE. *)
Definition isWhiteSpace (c : ascii) : bool :=
  let n := nat_of_ascii c in
  ((9 <=? n) && (n <=? 13))%nat || (n =? 32)%nat.

Fixpoint trimStart (s : string) : string :=
  match s with
  | String c s' => if isWhiteSpace c then trimStart s' else s
  | EmptyString => EmptyString
  end.

(** Truthiness of [line.trim()]: some character is not white space. *)
Definition trim_truthy (s : string) : bool :=
  match trimStart s with
  | EmptyString => false
  | String _ _ => true
  end.

Definition truthy_string (s : string) : bool :=
  match s with
  | EmptyString => false
  | String _ _ => true
  end.

Definition LF : ascii := ascii_of_nat 10.
Definition TAB : ascii := ascii_of_nat 9.

(** Decimal rendering of an integer inside a template literal. *)
Definition decimal (z : Z) : string := DecimalString.NilZero.string_of_int (Z.to_int z).

(* ================================================================== *)
(** ** Node's [path] module (POSIX flavour) *)
(* ================================================================== *)

Definition isAbsolute (p : string) : bool := startsWith "/" p.

(** One step of [normalizeString]: the stack holds the kept segments, last
    one first. *)
Definition normalize_step (allowAboveRoot : bool) (stack : list string) (seg : string)
  : list string :=
  if (seg =? "")%string || (seg =? ".")%string then stack
  else if (seg =? "..")%string then
    match stack with
    | top :: rest =>
        if (top =? "..")%string
        then (if allowAboveRoot then ".." :: stack else stack)
        else rest
    | [] => if allowAboveRoot then [".."] else []
    end
  else seg :: stack.

Definition normalizeString (p : string) (allowAboveRoot : bool) : string :=
  join "/" (rev (fold_left (normalize_step allowAboveRoot) (split "/" p) [])).

(** The right-to-left loop of [path.resolve]: [paths] is the argument list
    reversed, followed by the working directory. *)
Fixpoint resolve_loop (paths : list string) (resolvedPath : string) : string * bool :=
  match paths with
  | [] => (resolvedPath, false)
  | p :: rest =>
      if truthy_string p then
        let resolvedPath' := p +:+ "/" +:+ resolvedPath in
        if isAbsolute p then (resolvedPath', true) else resolve_loop rest resolvedPath'
      else resolve_loop rest resolvedPath
  end.

(** [path.resolve(...args)] in a process whose working directory is [cwd]. *)
Definition path_resolve (cwd : string) (args : list string) : string :=
  let '(resolvedPath, resolvedAbsolute) := resolve_loop (rev args ++ [cwd]) "" in
  let n := normalizeString resolvedPath (negb resolvedAbsolute) in
  if resolvedAbsolute then "/" +:+ n
  else if truthy_string n then n else ".".

(** [path.normalize(p)] *)
Definition path_normalize (p : string) : string :=
  if truthy_string p then
    let absolute := isAbsolute p in
    let trailingSeparator :=
      match rev (split "/" p) with
      | last :: _ :: _ => negb (truthy_string last)
      | _ => false
      end in
    let n := normalizeString p (negb absolute) in
    if truthy_string n then
      (if absolute then "/" else "") +:+ n +:+ (if trailingSeparator then "/" else "")
    else if absolute then "/"
    else if trailingSeparator then "./" else "."
  else ".".

(** [path.join(...args)] on strings. *)
Definition path_join (args : list string) : string :=
  match filter truthy_string args with
  | [] => "."
  | parts => path_normalize (join "/" parts)
  end.

(** [path.basename(p)]: the last non-empty segment, [""] when there is none. *)
Definition path_basename (p : string) : string :=
  match filter truthy_string (rev (split "/" p)) with
  | [] => ""
  | seg :: _ => seg
  end.

(* ================================================================== *)
(** ** Plain objects used as dictionaries *)
(* ================================================================== *)

(** The registry is created by the literal [{}] in [loadProjects], so it
    inherits from [Object.prototype].  These are the members of
    [Object.prototype]; all but [__proto__] are writable data properties
    holding functions, [__proto__] is an accessor. *)
Definition Object_prototype_keys : list string :=
  [ "constructor"; "__defineGetter__"; "__defineSetter__"; "hasOwnProperty";
    "__lookupGetter__"; "__lookupSetter__"; "isPrototypeOf";
    "propertyIsEnumerable"; "toString"; "valueOf"; "__proto__"; "toLocaleString" ].

Definition inherited (k : string) : bool :=
  existsb (String.eqb k) Object_prototype_keys.

(** What [projects[k]] can evaluate to. *)
Inductive value : Type :=
| Undefined
| Str (s : string)
| Builtin (k : string).   (* the member [k] of [Object.prototype] *)

Definition truthy (v : value) : bool :=
  match v with
  | Undefined => false
  | Str s => truthy_string s
  | Builtin _ => true
  end.

(** Own enumerable properties, in creation order. *)
Definition Registry : Type := list (string * string).

Fixpoint getOwn (o : Registry) (k : string) : option string :=
  match o with
  | [] => None
  | (k', v) :: o' => if (k' =? k)%string then Some v else getOwn o' k
  end.

Fixpoint setOwn (o : Registry) (k v : string) : Registry :=
  match o with
  | [] => [(k, v)]
  | (k', v') :: o' =>
      if (k' =? k)%string then (k, v) :: o' else (k', v') :: setOwn o' k v
  end.

(** [o[k]] *)
Definition Get (o : Registry) (k : string) : value :=
  match getOwn o k with
  | Some v => Str v
  | None => if inherited k then Builtin k else Undefined
  end.

(** [o[k] = v] with a string [v]: an own property is updated in place, a
    new one is appended; with no own [__proto__] the assignment reaches the
    inherited setter, which ignores a value that is not an object. *)
Definition Put (o : Registry) (k v : string) : Registry :=
  match getOwn o k with
  | None => if (k =? "__proto__")%string then o else setOwn o k v
  | Some _ => setOwn o k v
  end.

(** [delete o[k]] *)
Definition Delete (o : Registry) (k : string) : Registry :=
  filter (fun kv => negb (fst kv =? k)%string) o.

(** A property key is an array index when it is the canonical decimal form
    of an integer below 2^32 - 1. *)
Definition array_index (k : string) : option N :=
  match DecimalString.NilEmpty.uint_of_string k with
  | Some u =>
      let n := N.of_uint u in
      if (DecimalString.NilZero.string_of_uint (N.to_uint n) =? k)%string
         && (n <? 4294967295)%N
      then Some n else None
  | None => None
  end.

Fixpoint insert_index (x : N * string) (l : list (N * string)) : list (N * string) :=
  match l with
  | [] => [x]
  | y :: l' => if (fst x <=? fst y)%N then x :: l else y :: insert_index x l'
  end.

Definition index_keys (ks : list string) : list (N * string) :=
  flat_map (fun k => match array_index k with Some n => [(n, k)] | None => [] end) ks.

Definition is_name_key (k : string) : bool :=
  match array_index k with Some _ => false | None => true end.

(** [Object.keys(o)]: array indices in ascending order, then the other keys
    in creation order. *)
Definition Object_keys (o : Registry) : list string :=
  let ks := map fst o in
  map snd (fold_right insert_index [] (index_keys ks)) ++ filter is_name_key ks.

(** [Object.entries(o)] *)
Definition Object_entries (o : Registry) : list (string * string) :=
  flat_map (fun k => match getOwn o k with Some v => [(k, v)] | None => [] end)
           (Object_keys o).

(* ================================================================== *)
(** ** Exceptions *)
(* ================================================================== *)

Inductive error_class : Type := EError | ETypeError | ERangeError | ESyntaxError.

(** An [Error] object: its constructor, its [code] (set by Node on system
    and argument errors) and its [message]. *)
Record exn : Type := mkExn {
  err_class : error_class;
  err_code : option string;
  err_message : string
}.

(** [new Error(m)] *)
Definition new_Error (m : string) : exn := mkExn EError None m.

Inductive result (A : Type) : Type :=
| Ok (a : A)
| Thrown (e : exn).
Arguments Ok {A} a.
Arguments Thrown {A} e.

Definition dq : string := String (ascii_of_nat 34) "".

(** How Node names a received [value] in an argument error. *)
Definition received (v : value) : string :=
  match v with
  | Undefined => "undefined"
  | Str s => "type string ('" +:+ s +:+ "')"
  | Builtin k =>
      if (k =? "__proto__")%string then "an instance of Object"
      else if (k =? "constructor")%string then "function Object"
      else "function " +:+ k
  end.

(** The [TypeError] of [validateString] in Node's [path] and [fs]. *)
Definition ERR_INVALID_ARG_TYPE (arg what : string) : exn :=
  mkExn ETypeError (Some "ERR_INVALID_ARG_TYPE")
        ("The " +:+ dq +:+ arg +:+ dq +:+ " argument must be of type string. Received "
         +:+ what).

(** [path.join(root, rel)] where [root] comes out of the registry. *)
Definition path_join_value (root : value) (rel : string) : result string :=
  match root with
  | Str r => Ok (path_join [r; rel])
  | _ => Thrown (ERR_INVALID_ARG_TYPE "path" (received root))
  end.

(* ================================================================== *)
(** ** projectLoader.js: the synchronous registry operations *)
(* ================================================================== *)

Definition unknownProjectMessage (projects : Registry) (projectName : string) : string :=
  let availableProjects := Object_keys projects in
  "Unknown project: " +:+ projectName +:+ ". Available projects: " +:+
  (if (0 <? length availableProjects)%nat
   then join ", " availableProjects
   else "none (use addProject tool first)").

(** [getProjectPath(projects, projectName)] *)
Definition getProjectPath (projects : Registry) (projectName : string) : result value :=
  let root := Get projects projectName in
  if negb (truthy root)
  then Thrown (new_Error (unknownProjectMessage projects projectName))
  else Ok root.

Definition notFoundMessage (name : string) : string :=
  "Project '" +:+ name +:+ "' not found".

(** [removeProject(projects, name)]: the registry after the call and how the
    call completed. *)
Definition removeProject (projects : Registry) (name : string) : Registry * result unit :=
  if negb (truthy (Get projects name))
  then (projects, Thrown (new_Error (notFoundMessage name)))
  else (Delete projects name, Ok tt).

(* ================================================================== *)
(** ** Values exchanged with the collaborators *)
(* ================================================================== *)

(** What [JSON.parse] returns.  A number is carried by the text that
    [String(n)] gives it, so that it is falsy exactly when that text is
    [0]; an object by its own properties. *)
Inductive json : Type :=
| JNull
| JBool (b : bool)
| JNum (repr : string)
| JStr (s : string)
| JArr (items : list json)
| JObj (fields : list (string * json)).

Fixpoint assoc {V : Type} (k : string) (l : list (string * V)) : option V :=
  match l with
  | [] => None
  | (k', v) :: l' => if (k' =? k)%string then Some v else assoc k l'
  end.

(** [{...o, [k]: v}]: define or overwrite an own property. *)
Fixpoint define {V : Type} (o : list (string * V)) (k : string) (v : V)
  : list (string * V) :=
  match o with
  | [] => [(k, v)]
  | (k', v') :: o' =>
      if (k' =? k)%string then (k, v) :: o' else (k', v') :: define o' k v
  end.

(** [v.k] for one of the keys the loader reads ([projects], [name],
    [path]): none of them is a member of a built-in prototype, so only an
    own property of a parsed object can answer; [null.k] throws. *)
Definition get_field (v : json) (k : string) : result (option json) :=
  match v with
  | JNull =>
      Thrown (mkExn ETypeError None
                ("Cannot read properties of null (reading '" +:+ k +:+ "')"))
  | JObj fields => Ok (assoc k fields)
  | _ => Ok None
  end.

Definition truthy_json (v : option json) : bool :=
  match v with
  | None | Some JNull => false
  | Some (JBool b) => b
  | Some (JNum repr) => negb (repr =? "0")%string
  | Some (JStr s) => truthy_string s
  | Some (JArr _) | Some (JObj _) => true
  end.

(** [Array.isArray(v)] *)
Definition isArray (v : option json) : bool :=
  match v with Some (JArr _) => true | _ => false end.

(** [String(v)], which is also how [v] is turned into a property key.  An
    array is joined with commas, [null] elements giving the empty text.  An
    object answers through the inherited [Object.prototype.toString]
    unless it has an own property [toString]: a parsed value is never a
    function, so neither that property nor [valueOf] yields a primitive and
    the conversion throws. *)
Definition cannot_convert : exn :=
  mkExn ETypeError None "Cannot convert object to primitive value".

Fixpoint json_toString (v : json) : result string :=
  match v with
  | JNull => Ok "null"
  | JBool true => Ok "true"
  | JBool false => Ok "false"
  | JNum repr => Ok repr
  | JStr s => Ok s
  | JArr items =>
      match
        (fix elements (xs : list json) : result (list string) :=
           match xs with
           | [] => Ok []
           | x :: xs' =>
               match (match x with JNull => Ok "" | _ => json_toString x end) with
               | Ok t =>
                   match elements xs' with
                   | Ok ts => Ok (t :: ts)
                   | Thrown e => Thrown e
                   end
               | Thrown e => Thrown e
               end
           end) items
      with
      | Ok ts => Ok (join "," ts)
      | Thrown e => Thrown e
      end
  | JObj fields =>
      match assoc "toString" fields with
      | Some _ => Thrown cannot_convert
      | None => Ok "[object Object]"
      end
  end.

(** How Node names a received object in an argument error: by
    [value.constructor.name] when that is truthy, which for a parsed object
    is [Object] unless it has an own property [constructor]; otherwise by
    [inspect(value, { depth: -1 })]. *)
Definition received_object (fields : list (string * json)) : result string :=
  match assoc "constructor" fields with
  | None => Ok "an instance of Object"
  | Some c =>
      let name := match c with JObj cfields => assoc "name" cfields | _ => None end in
      if truthy_json name then
        match name with
        | Some n =>
            match json_toString n with
            | Ok t => Ok ("an instance of " +:+ t)
            | Thrown e => Thrown e
            end
        | None => Ok "[Object]"
        end
      else Ok "[Object]"
  end.

(** [fs.Stats] and [fs.Dirent], as far as the tools look at them. *)
Record Stats : Type := { isDirectory : bool }.
Record Dirent : Type := { dirent_name : string; dirent_isDirectory : bool }.

(** A commit as simple-git's [log] reports it. *)
Record RawCommit : Type := {
  raw_hash : string;
  raw_date : string;
  raw_message : string;
  raw_body : string;
  raw_author_name : string;
  raw_author_email : string
}.

(** A value in the options object handed to [git.log]. *)
Inductive optval : Type := ONull | ONum (n : Z) | OStr (s : string).
Definition LogOptions : Type := list (string * optval).

Record StatusResult : Type := {
  st_current : string;
  st_modified : list string;
  st_created : list string;
  st_deleted : list string;
  st_renamed : list (string * string);
  st_staged : list string;
  st_ahead : Z;
  st_behind : Z
}.
Record BranchSummary : Type := { br_all : list string; br_current : string }.
Record Remote : Type := { rm_name : string; rm_fetch : string; rm_push : string }.

(** The collaborators: [fs/promises], the simple-git client bound to a
    base directory, and the built-in JSON parser.  A git call names the
    value its client was created with. *)
Inductive collab : Type -> Type :=
| fs_readFile (p : string) : collab string
| fs_stat (p : string) : collab Stats
| fs_readdir (p : string) : collab (list Dirent)
| fs_access (p : string) : collab unit
| JSON_parse (text : string) : collab json
| simpleGit (baseDir : value) : collab unit
| git_checkIsRepo (baseDir : value) : collab bool
| git_log (baseDir : value) (options : LogOptions) : collab (list RawCommit)
| git_raw (baseDir : value) (args : list string) : collab string
| git_show (baseDir : value) (args : list string) : collab string
| git_status (baseDir : value) : collab StatusResult
| git_branch (baseDir : value) : collab BranchSummary
| git_getRemotes (baseDir : value) : collab (list Remote)
| git_tags (baseDir : value) : collab (list string).

(** Lines written with [console.error]. *)
Inductive log_line : Type :=
| Linked (name resolvedPath : string)
| Warning (message : string).

(* ================================================================== *)
(** ** Programs: awaiting, logging, throwing and catching over a registry *)
(* ================================================================== *)

Inductive io (A : Type) : Type :=
| Done (a : A)
| Await {X : Type} (c : collab X) (k : result X -> io A)
| Stderr (l : log_line) (k : io A).
Arguments Done {A} a.
Arguments Await {A X} c k.
Arguments Stderr {A} l k.

Fixpoint io_bind {A B : Type} (p : io A) (f : A -> io B) : io B :=
  match p with
  | Done a => f a
  | Await c k => Await c (fun r => io_bind (k r) f)
  | Stderr l k => Stderr l (io_bind k f)
  end.

(** A computation reads and writes the registry object it was handed and
    ends by returning or by throwing; what it wrote stays written. *)
Definition M (A : Type) : Type := Registry -> io (Registry * result A).

Definition ret {A : Type} (a : A) : M A := fun projects => Done (projects, Ok a).
Definition throw {A : Type} (e : exn) : M A := fun projects => Done (projects, Thrown e).

Definition bind {A B : Type} (m : M A) (f : A -> M B) : M B :=
  fun projects =>
    io_bind (m projects) (fun '(projects', r) =>
      match r with
      | Ok a => f a projects'
      | Thrown e => Done (projects', Thrown e)
      end).

Definition try_catch {A : Type} (m : M A) (handler : exn -> M A) : M A :=
  fun projects =>
    io_bind (m projects) (fun '(projects', r) =>
      match r with
      | Ok a => Done (projects', Ok a)
      | Thrown e => handler e projects'
      end).

Definition await {X : Type} (c : collab X) : M X :=
  fun projects => Await c (fun r => Done (projects, r)).

Definition console_error (l : log_line) : M unit :=
  fun projects => Stderr l (Done (projects, Ok tt)).

Definition lift {A : Type} (r : result A) : M A := fun projects => Done (projects, r).

Definition read_registry : M Registry := fun projects => Done (projects, Ok projects).

(** [projects[k] = v] *)
Definition assign (k v : string) : M unit := fun projects => Done (Put projects k v, Ok tt).

Declare Scope prog_scope.
Delimit Scope prog_scope with prog.
Notation "x <- m ;; k" := (bind m (fun x => k))
  (at level 100, m at next level, right associativity) : prog_scope.
Notation "m ;;; k" := (bind m (fun _ => k))
  (at level 100, right associativity) : prog_scope.
Open Scope prog_scope.

Fixpoint for_of {A : Type} (xs : list A) (body : A -> M unit) : M unit :=
  match xs with
  | [] => ret tt
  | x :: xs' => body x ;;; for_of xs' body
  end.

(** The environment answers every collaborator call. *)
Definition world : Type := forall X : Type, collab X -> result X.

Inductive event : Type :=
| Called {X : Type} (c : collab X)
| Printed (l : log_line).

Fixpoint run {A : Type} (w : world) (p : io A) : list event * A :=
  match p with
  | Done a => ([], a)
  | Await c k => let '(t, a) := run w (k (w _ c)) in (Called c :: t, a)
  | Stderr l k => let '(t, a) := run w k in (Printed l :: t, a)
  end.

Definition trace {A : Type} (w : world) (p : io A) : list event := fst (run w p).
Definition outcome {A : Type} (w : world) (p : io A) : A := snd (run w p).

(** The collaborator calls among the events. *)
Definition is_call (e : event) : bool :=
  match e with Called _ => true | Printed _ => false end.

Definition is_warning (e : event) : bool :=
  match e with Printed (Warning _) => true | _ => false end.

(* ================================================================== *)
(** ** projectLoader.js: [loadProjects] and [addProject] *)
(* ================================================================== *)

(** [validateString(value, name)] of Node's [path] module on a parsed
    value or [undefined]. *)
Definition validateString (value : option json) (name : string) : result string :=
  match value with
  | Some (JStr s) => Ok s
  | Some JNull => Thrown (ERR_INVALID_ARG_TYPE name "null")
  | Some (JBool b) =>
      Thrown (ERR_INVALID_ARG_TYPE name
                ("type boolean (" +:+ (if b then "true" else "false") +:+ ")"))
  | Some (JNum repr) => Thrown (ERR_INVALID_ARG_TYPE name ("type number (" +:+ repr +:+ ")"))
  | Some (JArr _) => Thrown (ERR_INVALID_ARG_TYPE name "an instance of Array")
  | Some (JObj fields) =>
      match received_object fields with
      | Ok what => Thrown (ERR_INVALID_ARG_TYPE name what)
      | Thrown e => Thrown e
      end
  | None => Thrown (ERR_INVALID_ARG_TYPE name "undefined")
  end.

(** [path.resolve(currentProjectPath, project.path)]: the arguments are
    checked from the last one on, so the check of [project.path] comes
    first. *)
Definition path_resolve_json (cwd currentProjectPath : string) (p : option json)
  : result string :=
  match validateString p "paths[1]" with
  | Ok s => Ok (path_resolve cwd [currentProjectPath; s])
  | Thrown e => Thrown e
  end.

(** The property key that [projects[project.name]] uses, which is also the
    text of [${project.name}]. *)
Definition key_of (v : option json) : result string :=
  match v with Some j => json_toString j | None => Ok "undefined" end.

(** The body of [for (const project of config.projects)]. *)
Definition link_project (cwd currentProjectPath : string) (project : json) : M unit :=
  name <- lift (get_field project "name") ;;
  if truthy_json name then
    path <- lift (get_field project "path") ;;
    if truthy_json path then
      resolvedPath <- lift (path_resolve_json cwd currentProjectPath path) ;;
      key <- lift (key_of name) ;;
      assign key resolvedPath ;;;
      console_error (Linked key resolvedPath)
    else ret tt
  else ret tt.

Definition is_ENOENT (error : exn) : bool :=
  match err_code error with
  | Some c => (c =? "ENOENT")%string
  | None => false
  end.

(** The [try] block of [loadProjects]. *)
Definition load_config (cwd currentProjectPath : string) : M unit :=
  let configPath := path_join [currentProjectPath; ".workspace-bridge.json"] in
  configContent <- await (fs_readFile configPath) ;;
  config <- await (JSON_parse configContent) ;;
  projects_field <- lift (get_field config "projects") ;;
  if truthy_json projects_field && isArray projects_field then
    match projects_field with
    | Some (JArr items) => for_of items (link_project cwd currentProjectPath)
    | _ => ret tt
    end
  else ret tt.

(** [loadProjects(currentProjectPath)] in a process whose working directory
    is [cwd]; it starts from the object it creates itself. *)
Definition loadProjects_body (cwd currentProjectPath : string) : M string :=
  let currentProjectName := path_basename currentProjectPath in
  assign currentProjectName currentProjectPath ;;;
  try_catch (load_config cwd currentProjectPath)
    (fun error =>
       if negb (is_ENOENT error)
       then console_error (Warning (err_message error))
       else ret tt) ;;;
  ret currentProjectName.

Definition loadProjects (cwd currentProjectPath : string) : io (Registry * result string) :=
  loadProjects_body cwd currentProjectPath [].

(** [addProject(projects, name, projectPath)] *)
Definition addProject (cwd name projectPath : string) : M unit :=
  stats <- await (fs_stat projectPath) ;;
  if negb (isDirectory stats)
  then throw (new_Error ("Path is not a directory: " +:+ projectPath))
  else assign name (path_resolve cwd [projectPath]).

(* ================================================================== *)
(** ** gitHelpers.js *)
(* ================================================================== *)

(** [String(v)] for a value read from the registry. *)
Definition value_toString (v : value) : string :=
  match v with
  | Undefined => "undefined"
  | Str s => s
  | Builtin k =>
      if (k =? "__proto__")%string then "[object Object]"
      else "function " +:+ (if (k =? "constructor")%string then "Object" else k)
           +:+ "() { [native code] }"
  end.

(** [getGitInstance(projects, projectName)]: the client is identified by
    the root it was created with. *)
Definition getGitInstance (projectName : string) : M value :=
  projects <- read_registry ;;
  root <- lift (getProjectPath projects projectName) ;;
  await (simpleGit root) ;;;
  isRepo <- await (git_checkIsRepo root) ;;
  if negb isRepo
  then throw (new_Error ("Project '" +:+ projectName +:+ "' at " +:+ value_toString root
                         +:+ " is not a git repository"))
  else ret root.

(** A commit in a tool's answer; a field that is [undefined] is [None]. *)
Record Commit : Type := {
  hash : string;
  author : option string;
  email : option string;
  date : option string;
  message : string;
  body : string
}.

Definition formatCommit (commit : RawCommit) : Commit :=
  {| hash := raw_hash commit;
     author := Some (raw_author_name commit);
     email := Some (raw_author_email commit);
     date := Some (raw_date commit);
     message := raw_message commit;
     body := if truthy_string (raw_body commit) then raw_body commit else "" |}.

(* ================================================================== *)
(** ** The tools' answers *)
(* ================================================================== *)

Record BlameLine : Type := {
  bl_hash : string;
  bl_lineNum : option Z;           (* [None] is NaN *)
  bl_author : option string;
  bl_date : option string;
  bl_summary : option string;
  bl_content : option string
}.

(** The text of a successful answer, or the object given to
    [JSON.stringify] to produce it. *)
Inductive payload : Type :=
| Text (text : string)
| FileList (entries : list (string * string))
| CommitHistory (project branch : string) (count : nat) (commits : list Commit)
| SearchResult (project query : string) (searchInDiff : bool) (count : nat)
               (commits : list Commit)
| CommitDetails (project : string) (commit : Commit) (stats diff : string)
| FileHistory (project file : string) (count : nat) (commits : list Commit)
| Blame (project file : string) (lines : list BlameLine)
| RepositoryInfo (project : string) (status : StatusResult) (branches : BranchSummary)
                 (remotes : list Remote) (tags : list string)
| BranchComparison (project baseBranch compareBranch : string) (commitsAhead : nat)
                   (commits : list Commit) (diffStats : string).

(** [try { ... } catch (error) { throw new Error(prefix + error.message) }] *)
Definition rethrow {A : Type} (prefix : string) (m : M A) : M A :=
  try_catch m (fun error => throw (new_Error (prefix +:+ err_message error))).

Definition or_default {A : Type} (o : option A) (d : A) : A :=
  match o with Some a => a | None => d end.

(** [...(s && { [k]: s })] for an optional string *)
Definition spread_str (o : LogOptions) (k : string) (s : option string) : LogOptions :=
  match s with
  | Some s' => if truthy_string s' then define o k (OStr s') else o
  | None => o
  end.

(** [...(n && { [k]: n })] for a number *)
Definition spread_num (o : LogOptions) (k : string) (n : Z) : LogOptions :=
  if (n =? 0)%Z then o else define o k (ONum n).

Definition truthy_opt (s : option string) : bool :=
  match s with Some s' => truthy_string s' | None => false end.

(** [xs.slice(0, n)] *)
Definition slice0 {A : Type} (xs : list A) (n : Z) : list A :=
  if (n <? 0)%Z
  then firstn (Z.to_nat (Z.max (Z.of_nat (length xs) + n) 0)) xs
  else firstn (Z.to_nat n) xs.

(* ================================================================== *)
(** ** gitTools.js: getCommitHistory, searchCommits, getCommitDetails,
       getFileHistory *)
(* ================================================================== *)

Definition getCommitHistory_tool (project : string) (branch : option string)
    (maxCount skip : option Z) (author since until : option string) : M payload :=
  let maxCount := or_default maxCount 50%Z in
  let skip := or_default skip 0%Z in
  rethrow "Failed to get commit history: "
    (git <- getGitInstance project ;;
     let options :=
       spread_str (spread_str (spread_str (spread_num [("maxCount", ONum maxCount)]
         "skip" skip) "--author" author) "--since" since) "--until" until in
     log <- (if truthy_opt branch
             then await (git_log git (define options (or_default branch "") ONull))
             else await (git_log git options)) ;;
     let commits := map formatCommit log in
     ret (CommitHistory project
            (if truthy_opt branch then or_default branch "" else "(current)")
            (length commits) commits)).

(** One line of [git log --pretty=format:%H|%an|%ae|%ad|%s]. *)
Definition parseDiffLine (line : string) : Commit :=
  let parts := split "|" line in
  {| hash := nth 0 parts "";
     author := nth_error parts 1;
     email := nth_error parts 2;
     date := nth_error parts 3;
     message := join "|" (skipn 4 parts);
     body := "(found in code changes)" |}.

Definition parseDiffResults (diffResults : string) : list Commit :=
  map parseDiffLine (filter trim_truthy (split LF diffResults)).

(** [Array.from(new Map(cs.map(c => [c.hash, c])).values())]: a key seen
    again keeps its place and takes the new value. *)
Definition uniqueByHash (cs : list Commit) : list Commit :=
  map snd (fold_left (fun m c => define m (hash c) c) cs []).

Definition searchOptions (query : string) (maxCount : Z) (author : option string)
  : LogOptions :=
  spread_str [("--grep", OStr query); ("--regexp-ignore-case", ONull);
              ("maxCount", ONum maxCount)] "--author" author.

Definition diffOptions (query : string) (maxCount : Z) (author : option string)
  : list string :=
  [ "log"; "-S" +:+ query; "--regexp-ignore-case";
    "--max-count=" +:+ decimal maxCount;
    "--pretty=format:%H|%an|%ae|%ad|%s"; "--date=iso" ]
  ++ (if truthy_opt author then ["--author=" +:+ or_default author ""] else []).

Definition searchCommits_tool (project query : string) (searchInDiff : option bool)
    (maxCount : option Z) (author : option string) : M payload :=
  let searchInDiff := or_default searchInDiff false in
  let maxCount := or_default maxCount 50%Z in
  rethrow "Failed to search commits: "
    (git <- getGitInstance project ;;
     log <- await (git_log git (searchOptions query maxCount author)) ;;
     let commits := map formatCommit log in
     commits <- (if searchInDiff then
                   diffResults <- await (git_raw git (diffOptions query maxCount author)) ;;
                   let diffCommits := parseDiffResults diffResults in
                   let allCommits := commits ++ diffCommits in
                   let uniqueCommits := uniqueByHash allCommits in
                   ret (slice0 uniqueCommits maxCount)
                 else ret commits) ;;
     ret (SearchResult project query searchInDiff (length commits) commits)).

Definition getCommitDetails_tool (project commitHash : string) : M payload :=
  rethrow "Failed to get commit details: "
    (git <- getGitInstance project ;;
     log <- await (git_log git (define [("maxCount", ONum 1)] commitHash ONull)) ;;
     match log with
     | [] => throw (new_Error ("Commit '" +:+ commitHash +:+ "' not found"))
     | first :: _ =>
         let commit := formatCommit first in
         diff <- await (git_show git [commitHash]) ;;
         stats <- await (git_raw git ["show"; "--stat"; "--oneline"; commitHash]) ;;
         ret (CommitDetails project commit stats diff)
     end).

Definition getFileHistory_tool (project file : string) (maxCount : option Z) : M payload :=
  let maxCount := or_default maxCount 50%Z in
  rethrow "Failed to get file history: "
    (git <- getGitInstance project ;;
     log <- await (git_log git [("file", OStr file); ("maxCount", ONum maxCount)]) ;;
     let commits := map formatCommit log in
     ret (FileHistory project file (length commits) commits)).

Definition getRepositoryInfo_tool (project : string) : M payload :=
  rethrow "Failed to get repository info: "
    (git <- getGitInstance project ;;
     status <- await (git_status git) ;;
     branches <- await (git_branch git) ;;
     remotes <- await (git_getRemotes git) ;;
     tags <- await (git_tags git) ;;
     ret (RepositoryInfo project status branches remotes tags)).

Definition compareBranches_tool (project baseBranch compareBranch : string) : M payload :=
  rethrow "Failed to compare branches: "
    (git <- getGitInstance project ;;
     log <- await (git_log git [("from", OStr baseBranch); ("to", OStr compareBranch)]) ;;
     let commits := map formatCommit log in
     stats <- await (git_raw git ["diff"; "--stat"; baseBranch +:+ "..." +:+ compareBranch]) ;;
     ret (BranchComparison project baseBranch compareBranch (length commits) commits stats)).

(* ================================================================== *)
(** ** Numbers and dates read from the blame stream *)
(* ================================================================== *)

Definition decimal_digit (c : ascii) : option (Decimal.uint -> Decimal.uint) :=
  match nat_of_ascii c with
  | 48 => Some Decimal.D0 | 49 => Some Decimal.D1 | 50 => Some Decimal.D2
  | 51 => Some Decimal.D3 | 52 => Some Decimal.D4 | 53 => Some Decimal.D5
  | 54 => Some Decimal.D6 | 55 => Some Decimal.D7 | 56 => Some Decimal.D8
  | 57 => Some Decimal.D9
  | _ => None
  end%nat.

(** The longest prefix of decimal digits. *)
Fixpoint scan_decimal (s : string) : Decimal.uint :=
  match s with
  | EmptyString => Decimal.Nil
  | String c s' =>
      match decimal_digit c with
      | Some d => d (scan_decimal s')
      | None => Decimal.Nil
      end
  end.

Definition hex_digit (c : ascii) : option (Hexadecimal.uint -> Hexadecimal.uint) :=
  match nat_of_ascii c with
  | 48 => Some Hexadecimal.D0 | 49 => Some Hexadecimal.D1 | 50 => Some Hexadecimal.D2
  | 51 => Some Hexadecimal.D3 | 52 => Some Hexadecimal.D4 | 53 => Some Hexadecimal.D5
  | 54 => Some Hexadecimal.D6 | 55 => Some Hexadecimal.D7 | 56 => Some Hexadecimal.D8
  | 57 => Some Hexadecimal.D9
  | 65 | 97 => Some Hexadecimal.Da | 66 | 98 => Some Hexadecimal.Db
  | 67 | 99 => Some Hexadecimal.Dc | 68 | 100 => Some Hexadecimal.Dd
  | 69 | 101 => Some Hexadecimal.De | 70 | 102 => Some Hexadecimal.Df
  | _ => None
  end%nat.

Fixpoint scan_hex (s : string) : Hexadecimal.uint :=
  match s with
  | EmptyString => Hexadecimal.Nil
  | String c s' =>
      match hex_digit c with
      | Some d => d (scan_hex s')
      | None => Hexadecimal.Nil
      end
  end.

(** The digits of [parseInt] once white space and sign are gone: a [0x]
    prefix selects radix 16; no digit at all is NaN. *)
Definition parse_magnitude (s : string) : option Z :=
  if startsWith "0x" s || startsWith "0X" s then
    match scan_hex (substring_from 2 s) with
    | Hexadecimal.Nil => None
    | u => Some (Z.of_N (N.of_hex_uint u))
    end
  else
    match scan_decimal s with
    | Decimal.Nil => None
    | u => Some (Z.of_N (N.of_uint u))
    end.

(** [parseInt(s)]; [None] is NaN. *)
Definition parseInt (s : string) : option Z :=
  let s := trimStart s in
  if startsWith "-" s then option_map Z.opp (parse_magnitude (substring_from 1 s))
  else if startsWith "+" s then parse_magnitude (substring_from 1 s)
  else parse_magnitude s.

(** [parseInt(x)] where [x] may be [undefined]. *)
Definition parseInt_opt (s : option string) : option Z :=
  match s with
  | Some s' => parseInt s'
  | None => None
  end.

(** [n] in decimal on at least [width] digits, for [0 <= n]. *)
Definition pad (width : nat) (n : Z) : string :=
  let d := decimal n in
  String.concat "" (repeat "0" (width - String.length d)) +:+ d.

(** Year, month and day of the proleptic Gregorian calendar for a day
    number counted from 1970-01-01. *)
Definition civil_from_days (days : Z) : Z * Z * Z :=
  (let z := days + 719468 in
  let era := z / 146097 in
  let doe := z mod 146097 in
  let yoe := (doe - doe / 1460 + doe / 36524 - doe / 146096) / 365 in
  let doy := doe - (365 * yoe + yoe / 4 - yoe / 100) in
  let mp := (5 * doy + 2) / 153 in
  let d := doy - (153 * mp + 2) / 5 + 1 in
  let m := if mp <? 10 then mp + 3 else mp - 9 in
  let y := yoe + era * 400 + (if m <=? 2 then 1 else 0) in
  (y, m, d))%Z.

Definition iso_year (y : Z) : string :=
  if ((0 <=? y) && (y <=? 9999))%Z then pad 4 y
  else (if (y <? 0)%Z then "-" else "+") +:+ pad 6 (Z.abs y).

(** The text of [toISOString] for a time value in range. *)
Definition iso_date (ms : Z) : string :=
  let '(y, m, d) := civil_from_days (ms / 86400000)%Z in
  let r := (ms mod 86400000)%Z in
  iso_year y +:+ "-" +:+ pad 2 m +:+ "-" +:+ pad 2 d +:+ "T"
  +:+ pad 2 (r / 3600000)%Z +:+ ":" +:+ pad 2 (r / 60000 mod 60)%Z +:+ ":"
  +:+ pad 2 (r / 1000 mod 60)%Z +:+ "." +:+ pad 3 (r mod 1000)%Z +:+ "Z".

(** [new Date(t).toISOString()]: a time value that is NaN or beyond
    8.64e15 ms makes it throw. *)
Definition toISOString (t : option Z) : result string :=
  match t with
  | Some ms =>
      if (Z.abs ms <=? 8640000000000000)%Z then Ok (iso_date ms)
      else Thrown (mkExn ERangeError None "Invalid time value")
  | None => Thrown (mkExn ERangeError None "Invalid time value")
  end.

(* ================================================================== *)
(** ** gitTools.js: gitBlame *)
(* ================================================================== *)

Definition is_hex_lower (c : ascii) : bool :=
  let n := nat_of_ascii c in
  ((48 <=? n) && (n <=? 57) || (97 <=? n) && (n <=? 102))%nat.

Fixpoint hex_prefix (n : nat) (s : string) : bool :=
  match n with
  | O => true
  | S n' =>
      match s with
      | String c s' => is_hex_lower c && hex_prefix n' s'
      | EmptyString => false
      end
  end.

(** [line.match(/^[0-9a-f]{40}/)] *)
Definition matches_commit_line (line : string) : bool := hex_prefix 40 line.

(** The parser's state: [blameData] and [currentCommit]. *)
Definition blame_state : Type := list BlameLine * option BlameLine.

(** One turn of the loop over the lines of the blame output. *)
Definition blame_step (st : blame_state) (line : string) : result blame_state :=
  let '(blameData, currentCommit) := st in
  if matches_commit_line line then
    let parts := split " " line in
    Ok (blameData,
        Some {| bl_hash := nth 0 parts "";
                bl_lineNum := parseInt_opt (nth_error parts 2);
                bl_author := None; bl_date := None;
                bl_summary := None; bl_content := None |})
  else
    match currentCommit with
    | None => Ok st
    | Some cc =>
        if startsWith "author " line then
          Ok (blameData,
              Some {| bl_hash := bl_hash cc; bl_lineNum := bl_lineNum cc;
                      bl_author := Some (substring_from 7 line); bl_date := bl_date cc;
                      bl_summary := bl_summary cc; bl_content := bl_content cc |})
        else if startsWith "author-time " line then
          match toISOString (option_map (fun n => n * 1000)%Z
                                        (parseInt (substring_from 12 line))) with
          | Ok d =>
              Ok (blameData,
                  Some {| bl_hash := bl_hash cc; bl_lineNum := bl_lineNum cc;
                          bl_author := bl_author cc; bl_date := Some d;
                          bl_summary := bl_summary cc; bl_content := bl_content cc |})
          | Thrown e => Thrown e
          end
        else if startsWith "summary " line then
          Ok (blameData,
              Some {| bl_hash := bl_hash cc; bl_lineNum := bl_lineNum cc;
                      bl_author := bl_author cc; bl_date := bl_date cc;
                      bl_summary := Some (substring_from 8 line);
                      bl_content := bl_content cc |})
        else if startsWith (String TAB "") line then
          Ok (blameData ++
                [ {| bl_hash := bl_hash cc; bl_lineNum := bl_lineNum cc;
                     bl_author := bl_author cc; bl_date := bl_date cc;
                     bl_summary := bl_summary cc;
                     bl_content := Some (substring_from 1 line) |} ],
              None)
        else Ok st
    end.

Fixpoint blame_loop (lines : list string) (st : blame_state) : result blame_state :=
  match lines with
  | [] => Ok st
  | line :: rest =>
      match blame_step st line with
      | Ok st' => blame_loop rest st'
      | Thrown e => Thrown e
      end
  end.

Definition parseBlame (blameOutput : string) : result (list BlameLine) :=
  match blame_loop (split LF blameOutput) ([], None) with
  | Ok (blameData, _) => Ok blameData
  | Thrown e => Thrown e
  end.

Definition truthy_num (n : option Z) : bool :=
  match n with Some z => negb (z =? 0)%Z | None => false end.

Definition blameArgs (file : string) (startLine endLine : option Z) : list string :=
  ["blame"; "--line-porcelain"]
  ++ (if truthy_num startLine && truthy_num endLine
      then ["-L" +:+ decimal (or_default startLine 0%Z) +:+ ","
            +:+ decimal (or_default endLine 0%Z)]
      else [])
  ++ [file].

Definition gitBlame_tool (project file : string) (startLine endLine : option Z)
  : M payload :=
  rethrow "Failed to get git blame: "
    (git <- getGitInstance project ;;
     projects <- read_registry ;;
     root <- lift (getProjectPath projects project) ;;
     filePath <- lift (path_join_value root file) ;;
     try_catch (await (fs_access filePath))
       (fun _ => throw (new_Error ("File '" +:+ file +:+ "' not found in project '"
                                   +:+ project +:+ "'"))) ;;;
     blameOutput <- await (git_raw git (blameArgs file startLine endLine)) ;;
     blameData <- lift (parseBlame blameOutput) ;;
     ret (Blame project file blameData)).

(* ================================================================== *)
(** ** fileTools.js *)
(* ================================================================== *)

Definition NL : string := String LF "".

Definition addProject_tool (cwd name projectPath : string) : M payload :=
  rethrow "Failed to add project: "
    (addProject cwd name projectPath ;;;
     projects <- read_registry ;;
     ret (Text ("✅ Successfully added project '" +:+ name +:+ "' at "
                +:+ value_toString (Get projects name) +:+ NL +:+ NL
                +:+ "Registered projects:" +:+ NL
                +:+ join NL (map (fun '(n, p) => "  - " +:+ n +:+ ": " +:+ p)
                                 (Object_entries projects))))).

Definition removeProject_tool (name : string) : M payload :=
  (fun projects => Done (removeProject projects name)) ;;;
  projects <- read_registry ;;
  let listing := join NL (map (fun '(n, p) => "  - " +:+ n +:+ ": " +:+ p)
                              (Object_entries projects)) in
  ret (Text ("✅ Successfully removed project '" +:+ name +:+ "'" +:+ NL +:+ NL
             +:+ "Remaining projects:" +:+ NL
             +:+ (if truthy_string listing then listing else "  (none)"))).

Definition listProjects_tool : M payload :=
  projects <- read_registry ;;
  let projectList := Object_entries projects in
  if (length projectList =? 0)%nat then
    ret (Text "No projects registered yet. Use the 'addProject' tool to add projects.")
  else
    ret (Text ("📁 Registered Projects (" +:+ decimal (Z.of_nat (length projectList))
               +:+ "):" +:+ NL +:+ NL
               +:+ join (NL +:+ NL)
                     (map (fun '(name, path) => "  • " +:+ name +:+ NL +:+ "    " +:+ path)
                          projectList))).

Definition listFiles_tool (project : string) (dir : option string) : M payload :=
  let dir := or_default dir "" in
  projects <- read_registry ;;
  root <- lift (getProjectPath projects project) ;;
  target <- lift (path_join_value root dir) ;;
  items <- await (fs_readdir target) ;;
  ret (FileList (map (fun item =>
                        (dirent_name item,
                         if dirent_isDirectory item then "directory" else "file"))
                     items)).

Definition readFile_tool (project file : string) : M payload :=
  projects <- read_registry ;;
  root <- lift (getProjectPath projects project) ;;
  filePath <- lift (path_join_value root file) ;;
  content <- await (fs_readFile filePath) ;;
  ret (Text content).

(** A call of one of the tools that take a project name. *)
Inductive project_call : Type :=
| ListFiles (project : string) (dir : option string)
| ReadFile (project file : string)
| GetCommitHistory (project : string) (branch : option string) (maxCount skip : option Z)
                   (author since until : option string)
| SearchCommits (project query : string) (searchInDiff : option bool)
                (maxCount : option Z) (author : option string)
| GetCommitDetails (project commitHash : string)
| GetFileHistory (project file : string) (maxCount : option Z)
| GitBlame (project file : string) (startLine endLine : option Z)
| GetRepositoryInfo (project : string)
| CompareBranches (project baseBranch compareBranch : string).

Definition project_of (c : project_call) : string :=
  match c with
  | ListFiles p _ | ReadFile p _ | GetCommitHistory p _ _ _ _ _ _
  | SearchCommits p _ _ _ _ | GetCommitDetails p _ | GetFileHistory p _ _
  | GitBlame p _ _ _ | GetRepositoryInfo p | CompareBranches p _ _ => p
  end.

Definition handle (c : project_call) : M payload :=
  match c with
  | ListFiles p dir => listFiles_tool p dir
  | ReadFile p file => readFile_tool p file
  | GetCommitHistory p branch maxCount skip author since until =>
      getCommitHistory_tool p branch maxCount skip author since until
  | SearchCommits p query searchInDiff maxCount author =>
      searchCommits_tool p query searchInDiff maxCount author
  | GetCommitDetails p commitHash => getCommitDetails_tool p commitHash
  | GetFileHistory p file maxCount => getFileHistory_tool p file maxCount
  | GitBlame p file startLine endLine => gitBlame_tool p file startLine endLine
  | GetRepositoryInfo p => getRepositoryInfo_tool p
  | CompareBranches p baseBranch compareBranch =>
      compareBranches_tool p baseBranch compareBranch
  end.

(* ================================================================== *)
(** ** Worlds for running the programs on examples *)
(* ================================================================== *)

(** The error of a missing file. *)
Definition ENOENT (syscall p : string) : exn :=
  mkExn EError (Some "ENOENT")
        ("ENOENT: no such file or directory, " +:+ syscall +:+ " '" +:+ p +:+ "'").

(** A small world: the readable files with their text, the directories,
    what [JSON.parse] makes of a text, and what git answers to [log] and to
    [raw]. *)
Record scenario : Type := {
  sc_files : list (string * string);
  sc_dirs : list string;
  sc_json : list (string * json);
  sc_log : list RawCommit;
  sc_raw : string
}.

Definition is_dir (s : scenario) (p : string) : bool :=
  existsb (String.eqb p) (sc_dirs s).

Definition scenario_world (s : scenario) : world :=
  fun X c =>
    match c in collab X return result X with
    | fs_readFile p =>
        match assoc p (sc_files s) with
        | Some text => Ok text
        | None => Thrown (ENOENT "open" p)
        end
    | fs_stat p =>
        if is_dir s p then Ok {| isDirectory := true |}
        else match assoc p (sc_files s) with
             | Some _ => Ok {| isDirectory := false |}
             | None => Thrown (ENOENT "stat" p)
             end
    | fs_readdir p => if is_dir s p then Ok [] else Thrown (ENOENT "scandir" p)
    | fs_access p =>
        if is_dir s p then Ok tt
        else match assoc p (sc_files s) with
             | Some _ => Ok tt
             | None => Thrown (ENOENT "access" p)
             end
    | JSON_parse text =>
        match assoc text (sc_json s) with
        | Some j => Ok j
        | None => Thrown (mkExn ESyntaxError None "Unexpected end of JSON input")
        end
    | simpleGit _ => Ok tt
    | git_checkIsRepo _ => Ok true
    | git_log _ _ => Ok (sc_log s)
    | git_raw _ _ => Ok (sc_raw s)
    | git_show _ _ => Ok ""
    | git_status _ =>
        Ok {| st_current := "main"; st_modified := []; st_created := [];
              st_deleted := []; st_renamed := []; st_staged := [];
              st_ahead := 0; st_behind := 0 |}
    | git_branch _ => Ok {| br_all := ["main"]; br_current := "main" |}
    | git_getRemotes _ => Ok []
    | git_tags _ => Ok []
    end.

(* ================================================================== *)
(** ** Vocabulary of the statements *)
(* ================================================================== *)

(** [needle] occurs in [hay]. *)
Definition occurs_in (needle hay : string) : Prop :=
  exists pre post, hay = pre +:+ needle +:+ post.

Definition configPath (currentProjectPath : string) : string :=
  path_join [currentProjectPath; ".workspace-bridge.json"].

(** What the catch block of [loadProjects] prints for an error. *)
Definition warning_for (error : exn) : list event :=
  if is_ENOENT error then [] else [Printed (Warning (err_message error))].

(** The parsed configuration has no list under [projects]. *)
Definition no_projects_list (config : json) : Prop :=
  match config with
  | JObj fields =>
      match assoc "projects" fields with
      | Some (JArr _) => False
      | _ => True
      end
  | _ => True
  end.

(** An entry of the documented shape: an object whose [name] and [path],
    when present, are strings. *)
Definition shaped (entry : json) : Prop :=
  match entry with
  | JObj fields =>
      match assoc "name" fields with Some (JStr _) | None => True | _ => False end
      /\ match assoc "path" fields with Some (JStr _) | None => True | _ => False end
  | _ => False
  end.

(** The name and path of an entry that has both, non-empty. *)
Definition well_formed_entry (entry : json) : option (string * string) :=
  match entry with
  | JObj fields =>
      match assoc "name" fields, assoc "path" fields with
      | Some (JStr n), Some (JStr p) =>
          if truthy_string n && truthy_string p then Some (n, p) else None
      | _, _ => None
      end
  | _ => None
  end.

(** The bindings the well-formed entries ask for, in file order. *)
Definition links (cwd currentProjectPath : string) (items : list json)
  : list (string * string) :=
  flat_map (fun entry =>
              match well_formed_entry entry with
              | Some (n, p) => [(n, path_resolve cwd [currentProjectPath; p])]
              | None => []
              end) items.

(** Assigning a list of bindings in order. *)
Definition put_all (projects : Registry) (l : list (string * string)) : Registry :=
  fold_left (fun r '(n, p) => Put r n p) l projects.

(** The last binding of [k] in a list of bindings. *)
Definition last_binding (k : string) (l : list (string * string)) : option string :=
  assoc k (rev l).

(** The prefix a tool puts in front of the message of an error it caught. *)
Definition failure_prefix (c : project_call) : string :=
  match c with
  | ListFiles _ _ | ReadFile _ _ => ""
  | GetCommitHistory _ _ _ _ _ _ _ => "Failed to get commit history: "
  | SearchCommits _ _ _ _ _ => "Failed to search commits: "
  | GetCommitDetails _ _ => "Failed to get commit details: "
  | GetFileHistory _ _ _ => "Failed to get file history: "
  | GitBlame _ _ _ _ => "Failed to get git blame: "
  | GetRepositoryInfo _ => "Failed to get repository info: "
  | CompareBranches _ _ _ => "Failed to compare branches: "
  end.

(** Membership of a hash in a list of hashes. *)
Definition mem (h : string) (hs : list string) : bool := existsb (String.eqb h) hs.

(** The hashes of [hs] that are not in [seen], each once, in the order in
    which they first occur. *)
Fixpoint distinct (seen hs : list string) : list string :=
  match hs with
  | [] => []
  | h :: hs' => if mem h seen then distinct seen hs' else h :: distinct (h :: seen) hs'
  end.

(** The last commit of [cs] that carries the hash [h]. *)
Definition last_with_hash (h : string) (cs : list Commit) : option Commit :=
  find (fun c => (hash c =? h)%string) (rev cs).

(** The merge as the specification words it: on a collision of hashes the
    entry that comes first, the one of the message search, is kept. *)
Fixpoint keep_first_by_hash (seen : list string) (cs : list Commit) : list Commit :=
  match cs with
  | [] => []
  | c :: cs' =>
      if mem (hash c) seen then keep_first_by_hash seen cs'
      else c :: keep_first_by_hash (hash c :: seen) cs'
  end.

Definition merge_message_first (messageCommits diffCommits : list Commit) (maxCount : Z)
  : list Commit :=
  slice0 (keep_first_by_hash [] (messageCommits ++ diffCommits)) maxCount.

(** The commits in a search answer. *)
Definition commits_of (r : result payload) : list Commit :=
  match r with
  | Ok (SearchResult _ _ _ _ commits) => commits
  | _ => []
  end.

(* ================================================================== *)
(** ** The stream of [git blame --line-porcelain] *)
(* ================================================================== *)

(** What git prints for one line of the blamed file: the header with the
    commit, the line number in the original and in the final file and, on
    the first line of a group, the size of the group; the commit's details;
    the file name; and the line itself behind a TAB. *)
Record BlameEntry : Type := {
  be_hash : string;
  be_orig_line : N;
  be_final_line : N;
  be_group : option N;
  be_author : string;
  be_author_mail : string;
  be_author_time : N;
  be_author_tz : string;
  be_committer : string;
  be_committer_mail : string;
  be_committer_time : N;
  be_committer_tz : string;
  be_summary : string;
  be_boundary : bool;
  be_previous : option string;
  be_filename : string;
  be_content : string
}.

Definition dec (n : N) : string := DecimalString.NilZero.string_of_uint (N.to_uint n).

Definition entry_lines (e : BlameEntry) : list string :=
  [ be_hash e +:+ " " +:+ dec (be_orig_line e) +:+ " " +:+ dec (be_final_line e)
      +:+ match be_group e with Some g => " " +:+ dec g | None => "" end;
    "author " +:+ be_author e;
    "author-mail " +:+ be_author_mail e;
    "author-time " +:+ dec (be_author_time e);
    "author-tz " +:+ be_author_tz e;
    "committer " +:+ be_committer e;
    "committer-mail " +:+ be_committer_mail e;
    "committer-time " +:+ dec (be_committer_time e);
    "committer-tz " +:+ be_committer_tz e;
    "summary " +:+ be_summary e ]
  ++ (if be_boundary e then ["boundary"] else [])
  ++ match be_previous e with Some p => ["previous " +:+ p] | None => [] end
  ++ [ "filename " +:+ be_filename e;
       String TAB (be_content e) ].

(** Every line ends with a line feed. *)
Fixpoint unlines (ls : list string) : string :=
  match ls with
  | [] => ""
  | l :: ls' => l +:+ String LF (unlines ls')
  end.

Definition porcelain (es : list BlameEntry) : string :=
  unlines (flat_map entry_lines es).

(** [s] has no character [c]. *)
Fixpoint lacks (c : ascii) (s : string) : bool :=
  match s with
  | EmptyString => true
  | String x s' => negb (Ascii.eqb x c) && lacks c s'
  end.

Fixpoint hex_string (s : string) : bool :=
  match s with
  | EmptyString => true
  | String x s' => is_hex_lower x && hex_string s'
  end.








(** A line of a sample blame stream. *)
Definition sample_entry (line : N) (content : string) : BlameEntry :=
  {| be_hash := "1f2e3d4c5b6a79881f2e3d4c5b6a79881f2e3d4c";
     be_orig_line := line; be_final_line := line; be_group := None;
     be_author := "Al"; be_author_mail := "<al@example.org>";
     be_author_time := 1700000000; be_author_tz := "+0100";
     be_committer := "Bo"; be_committer_mail := "<bo@example.org>";
     be_committer_time := 1700000100; be_committer_tz := "+0000";
     be_summary := "fix bug"; be_boundary := false;
     be_previous := Some "0a0b0c0d0e0f0a0b0c0d0e0f0a0b0c0d0e0f0a0b src/a.js";
     be_filename := "src/a.js"; be_content := content |}.

(** A project [app] with the file [src/a.js], in which git answers every
    raw command with the blame stream of the lines 2 and 3. *)
Definition sample_blame_world : world :=
  scenario_world
    {| sc_files := [("/repo/app/src/a.js", "unused")]; sc_dirs := ["/repo/app"];
       sc_json := []; sc_log := [];
       sc_raw := porcelain [sample_entry 2 "let x = 1;"; sample_entry 3 "return x;"] |}.

(** The data-model invariant: no registered path is the empty string. *)
Definition paths_nonempty (projects : Registry) : Prop :=
  Forall (fun kv => snd kv <> "") projects.

(* ================================================================== *)
(** ** Vocabulary of the further properties *)
(* ================================================================== *)

(** Every registered path is absolute. *)
Definition paths_absolute (projects : Registry) : Prop :=
  Forall (fun kv => isAbsolute (snd kv) = true) projects.

(** The registries a process can hold: the one [loadProjects] returns at
    startup, and those that [addProject] and [removeProject] make of it. *)
Inductive reachable (w : world) (cwd currentProjectPath : string) : Registry -> Prop :=
| reach_load :
    reachable w cwd currentProjectPath
      (fst (outcome w (loadProjects cwd currentProjectPath)))
| reach_add (projects : Registry) (name projectPath : string) :
    reachable w cwd currentProjectPath projects ->
    reachable w cwd currentProjectPath
      (fst (outcome w (addProject cwd name projectPath projects)))
| reach_remove (projects : Registry) (name : string) :
    reachable w cwd currentProjectPath projects ->
    reachable w cwd currentProjectPath (fst (removeProject projects name)).

(** The exception that an entry of the [projects] list makes the loop of
    [loadProjects] throw: [null] has no property to read; for an entry with
    a truthy name and a truthy path, a path that is not a string is refused
    by [path.resolve], and a name that cannot be turned into a property key
    makes the assignment throw. *)
Definition entry_error (entry : json) : option exn :=
  match entry with
  | JNull =>
      Some (mkExn ETypeError None "Cannot read properties of null (reading 'name')")
  | JObj fields =>
      if truthy_json (assoc "name" fields) && truthy_json (assoc "path" fields) then
        match validateString (assoc "path" fields) "paths[1]" with
        | Thrown e => Some e
        | Ok _ =>
            match key_of (assoc "name" fields) with
            | Thrown e => Some e
            | Ok _ => None
            end
        end
      else None
  | _ => None
  end.

(** The key and the resolved path that an entry binds: it has a truthy
    name, which gives the key, and a non-empty string as its path. *)
Definition entry_binding (cwd currentProjectPath : string) (entry : json)
  : option (string * string) :=
  match entry with
  | JObj fields =>
      if truthy_json (assoc "name" fields) && truthy_json (assoc "path" fields) then
        match validateString (assoc "path" fields) "paths[1]", key_of (assoc "name" fields) with
        | Ok p, Ok k => Some (k, path_resolve cwd [currentProjectPath; p])
        | _, _ => None
        end
      else None
  | _ => None
  end.

(** The bindings of a list of entries, in file order. *)
Definition bindings (cwd currentProjectPath : string) (items : list json)
  : list (string * string) :=
  flat_map (fun entry =>
              match entry_binding cwd currentProjectPath entry with
              | Some b => [b]
              | None => []
              end) items.

(** The entries that the loop gets through: those before the first entry
    that makes it throw. *)
Fixpoint reached (items : list json) : list json :=
  match items with
  | [] => []
  | entry :: rest =>
      match entry_error entry with
      | None => entry :: reached rest
      | Some _ => []
      end
  end.

(** The exception that ends the loop, if any. *)
Fixpoint first_error (items : list json) : option exn :=
  match items with
  | [] => None
  | entry :: rest =>
      match entry_error entry with
      | None => first_error rest
      | Some e => Some e
      end
  end.

(** The tools that work on the repository of a project. *)
Definition is_git_tool (c : project_call) : bool :=
  match c with
  | ListFiles _ _ | ReadFile _ _ => false
  | _ => true
  end.

(** A computation that hands the registry back as it received it. *)
Definition keeps_registry {A : Type} (w : world) (m : M A) : Prop :=
  forall projects, fst (outcome w (m projects)) = projects.

(** A collaborator call that the world answers with an error. *)
Definition failed (w : world) (e : event) : bool :=
  match e with
  | Called c => match w _ c with Thrown _ => true | Ok _ => false end
  | Printed _ => false
  end.

Definition all_succeeded (w : world) (t : list event) : bool :=
  forallb (fun e => negb (failed w e)) t.

(** No event follows a failed call. *)
Fixpoint stops_at_failure (w : world) (t : list event) : bool :=
  match t with
  | [] => true
  | e :: t' =>
      if failed w e then match t' with [] => true | _ :: _ => false end
      else stops_at_failure w t'
  end.

(** A computation that answers only when every call succeeded and that
    calls nothing after a call that failed. *)
Definition fail_fast {A : Type} (w : world) (m : M A) : Prop :=
  forall projects,
    match snd (outcome w (m projects)) with
    | Ok _ => all_succeeded w (trace w (m projects)) = true
    | Thrown _ => stops_at_failure w (trace w (m projects)) = true
    end.

(** A world in which no directory is a git repository. *)
Definition no_repository_world (s : scenario) : world :=
  fun X c =>
    match c in collab X return result X with
    | git_checkIsRepo _ => Ok false
    | c' => scenario_world s _ c'
    end.

(** What [git log --pretty=format:%H|%an|%ae|%ad|%s] prints for a commit:
    hash, author name, author email, date and subject. *)
Record DiffEntry : Type := {
  de_hash : string;
  de_author : string;
  de_email : string;
  de_date : string;
  de_subject : string
}.

Definition diff_line (e : DiffEntry) : string :=
  de_hash e +:+ "|" +:+ de_author e +:+ "|" +:+ de_email e +:+ "|" +:+ de_date e
  +:+ "|" +:+ de_subject e.

(** The output for a list of commits: one line each, a line feed between
    two of them. *)
Definition pretty_output (es : list DiffEntry) : string :=
  join (String LF "") (map diff_line es).

(** The hash is a non-empty word of hexadecimal digits, no field holds a
    line feed and none but the subject holds a vertical bar. *)
Definition diff_entry_ok (e : DiffEntry) : bool :=
  truthy_string (de_hash e) && hex_string (de_hash e)
  && lacks "|" (de_author e) && lacks "|" (de_email e) && lacks "|" (de_date e)
  && lacks LF (de_author e) && lacks LF (de_email e) && lacks LF (de_date e)
  && lacks LF (de_subject e).

Definition commit_of_diff_entry (e : DiffEntry) : Commit :=
  {| hash := de_hash e;
     author := Some (de_author e);
     email := Some (de_email e);
     date := Some (de_date e);
     message := de_subject e;
     body := "(found in code changes)" |}.

(** A directory or file name: not empty, without a slash, and neither [.]
    nor [..]. *)
Definition plain_segment (seg : string) : bool :=
  truthy_string seg && lacks "/" seg
  && negb (seg =? ".")%string && negb (seg =? "..")%string.

(** The absolute path made of the given names. *)
Definition absolute_path (segments : list string) : string :=
  "/" +:+ join "/" segments.



(* ================================================================== *)
(** * Facts about the primitives *)
(* ================================================================== *)

Example path_resolve_relative :
  path_resolve "/home/u" ["/repo/app"; "../sibling"] = "/repo/sibling".
Proof. reflexivity. Qed.

Example path_resolve_cwd : path_resolve "/home/u" ["lib/./x//"] = "/home/u/lib/x".
Proof. reflexivity. Qed.

Example path_join_config :
  path_join ["/repo/app"; ".workspace-bridge.json"] = "/repo/app/.workspace-bridge.json".
Proof. reflexivity. Qed.

Example path_basename_app : path_basename "/repo/app/" = "app".
Proof. reflexivity. Qed.

Example Object_keys_order :
  Object_keys [("b", "1"); ("10", "x"); ("a", "2"); ("2", "y"); ("01", "z")]
  = ["2"; "10"; "b"; "a"; "01"].
Proof. reflexivity. Qed.

Example toISOString_epoch :
  toISOString (Some 1700000000000%Z) = Ok "2023-11-14T22:13:20.000Z".
Proof. reflexivity. Qed.

Example parseInt_prefix : parseInt " 42abc" = Some 42%Z /\ parseInt "abc" = None.
Proof. split; reflexivity. Qed.

Section StringFacts.

Lemma append_assoc (a b c : string) : (a +:+ b) +:+ c = a +:+ b +:+ c.
Proof. induction a as [|x a IH]; simpl; [reflexivity | now rewrite IH]. Qed.

Lemma append_nil_r (a : string) : a +:+ "" = a.
Proof. induction a as [|x a IH]; simpl; [reflexivity | now rewrite IH]. Qed.

Lemma startsWith_append (p s : string) : startsWith p (p +:+ s) = true.
Proof.
  induction p as [|x p IH]; cbn [startsWith String.append]; [reflexivity|].
  now rewrite Ascii.eqb_refl, IH.
Qed.

Lemma startsWith_split (p s : string) :
  startsWith p s = true -> exists rest, s = p +:+ rest.
Proof.
  revert s; induction p as [|x p IH]; intros s H.
  - now exists s.
  - destruct s as [|y s]; cbn [startsWith] in H; [discriminate|].
    apply andb_prop in H as [E H]. apply Ascii.eqb_eq in E as ->.
    destruct (IH _ H) as [rest ->]. now exists rest.
Qed.

Lemma includes_unfold (needle hay : string) :
  includes needle hay =
  if startsWith needle hay then true
  else match hay with
       | EmptyString => false
       | String _ hay' => includes needle hay'
       end.
Proof. destruct hay; reflexivity. Qed.

Lemma includes_occurs (needle hay : string) :
  includes needle hay = true <-> occurs_in needle hay.
Proof.
  split.
  - induction hay as [|c hay IH]; rewrite includes_unfold; intros H.
    + destruct (startsWith needle "") eqn:E; [|discriminate].
      destruct (startsWith_split _ _ E) as [rest ->]. now exists "", rest.
    + destruct (startsWith needle (String c hay)) eqn:E.
      * destruct (startsWith_split _ _ E) as [rest ->]. now exists "", rest.
      * destruct (IH H) as (pre & post & ->). now exists (String c pre), post.
  - intros (pre & post & ->). induction pre as [|c pre IH]; cbn [String.append].
    + rewrite includes_unfold, startsWith_append. reflexivity.
    + rewrite includes_unfold.
      destruct (startsWith needle _); [reflexivity | exact IH].
Qed.

Lemma occurs_in_append (needle a b c : string) :
  occurs_in needle b -> occurs_in needle (a +:+ b +:+ c).
Proof.
  intros (pre & post & ->). exists (a +:+ pre), (post +:+ c).
  now rewrite !append_assoc.
Qed.

Lemma occurs_in_refl (s : string) : occurs_in s s.
Proof. exists "", "". simpl. now rewrite append_nil_r. Qed.

Lemma occurs_in_join (sep k : string) (ks : list string) :
  In k ks -> occurs_in k (join sep ks).
Proof.
  unfold join. induction ks as [|x ks IH]; intros H; [destruct H|].
  destruct ks as [|y ks].
  - destruct H as [->|[]]. apply occurs_in_refl.
  - change (String.concat sep (x :: y :: ks))
      with (x +:+ sep +:+ String.concat sep (y :: ks)).
    destruct H as [->|H].
    + exists "", (sep +:+ String.concat sep (y :: ks)). reflexivity.
    + destruct (IH H) as (pre & post & E). rewrite E.
      exists (x +:+ sep +:+ pre), post. now rewrite !append_assoc.
Qed.

End StringFacts.

Section ObjectFacts.

Lemma getOwn_setOwn_eq (o : Registry) (k v : string) :
  getOwn (setOwn o k v) k = Some v.
Proof.
  induction o as [|[k' v'] o IH]; simpl.
  - now rewrite String.eqb_refl.
  - destruct (k' =? k)%string eqn:E; simpl.
    + now rewrite String.eqb_refl.
    + now rewrite E.
Qed.

Lemma getOwn_setOwn_ne (o : Registry) (k k' v : string) :
  k <> k' -> getOwn (setOwn o k v) k' = getOwn o k'.
Proof.
  intros N. induction o as [|[k0 v0] o IH]; simpl.
  - now apply String.eqb_neq in N as ->.
  - destruct (k0 =? k)%string eqn:E; simpl.
    + apply String.eqb_eq in E as ->.
      now apply String.eqb_neq in N as ->.
    + now rewrite IH.
Qed.

Lemma getOwn_Delete_eq (o : Registry) (k : string) : getOwn (Delete o k) k = None.
Proof.
  induction o as [|[k' v'] o IH]; simpl; [reflexivity|].
  destruct (k' =? k)%string eqn:E; simpl; [exact IH | now rewrite E].
Qed.

Lemma getOwn_Delete_ne (o : Registry) (k k' : string) :
  k <> k' -> getOwn (Delete o k) k' = getOwn o k'.
Proof.
  intros N. induction o as [|[k0 v0] o IH]; simpl; [reflexivity|].
  destruct (k0 =? k)%string eqn:E; simpl.
  - apply String.eqb_eq in E as ->.
    now apply String.eqb_neq in N as ->.
  - now rewrite IH.
Qed.

Lemma getOwn_Some_In (o : Registry) (k v : string) :
  getOwn o k = Some v -> In (k, v) o.
Proof.
  induction o as [|[k' v'] o IH]; simpl; [discriminate|].
  destruct (k' =? k)%string eqn:E; intros H.
  - apply String.eqb_eq in E as ->. injection H as ->. now left.
  - right. now apply IH.
Qed.

Lemma getOwn_None_notin (o : Registry) (k : string) :
  getOwn o k = None <-> ~ In k (map fst o).
Proof.
  induction o as [|[k' v'] o IH]; simpl; [tauto|].
  destruct (k' =? k)%string eqn:E.
  - apply String.eqb_eq in E as ->. split; [discriminate | tauto].
  - apply String.eqb_neq in E. rewrite IH. tauto.
Qed.

Lemma Delete_absent (o : Registry) (k : string) :
  getOwn o k = None -> Delete o k = o.
Proof.
  induction o as [|[k' v'] o IH]; simpl; [reflexivity|].
  destruct (k' =? k)%string eqn:E; [discriminate|].
  intros H. simpl. now rewrite IH.
Qed.

Lemma In_insert_index (x y : N * string) (l : list (N * string)) :
  In x (insert_index y l) <-> x = y \/ In x l.
Proof.
  induction l as [|z l IH]; simpl.
  - intuition congruence.
  - destruct (fst y <=? fst z)%N; simpl; [|rewrite IH]; intuition congruence.
Qed.

Lemma In_sorted_indices (x : N * string) (l : list (N * string)) :
  In x (fold_right insert_index [] l) <-> In x l.
Proof.
  induction l as [|y l IH]; simpl; [tauto|].
  rewrite In_insert_index, IH. intuition congruence.
Qed.

(** [Object.keys] lists exactly the own keys. *)
Lemma Object_keys_In (o : Registry) (k : string) :
  In k (Object_keys o) <-> In k (map fst o).
Proof.
  unfold Object_keys. rewrite in_app_iff, filter_In, in_map_iff. split.
  - intros [((n & k') & E & H) | [H _]]; [|exact H]. simpl in E. subst k'.
    rewrite In_sorted_indices in H. unfold index_keys in H.
    apply in_flat_map in H as (k0 & H0 & H1).
    destruct (array_index k0); [|destruct H1].
    destruct H1 as [H1|[]]. now injection H1 as _ <-.
  - intros H. unfold is_name_key. destruct (array_index k) as [n|] eqn:E.
    + left. exists (n, k). split; [reflexivity|].
      rewrite In_sorted_indices. unfold index_keys. apply in_flat_map.
      exists k. split; [exact H|]. rewrite E. now left.
    + right. now split.
Qed.

Lemma Object_keys_nil : Object_keys [] = [].
Proof. reflexivity. Qed.

End ObjectFacts.

(* ================================================================== *)
(** * Path resolution: [getProjectPath] *)
(* ================================================================== *)

Section Resolve.

Variable projects : Registry.
Variable projectName : string.

(** A name that is neither an own key nor a member of
    [Object.prototype] is rejected with the enumerating message. *)
Lemma getProjectPath_unknown :
  getOwn projects projectName = None -> inherited projectName = false ->
  getProjectPath projects projectName
  = Thrown (new_Error (unknownProjectMessage projects projectName)).
Proof.
  intros H1 H2. unfold getProjectPath, Get. now rewrite H1, H2.
Qed.

Lemma unknownProjectMessage_prefix :
  exists rest,
    unknownProjectMessage projects projectName
    = "Unknown project: " +:+ projectName +:+ rest.
Proof. unfold unknownProjectMessage. eexists. reflexivity. Qed.

(** Every registered name occurs in the message. *)
Lemma unknownProjectMessage_enumerates (k : string) :
  In k (map fst projects) ->
  occurs_in k (unknownProjectMessage projects projectName).
Proof.
  intros H. apply Object_keys_In in H. unfold unknownProjectMessage.
  destruct (Object_keys projects) as [|k0 ks] eqn:E; [destruct H|].
  cbn [length Nat.ltb Nat.leb].
  destruct (occurs_in_join ", " k (k0 :: ks) H) as (pre & post & E').
  rewrite E'.
  exists ("Unknown project: " +:+ projectName +:+ ". Available projects: " +:+ pre), post.
  now rewrite !append_assoc.
Qed.

(** A stored path is returned when it is not the empty string. *)
Lemma getProjectPath_own (p : string) :
  getOwn projects projectName = Some p -> p <> "" ->
  getProjectPath projects projectName = Ok (Str p).
Proof.
  intros H N. unfold getProjectPath, Get. rewrite H. simpl.
  destruct p; [now elim N | reflexivity].
Qed.

(** A member of [Object.prototype] that is not an own key is handed out
    as if it were a project root. *)
Lemma getProjectPath_inherited :
  getOwn projects projectName = None -> inherited projectName = true ->
  getProjectPath projects projectName = Ok (Builtin projectName).
Proof.
  intros H1 H2. unfold getProjectPath, Get. now rewrite H1, H2.
Qed.

End Resolve.

Lemma unknownProjectMessage_empty (projectName : string) :
  unknownProjectMessage [] projectName
  = "Unknown project: " +:+ projectName
    +:+ ". Available projects: none (use addProject tool first)".
Proof. reflexivity. Qed.

Example listFiles_missing :
  forall w : world,
    run w (listFiles_tool "missing" None [("app", "/repo/app")])
    = ([], ([("app", "/repo/app")],
            Thrown (new_Error "Unknown project: missing. Available projects: app"))).
Proof. reflexivity. Qed.

(** C1 (getProjectPath, projectLoader.js 83-92).  The claim: resolving a name
    that is not registered always fails with the enumerating
    "Unknown project" error.  On the registry holding only [app], the name
    [toString] is not registered, yet [getProjectPath] does not fail: the
    lookup [projects[projectName]] finds [Object.prototype.toString], which
    is truthy, and returns it as the project root. *)
Theorem C1_unregistered_name_resolves_to_prototype_member :
  getOwn [("app", "/repo/app")] "toString" = None /\
  ~ In "toString" (Object_keys [("app", "/repo/app")]) /\
  getProjectPath [("app", "/repo/app")] "toString" = Ok (Builtin "toString").
Proof.
  repeat split. intros H. apply Object_keys_In in H. simpl in H. intuition discriminate.
Qed.

(* ================================================================== *)
(** * Removing: [removeProject] *)
(* ================================================================== *)

Section Remove.

Variable projects : Registry.
Variable name : string.

(** A name that is neither an own key nor a member of
    [Object.prototype] is refused and nothing changes. *)
Lemma removeProject_unknown :
  getOwn projects name = None -> inherited name = false ->
  removeProject projects name = (projects, Thrown (new_Error (notFoundMessage name))).
Proof.
  intros H1 H2. unfold removeProject, Get. now rewrite H1, H2.
Qed.

(** A registered name is deleted, whatever else the registry holds. *)
Lemma removeProject_registered (p : string) :
  getOwn projects name = Some p -> p <> "" ->
  removeProject projects name = (Delete projects name, Ok tt)
  /\ getOwn (Delete projects name) name = None
  /\ forall other, name <> other ->
       getOwn (Delete projects name) other = getOwn projects other.
Proof.
  intros H N. unfold removeProject, Get. rewrite H. simpl.
  destruct p; [now elim N|]. simpl. repeat split.
  - apply getOwn_Delete_eq.
  - intros other. apply getOwn_Delete_ne.
Qed.

(** After the removal the name is unknown again, unless
    [Object.prototype] has a member of that name. *)
Lemma resolve_after_remove (p : string) :
  getOwn projects name = Some p -> p <> "" -> inherited name = false ->
  getProjectPath (fst (removeProject projects name)) name
  = Thrown (new_Error (unknownProjectMessage (Delete projects name) name)).
Proof.
  intros H N I. destruct (removeProject_registered p H N) as (-> & D & _).
  simpl. now apply getProjectPath_unknown.
Qed.

End Remove.

(** C4 (removeProject, projectLoader.js 68-74).  The claim: removing an
    absent name always fails and removing a present name makes it
    unresolvable.  Neither holds for a member name of [Object.prototype]:
    [toString] is absent from the registry holding only [app], yet
    [removeProject] completes normally (the guard [!projects[name]] sees the
    inherited function); and once a project registered as [toString] has
    been removed, [getProjectPath] still returns a value for that name. *)
Theorem C4_remove_of_prototype_member_name :
  getOwn [("app", "/repo/app")] "toString" = None
  /\ removeProject [("app", "/repo/app")] "toString" = ([("app", "/repo/app")], Ok tt)
  /\ removeProject [("toString", "/repo/t")] "toString" = ([], Ok tt)
  /\ getProjectPath (fst (removeProject [("toString", "/repo/t")] "toString")) "toString"
     = Ok (Builtin "toString").
Proof. repeat split. Qed.

(* ================================================================== *)
(** * Adding: [addProject] *)
(* ================================================================== *)

Lemma resolve_loop_absolute (cwd : string) (paths : list string) (acc : string) :
  isAbsolute cwd = true -> snd (resolve_loop (paths ++ [cwd]) acc) = true.
Proof.
  intros A. revert acc. induction paths as [|p paths IH]; intros acc; simpl.
  - destruct cwd as [|c cwd]; [discriminate|]. simpl. now rewrite A.
  - destruct (truthy_string p); [|apply IH].
    destruct (isAbsolute p); [reflexivity | apply IH].
Qed.

(** [path.resolve] never returns the empty string. *)
Lemma path_resolve_truthy (cwd : string) (args : list string) :
  truthy_string (path_resolve cwd args) = true.
Proof.
  unfold path_resolve. destruct (resolve_loop _ _) as [rp [|]]; [reflexivity|].
  destruct (truthy_string (normalizeString rp (negb false))) eqn:E; [exact E | reflexivity].
Qed.

Lemma path_resolve_nonempty (cwd : string) (args : list string) :
  path_resolve cwd args <> "".
Proof.
  intros E. pose proof (path_resolve_truthy cwd args) as T. now rewrite E in T.
Qed.

(** In a process with an absolute working directory the result is absolute. *)
Lemma path_resolve_absolute (cwd : string) (args : list string) :
  isAbsolute cwd = true -> isAbsolute (path_resolve cwd args) = true.
Proof.
  intros A. unfold path_resolve.
  pose proof (resolve_loop_absolute cwd (rev args) "" A) as S.
  destruct (resolve_loop _ _) as [rp abs]. simpl in S. subst abs.
  apply (startsWith_append "/").
Qed.

Lemma Get_Put_eq (o : Registry) (k v : string) :
  k <> "__proto__" -> Get (Put o k v) k = Str v.
Proof.
  intros N. unfold Get, Put. apply String.eqb_neq in N. rewrite N.
  destruct (getOwn o k); now rewrite getOwn_setOwn_eq.
Qed.

Lemma getOwn_Put_eq (o : Registry) (k v : string) :
  k <> "__proto__" -> getOwn (Put o k v) k = Some v.
Proof.
  intros N. unfold Put. apply String.eqb_neq in N. rewrite N.
  destruct (getOwn o k); now rewrite getOwn_setOwn_eq.
Qed.

Lemma getOwn_Put_ne (o : Registry) (k k' v : string) :
  k <> k' -> getOwn (Put o k v) k' = getOwn o k'.
Proof.
  intros N. unfold Put.
  destruct (getOwn o k); [now apply getOwn_setOwn_ne|].
  destruct (k =? "__proto__")%string; [reflexivity | now apply getOwn_setOwn_ne].
Qed.

(** Without an own [__proto__] the assignment [o.__proto__ = v] is lost. *)
Lemma Put_proto (o : Registry) (v : string) :
  getOwn o "__proto__" = None -> Put o "__proto__" v = o.
Proof. intros H. unfold Put. now rewrite H. Qed.

Section Add.

Variable w : world.
Variable cwd : string.
Variable projects : Registry.
Variables name projectPath : string.

(** What [addProject] does for each answer of [fs.stat]. *)
Lemma addProject_run :
  run w (addProject cwd name projectPath projects)
  = ([Called (fs_stat projectPath)],
     match w _ (fs_stat projectPath) with
     | Ok stats =>
         if isDirectory stats
         then (Put projects name (path_resolve cwd [projectPath]), Ok tt)
         else (projects, Thrown (new_Error ("Path is not a directory: " +:+ projectPath)))
     | Thrown e => (projects, Thrown e)
     end).
Proof.
  unfold addProject, bind, await. cbn.
  destruct (w Stats (fs_stat projectPath)) as [[[|]]|e]; reflexivity.
Qed.

Hypothesis directory : w _ (fs_stat projectPath) = Ok {| isDirectory := true |}.

(** insert then resolve, for every name but [__proto__] *)
Lemma addProject_then_resolve :
  name <> "__proto__" ->
  let '(projects', r) := outcome w (addProject cwd name projectPath projects) in
  r = Ok tt
  /\ getProjectPath projects' name = Ok (Str (path_resolve cwd [projectPath])).
Proof.
  intros N. unfold outcome. rewrite addProject_run, directory. cbn. split; [reflexivity|].
  apply getProjectPath_own; [now apply getOwn_Put_eq | apply path_resolve_nonempty].
Qed.

(** The other names are left as they were. *)
Lemma addProject_frame (other : string) :
  name <> other ->
  getOwn (fst (outcome w (addProject cwd name projectPath projects))) other
  = getOwn projects other.
Proof.
  intros N. unfold outcome. rewrite addProject_run, directory. cbn.
  now apply getOwn_Put_ne.
Qed.

End Add.

(** Inserting twice under a name other than [__proto__]: no error, and the
    second path is the one that resolves. *)
Lemma addProject_twice (w : world) (cwd : string) (projects : Registry)
      (name p1 p2 : string) :
  w _ (fs_stat p1) = Ok {| isDirectory := true |} ->
  w _ (fs_stat p2) = Ok {| isDirectory := true |} ->
  name <> "__proto__" ->
  let '(projects1, r1) := outcome w (addProject cwd name p1 projects) in
  let '(projects2, r2) := outcome w (addProject cwd name p2 projects1) in
  r1 = Ok tt /\ r2 = Ok tt
  /\ getProjectPath projects2 name = Ok (Str (path_resolve cwd [p2])).
Proof.
  intros D1 D2 N. unfold outcome. rewrite addProject_run, D1. cbn [isDirectory snd].
  rewrite addProject_run, D2. cbn [isDirectory snd]. repeat split.
  apply getProjectPath_own; [now apply getOwn_Put_eq | apply path_resolve_nonempty].
Qed.

(** C3 (addProject then getProjectPath, projectLoader.js 54-61, 83-92).
    The claim: for every name, inserting an existing directory and then
    resolving the name returns the absolute form of the path.  For the name
    [__proto__] the insertion completes without error but stores nothing
    (the assignment [projects[name] = ...] reaches the setter of
    [Object.prototype.__proto__], which ignores a string), and the
    resolution returns [Object.prototype] instead of the path. *)
Theorem C3_insert_under_proto_is_lost :
  let w := scenario_world {| sc_files := []; sc_dirs := ["/repo/lib"];
                             sc_json := []; sc_log := []; sc_raw := "" |} in
  w _ (fs_stat "/repo/lib") = Ok {| isDirectory := true |}
  /\ outcome w (addProject "/repo/app" "__proto__" "/repo/lib" [("app", "/repo/app")])
     = ([("app", "/repo/app")], Ok tt)
  /\ getProjectPath [("app", "/repo/app")] "__proto__" = Ok (Builtin "__proto__")
  /\ path_resolve "/repo/app" ["/repo/lib"] = "/repo/lib".
Proof. repeat split. Qed.

(** C8 (addProject, projectLoader.js 54-61; loadProjects 29-36).  The claim:
    for every name, inserting it twice with two valid directories leaves the
    second path resolvable, and likewise for two configuration entries of
    one name.  Under the name [__proto__] both insertions complete without
    error, none is stored, and the name resolves to [Object.prototype], not
    to the second path; two configuration entries of that name are both
    reported as linked and neither is stored. *)
Theorem C8_second_insert_under_proto_is_lost :
  let w := scenario_world {| sc_files := []; sc_dirs := ["/repo/one"; "/repo/two"];
                             sc_json := []; sc_log := []; sc_raw := "" |} in
  let '(projects1, r1) := outcome w (addProject "/repo/app" "__proto__" "/repo/one" []) in
  let '(projects2, r2) := outcome w (addProject "/repo/app" "__proto__" "/repo/two" projects1) in
  let text := "{ projects: [ { name: __proto__, path: /repo/one }, { name: __proto__, path: /repo/two } ] }" in
  let config :=
    JObj [("projects",
           JArr [JObj [("name", JStr "__proto__"); ("path", JStr "/repo/one")];
                 JObj [("name", JStr "__proto__"); ("path", JStr "/repo/two")]])] in
  let w' := scenario_world
              {| sc_files := [("/repo/app/.workspace-bridge.json", text)];
                 sc_dirs := ["/repo/app"]; sc_json := [(text, config)];
                 sc_log := []; sc_raw := "" |} in
  r1 = Ok tt /\ r2 = Ok tt /\ projects2 = []
  /\ getProjectPath projects2 "__proto__" = Ok (Builtin "__proto__")
  /\ getProjectPath projects2 "__proto__" <> Ok (Str (path_resolve "/repo/app" ["/repo/two"]))
  /\ run w' (loadProjects "/repo/app" "/repo/app")
     = ([Called (fs_readFile "/repo/app/.workspace-bridge.json"); Called (JSON_parse text);
         Printed (Linked "__proto__" "/repo/one"); Printed (Linked "__proto__" "/repo/two")],
        ([("app", "/repo/app")], Ok "app")).
Proof. cbn. repeat split. discriminate. Qed.

(* ================================================================== *)
(** * Running programs *)
(* ================================================================== *)

Section RunFacts.

Variable w : world.

Lemma run_io_bind {A B : Type} (p : io A) (f : A -> io B) :
  run w (io_bind p f)
  = (trace w p ++ trace w (f (outcome w p)), outcome w (f (outcome w p))).
Proof.
  unfold trace, outcome. induction p as [a|X c k IH|l k IH]; simpl.
  - now destruct (run w (f a)).
  - rewrite IH. now destruct (run w (k (w X c))).
  - rewrite IH. now destruct (run w k).
Qed.

Lemma run_bind {A B : Type} (m : M A) (f : A -> M B) (projects : Registry) :
  run w (bind m f projects)
  = match outcome w (m projects) with
    | (projects', Ok a) =>
        (trace w (m projects) ++ trace w (f a projects'), outcome w (f a projects'))
    | (projects', Thrown e) => (trace w (m projects), (projects', Thrown e))
    end.
Proof.
  unfold bind. rewrite run_io_bind.
  destruct (outcome w (m projects)) as [projects' [a|e]]; [reflexivity|].
  unfold trace, outcome. simpl. now rewrite app_nil_r.
Qed.

Lemma run_try_catch {A : Type} (m : M A) (h : exn -> M A) (projects : Registry) :
  run w (try_catch m h projects)
  = match outcome w (m projects) with
    | (projects', Ok a) => (trace w (m projects), (projects', Ok a))
    | (projects', Thrown e) =>
        (trace w (m projects) ++ trace w (h e projects'), outcome w (h e projects'))
    end.
Proof.
  unfold try_catch. rewrite run_io_bind.
  destruct (outcome w (m projects)) as [projects' [a|e]]; [|reflexivity].
  unfold trace, outcome. simpl. now rewrite app_nil_r.
Qed.

Lemma run_eta {A : Type} (p : io A) : run w p = (trace w p, outcome w p).
Proof. unfold trace, outcome. now destruct (run w p). Qed.

(** A thrown error passes through [rethrow] with the prefix in front of
    its message, and the trace is that of the body. *)
Lemma run_rethrow {A : Type} (prefix : string) (m : M A) (projects : Registry) :
  run w (rethrow prefix m projects)
  = match outcome w (m projects) with
    | (projects', Ok a) => (trace w (m projects), (projects', Ok a))
    | (projects', Thrown e) =>
        (trace w (m projects),
         (projects', Thrown (new_Error (prefix +:+ err_message e))))
    end.
Proof.
  unfold rethrow. rewrite run_try_catch.
  destruct (outcome w (m projects)) as [projects' [a|e]]; [reflexivity|].
  unfold trace, outcome, throw. simpl. now rewrite app_nil_r.
Qed.

Lemma run_bind_Ok {A B : Type} (m : M A) (f : A -> M B) (projects projects' : Registry)
      (a : A) (t t' : list event) (o : Registry * result B) :
  run w (m projects) = (t, (projects', Ok a)) ->
  run w (f a projects') = (t', o) ->
  run w (bind m f projects) = (t ++ t', o).
Proof.
  intros E1 E2. rewrite run_bind. unfold outcome, trace. rewrite E1. cbn [fst snd].
  now rewrite E2.
Qed.

Lemma run_bind_Thrown {A B : Type} (m : M A) (f : A -> M B) (projects projects' : Registry)
      (e : exn) (t : list event) :
  run w (m projects) = (t, (projects', Thrown e)) ->
  run w (bind m f projects) = (t, (projects', Thrown e)).
Proof.
  intros E1. rewrite run_bind. unfold outcome, trace. now rewrite E1.
Qed.

Lemma run_bind_let {A B : Type} (m : M A) (f : A -> M B) (projects : Registry) :
  run w (bind m f projects)
  = let '(t, (projects', r)) := run w (m projects) in
    match r with
    | Ok a => let '(t', o) := run w (f a projects') in (t ++ t', o)
    | Thrown e => (t, (projects', Thrown e))
    end.
Proof.
  rewrite run_bind. unfold outcome, trace.
  destruct (run w (m projects)) as [t [projects' [a|e]]]; cbn [fst snd]; [|reflexivity].
  now destruct (run w (f a projects')).
Qed.

Lemma run_rethrow_Ok {A : Type} (prefix : string) (m : M A) (projects projects' : Registry)
      (a : A) (t : list event) :
  run w (m projects) = (t, (projects', Ok a)) ->
  run w (rethrow prefix m projects) = (t, (projects', Ok a)).
Proof.
  intros E. rewrite run_rethrow. unfold outcome, trace. now rewrite E.
Qed.

Lemma run_rethrow_Thrown {A : Type} (prefix : string) (m : M A)
      (projects projects' : Registry) (e : exn) (t : list event) :
  run w (m projects) = (t, (projects', Thrown e)) ->
  run w (rethrow prefix m projects)
  = (t, (projects', Thrown (new_Error (prefix +:+ err_message e)))).
Proof.
  intros E. rewrite run_rethrow. unfold outcome, trace. now rewrite E.
Qed.

Lemma run_await {X : Type} (c : collab X) (projects : Registry) :
  run w (await c projects) = ([Called c], (projects, w _ c)).
Proof. reflexivity. Qed.

Lemma trace_Await {A X : Type} (c : collab X) (k : result X -> io A) :
  trace w (Await c k) = Called c :: trace w (k (w _ c)).
Proof. unfold trace. cbn. now destruct (run w (k (w X c))). Qed.

Lemma trace_rethrow {A : Type} (prefix : string) (m : M A) (projects : Registry) :
  trace w (rethrow prefix m projects) = trace w (m projects).
Proof.
  unfold trace at 1. rewrite run_rethrow.
  now destruct (outcome w (m projects)) as [projects' [a|e]].
Qed.

Lemma trace_bind {A B : Type} (m : M A) (f : A -> M B) (projects : Registry) :
  exists rest, trace w (bind m f projects) = trace w (m projects) ++ rest.
Proof.
  unfold trace at 1. rewrite run_bind.
  destruct (outcome w (m projects)) as [projects' [a|e]]; cbn [fst].
  - eexists. reflexivity.
  - exists []. now rewrite app_nil_r.
Qed.

End RunFacts.

(* ================================================================== *)
(** * Loading: [loadProjects] *)
(* ================================================================== *)

Section Load.

Variable w : world.
Variables cwd currentProjectPath : string.

Local Abbreviation base := (path_basename currentProjectPath).
Local Abbreviation step := (link_project cwd currentProjectPath).

(** What the loop body does with an entry: it throws, or it binds a key
    and prints the link, or it passes. *)
Lemma link_project_run (entry : json) (projects : Registry) :
  run w (step entry projects)
  = match entry_error entry with
    | Some e => ([], (projects, Thrown e))
    | None =>
        match entry_binding cwd currentProjectPath entry with
        | Some (k, p) => ([Printed (Linked k p)], (Put projects k p, Ok tt))
        | None => ([], (projects, Ok tt))
        end
    end.
Proof.
  unfold link_project, entry_error, entry_binding, bind, lift, ret.
  destruct entry as [| b | repr | s | items | fields]; cbn [get_field io_bind run];
    try reflexivity.
  destruct (truthy_json (assoc "name" fields)); cbn [io_bind run andb]; [|reflexivity].
  destruct (truthy_json (assoc "path" fields)); cbn [io_bind run]; [|reflexivity].
  unfold path_resolve_json.
  destruct (validateString (assoc "path" fields) "paths[1]") as [p|e];
    cbn [io_bind run]; [|reflexivity].
  destruct (key_of (assoc "name" fields)) as [k|e]; reflexivity.
Qed.

(** Linking an entry either leaves the registry alone or assigns a resolved
    path once. *)
Lemma link_project_assigns (entry : json) (projects : Registry) :
  let projects' := fst (outcome w (step entry projects)) in
  projects' = projects
  \/ exists k p, projects' = Put projects k (path_resolve cwd [currentProjectPath; p]).
Proof.
  unfold outcome. rewrite link_project_run.
  destruct (entry_error entry); cbn; auto.
  unfold entry_binding.
  destruct entry as [| b | repr | s | items | fields]; cbn; auto.
  destruct (truthy_json (assoc "name" fields) && truthy_json (assoc "path" fields));
    cbn; auto.
  destruct (validateString (assoc "path" fields) "paths[1]") as [p|e]; cbn; auto.
  destruct (key_of (assoc "name" fields)) as [k|e]; cbn; eauto.
Qed.

Lemma getOwn_Put_keeps (projects : Registry) (k v k' : string) :
  getOwn projects k' <> None -> getOwn (Put projects k v) k' <> None.
Proof.
  intros H. destruct (String.eqb_spec k k') as [->|N].
  - unfold Put. destruct (getOwn projects k') eqn:E; [|now elim H].
    rewrite getOwn_setOwn_eq. discriminate.
  - now rewrite getOwn_Put_ne.
Qed.

Lemma for_of_keeps (items : list json) (projects : Registry) (k : string) :
  getOwn projects k <> None ->
  getOwn (fst (outcome w (for_of items step projects))) k <> None.
Proof.
  revert projects. induction items as [|entry items IH]; intros projects H.
  - exact H.
  - cbn [for_of]. unfold outcome. rewrite run_bind.
    pose proof (link_project_assigns entry projects) as A. cbn zeta in A.
    destruct (outcome w (step entry projects)) as [projects' [[]|e]]; cbn [fst snd] in *.
    + apply IH. destruct A as [->|(k0 & v0 & ->)]; [exact H | now apply getOwn_Put_keeps].
    + destruct A as [->|(k0 & v0 & ->)]; [exact H | now apply getOwn_Put_keeps].
Qed.

(** An entry of the documented shape never throws: it is linked when it
    is well formed and skipped otherwise. *)
Lemma link_project_shaped (entry : json) (projects : Registry) :
  shaped entry ->
  run w (step entry projects)
  = match well_formed_entry entry with
    | Some (n, p) =>
        let resolvedPath := path_resolve cwd [currentProjectPath; p] in
        ([Printed (Linked n resolvedPath)], (Put projects n resolvedPath, Ok tt))
    | None => ([], (projects, Ok tt))
    end.
Proof.
  rewrite link_project_run. unfold entry_error, entry_binding, well_formed_entry.
  destruct entry as [| b | repr | s | items | fields]; cbn; try tauto.
  intros [Hn Hp].
  destruct (assoc "name" fields) as [[| b | repr | n | items | fields']|];
    cbn in *; try tauto;
    destruct (assoc "path" fields) as [[| b | repr | p | items | fields']|];
    cbn in *; try tauto.
  - now destruct (truthy_string n), (truthy_string p).
  - now destruct (truthy_string n).
Qed.

Lemma for_of_shaped (items : list json) (projects : Registry) :
  Forall shaped items ->
  run w (for_of items step projects)
  = (map (fun '(n, p) => Printed (Linked n p)) (links cwd currentProjectPath items),
     (put_all projects (links cwd currentProjectPath items), Ok tt)).
Proof.
  intros F. revert projects. induction F as [|entry items S F IH]; intros projects.
  - reflexivity.
  - cbn [for_of]. rewrite run_bind. unfold outcome, trace.
    rewrite (link_project_shaped entry projects S).
    unfold links, put_all in *. cbn [flat_map].
    destruct (well_formed_entry entry) as [[n p]|]; cbn [fst snd].
    + rewrite IH. reflexivity.
    + rewrite IH. reflexivity.
Qed.

(** The loop in general: the entries before the first one that throws are
    bound in order, and that entry's exception ends the loop. *)
Lemma for_of_run (items : list json) (projects : Registry) :
  run w (for_of items step projects)
  = (map (fun '(n, p) => Printed (Linked n p))
         (bindings cwd currentProjectPath (reached items)),
     (put_all projects (bindings cwd currentProjectPath (reached items)),
      match first_error items with
      | Some e => Thrown e
      | None => Ok tt
      end)).
Proof.
  revert projects. induction items as [|entry items IH]; intros projects; [reflexivity|].
  cbn [for_of reached first_error]. rewrite run_bind_let, link_project_run.
  destruct (entry_error entry) as [e|]; [reflexivity|].
  unfold bindings, put_all in *. cbn [flat_map].
  destruct (entry_binding cwd currentProjectPath entry) as [[k p]|];
    rewrite IH; reflexivity.
Qed.

Lemma getOwn_put_all (l : list (string * string)) (projects : Registry) (k : string) :
  k <> "__proto__" ->
  getOwn (put_all projects l) k
  = match last_binding k l with
    | Some v => Some v
    | None => getOwn projects k
    end.
Proof.
  intros N. unfold put_all, last_binding. induction l as [|[n p] l IH] using rev_ind.
  - reflexivity.
  - rewrite fold_left_app, rev_app_distr. cbn [fold_left rev app assoc].
    destruct (String.eqb_spec n k) as [->|D].
    + now apply getOwn_Put_eq.
    + rewrite getOwn_Put_ne by exact D. exact IH.
Qed.

End Load.

Section LoadCases.

Variable w : world.
Variables cwd currentProjectPath : string.

Local Abbreviation base := (path_basename currentProjectPath).
Local Abbreviation cfg := (configPath currentProjectPath).
Local Abbreviation start := (Put [] base currentProjectPath).

(** The registry the try block starts from. *)
Lemma start_registry :
  base <> "__proto__" -> start = [(base, currentProjectPath)].
Proof.
  intros N. unfold Put. cbn. now apply String.eqb_neq in N as ->.
Qed.

(** Whatever the try block does, [loadProjects] returns the base name. *)
Lemma loadProjects_run :
  run w (loadProjects cwd currentProjectPath)
  = match outcome w (load_config cwd currentProjectPath start) with
    | (projects, Ok _) =>
        (trace w (load_config cwd currentProjectPath start), (projects, Ok base))
    | (projects, Thrown e) =>
        (trace w (load_config cwd currentProjectPath start) ++ warning_for e,
         (projects, Ok base))
    end.
Proof.
  unfold loadProjects, loadProjects_body. rewrite run_bind.
  cbn [assign outcome trace run fst snd app]. rewrite <- run_eta.
  rewrite run_bind. unfold outcome at 1, trace at 1.
  rewrite run_try_catch.
  destruct (outcome w (load_config cwd currentProjectPath start)) as [projects [[]|e]].
  - cbn. now rewrite app_nil_r.
  - unfold warning_for. destruct (is_ENOENT e); cbn; now rewrite ?app_nil_r.
Qed.

(** [load] never fails. *)
Lemma loadProjects_total :
  exists projects, outcome w (loadProjects cwd currentProjectPath) = (projects, Ok base).
Proof.
  unfold outcome at 1. rewrite loadProjects_run.
  destruct (outcome w (load_config cwd currentProjectPath start)) as [projects [[]|e]];
    now exists projects.
Qed.

Lemma load_config_unreadable (projects : Registry) (e : exn) :
  w _ (fs_readFile cfg) = Thrown e ->
  run w (load_config cwd currentProjectPath projects)
  = ([Called (fs_readFile cfg)], (projects, Thrown e)).
Proof.
  intros H. unfold load_config. rewrite run_bind. unfold outcome, trace, await. cbn.
  fold (configPath currentProjectPath). now rewrite H.
Qed.

Lemma load_config_parsed (projects : Registry) (text : string) :
  w _ (fs_readFile cfg) = Ok text ->
  run w (load_config cwd currentProjectPath projects)
  = match w _ (JSON_parse text) with
    | Thrown e =>
        ([Called (fs_readFile cfg); Called (JSON_parse text)], (projects, Thrown e))
    | Ok JNull =>
        ([Called (fs_readFile cfg); Called (JSON_parse text)],
         (projects, Thrown (mkExn ETypeError None
                              "Cannot read properties of null (reading 'projects')")))
    | Ok (JObj fields) =>
        match assoc "projects" fields with
        | Some (JArr items) =>
            let p := for_of items (link_project cwd currentProjectPath) projects in
            (Called (fs_readFile cfg) :: Called (JSON_parse text) :: trace w p,
             outcome w p)
        | _ => ([Called (fs_readFile cfg); Called (JSON_parse text)], (projects, Ok tt))
        end
    | Ok _ => ([Called (fs_readFile cfg); Called (JSON_parse text)], (projects, Ok tt))
    end.
Proof.
  intros H. unfold load_config. rewrite run_bind. unfold outcome, trace, await. cbn.
  fold (configPath currentProjectPath). rewrite H. cbn.
  destruct (w json (JSON_parse text)) as [config|e]; cbn; [|reflexivity].
  destruct config as [| b | repr | s | items | fields]; cbn; try reflexivity.
  destruct (assoc "projects" fields) as [[| b | repr | s | items | fields']|];
    cbn; try reflexivity.
  - now destruct b.
  - now destruct (negb (repr =? "0")%string).
  - now destruct (truthy_string s).
  - now rewrite (run_eta w (for_of items _ projects)).
Qed.

End LoadCases.

Section LoadContract.

Variable w : world.
Variables cwd currentProjectPath : string.

Local Abbreviation base := (path_basename currentProjectPath).
Local Abbreviation cfg := (configPath currentProjectPath).

(** The try block never drops a key. *)
Lemma load_config_keeps (projects : Registry) (k : string) :
  getOwn projects k <> None ->
  getOwn (fst (outcome w (load_config cwd currentProjectPath projects))) k <> None.
Proof.
  intros H. unfold outcome.
  destruct (w _ (fs_readFile cfg)) as [text|e] eqn:R.
  - rewrite (load_config_parsed w cwd currentProjectPath projects text R).
    destruct (w json (JSON_parse text)) as [[| b | repr | s | items | fields]|e];
      try exact H.
    destruct (assoc "projects" fields) as [[| b | repr | s | items | fields']|];
      try exact H.
    cbn. now apply for_of_keeps.
  - now rewrite (load_config_unreadable w cwd currentProjectPath projects e R).
Qed.

(** The current project's name is registered in every case. *)
Lemma loadProjects_registers_base :
  base <> "__proto__" ->
  getOwn (fst (outcome w (loadProjects cwd currentProjectPath))) base <> None.
Proof.
  intros N. unfold outcome at 1. rewrite loadProjects_run.
  assert (K : getOwn (Put [] base currentProjectPath) base <> None)
    by (rewrite getOwn_Put_eq by exact N; discriminate).
  apply (load_config_keeps _ _) in K.
  destruct (outcome w (load_config cwd currentProjectPath
                         (Put [] base currentProjectPath))) as [projects [[]|e]];
    exact K.
Qed.

End LoadContract.

(** Only an error whose code is ENOENT is passed over in silence. *)
Lemma warning_for_silent (e : exn) :
  warning_for e = [] <-> err_code e = Some "ENOENT".
Proof.
  unfold warning_for, is_ENOENT. destruct (err_code e) as [c|]; [|split; discriminate].
  destruct (String.eqb_spec c "ENOENT") as [->|N]; split; try reflexivity; try discriminate.
  intros E. injection E as E. now elim N.
Qed.

(** Induction on a parsed value that goes into the elements of an array. *)
Lemma json_elements_ind (P : json -> Prop) :
  P JNull -> (forall b, P (JBool b)) -> (forall repr, P (JNum repr)) ->
  (forall s, P (JStr s)) ->
  (forall items, Forall P items -> P (JArr items)) ->
  (forall fields, P (JObj fields)) ->
  forall v, P v.
Proof.
  intros HNull HBool HNum HStr HArr HObj.
  exact (fix F (v : json) : P v :=
           match v with
           | JNull => HNull
           | JBool b => HBool b
           | JNum repr => HNum repr
           | JStr s => HStr s
           | JArr items =>
               HArr items
                 ((fix G (xs : list json) : Forall P xs :=
                     match xs with
                     | [] => Forall_nil P
                     | x :: xs' => @Forall_cons json P x xs' (F x) (G xs')
                     end) items)
           | JObj fields => HObj fields
           end).
Qed.

(** The conversion to a property key throws one exception only. *)
Lemma json_toString_error (v : json) (e : exn) :
  json_toString v = Thrown e -> e = cannot_convert.
Proof.
  revert e. induction v as [| [|] | repr | s | items F | fields] using json_elements_ind;
    intros e; cbn [json_toString]; try discriminate.
  - lazymatch goal with
    | |- match ?f items with Ok _ => _ | Thrown _ => _ end = _ -> _ => set (elements := f)
    end.
    destruct (elements items) as [ts|e1] eqn:T; [discriminate|].
    intros H. injection H as <-. revert e1 T.
    induction F as [|x xs Hx F IHl]; intros e'; [discriminate|].
    change (elements (x :: xs))
      with (match (match x with JNull => Ok "" | _ => json_toString x end) with
            | Ok t =>
                match elements xs with
                | Ok ts => Ok (t :: ts)
                | Thrown e0 => Thrown e0
                end
            | Thrown e0 => Thrown e0
            end).
    destruct (match x with JNull => Ok "" | _ => json_toString x end) as [t|e0] eqn:C.
    + destruct (elements xs) as [ts|e1] eqn:T; [discriminate|].
      intros H. injection H as <-. exact (IHl e1 eq_refl).
    + intros H. injection H as <-.
      destruct x; try discriminate C; exact (Hx _ C).
  - destruct (assoc "toString" fields); [|discriminate].
    intros H. now injection H as <-.
Qed.

Lemma validateString_error (value : option json) (name : string) (e : exn) :
  validateString value name = Thrown e -> is_ENOENT e = false.
Proof.
  unfold validateString.
  destruct value as [[| b | repr | s | items | fields]|]; try discriminate;
    try (intros H; injection H as <-; reflexivity).
  unfold received_object.
  destruct (assoc "constructor" fields) as [c|]; [|intros H; injection H as <-; reflexivity].
  destruct (truthy_json _); [|intros H; injection H as <-; reflexivity].
  destruct (match c with JObj cfields => assoc "name" cfields | _ => None end) as [n|];
    [|intros H; injection H as <-; reflexivity].
  destruct (json_toString n) as [t|e0] eqn:T; intros H; injection H as <-; [reflexivity|].
  now rewrite (json_toString_error n e0 T).
Qed.

(** The exception of an entry is never passed over in silence. *)
Lemma entry_error_warning (entry : json) (e : exn) :
  entry_error entry = Some e -> warning_for e = [Printed (Warning (err_message e))].
Proof.
  intros H. unfold warning_for.
  enough (E : is_ENOENT e = false) by now rewrite E.
  unfold entry_error in H.
  destruct entry as [| b | repr | s | items | fields]; try discriminate.
  - now injection H as <-.
  - destruct (truthy_json (assoc "name" fields) && truthy_json (assoc "path" fields));
      [|discriminate].
    destruct (validateString (assoc "path" fields) "paths[1]") as [p|e0] eqn:V.
    + unfold key_of in H. destruct (assoc "name" fields) as [n|]; [|discriminate].
      destruct (json_toString n) as [k|e0] eqn:K; [discriminate|].
      injection H as <-. now rewrite (json_toString_error n e0 K).
    + injection H as <-. exact (validateString_error _ _ _ V).
Qed.

Lemma first_error_warning (items : list json) (e : exn) :
  first_error items = Some e -> warning_for e = [Printed (Warning (err_message e))].
Proof.
  induction items as [|entry items IH]; [discriminate|]. cbn [first_error].
  destruct (entry_error entry) as [e0|] eqn:E; [|exact IH].
  intros H. injection H as <-. exact (entry_error_warning entry e0 E).
Qed.

Lemma reached_app (before after : list json) :
  Forall (fun entry => entry_error entry = None) before ->
  reached (before ++ after) = before ++ reached after
  /\ first_error (before ++ after) = first_error after.
Proof.
  induction 1 as [|entry before E F [IH1 IH2]]; [now split|].
  cbn [app reached first_error]. rewrite E, IH1, IH2. now split.
Qed.

Lemma bindings_app (cwd dir : string) (l1 l2 : list json) :
  bindings cwd dir (l1 ++ l2) = bindings cwd dir l1 ++ bindings cwd dir l2.
Proof. unfold bindings. apply flat_map_app. Qed.

(** A well-formed entry binds its name to its resolved path and does not
    throw. *)
Lemma well_formed_entry_binding (cwd dir : string) (entry : json) (n p : string) :
  well_formed_entry entry = Some (n, p) ->
  entry_error entry = None
  /\ entry_binding cwd dir entry = Some (n, path_resolve cwd [dir; p]).
Proof.
  unfold well_formed_entry, entry_error, entry_binding.
  destruct entry as [| b | repr | s | items | fields]; try discriminate.
  destruct (assoc "name" fields) as [[| b | repr | n' | items | fields']|]; try discriminate.
  destruct (assoc "path" fields) as [[| b | repr | p' | items | fields']|]; try discriminate.
  cbn. destruct (truthy_string n' && truthy_string p'); [|discriminate].
  intros H. injection H as -> ->. now split.
Qed.

Section LoadListed.

Variable w : world.
Variables cwd currentProjectPath text : string.
Variable fields : list (string * json).
Variable items : list json.

Local Abbreviation base := (path_basename currentProjectPath).
Local Abbreviation linked := (bindings cwd currentProjectPath (reached items)).

Hypothesis readable : w _ (fs_readFile (configPath currentProjectPath)) = Ok text.
Hypothesis parsed : w _ (JSON_parse text) = Ok (JObj fields).
Hypothesis listed : assoc "projects" fields = Some (JArr items).

(** A configuration with a [projects] list, whatever its entries: the
    current project first, then the bindings of the entries before the
    first one that throws, in file order; the links are printed, and then
    the warning for that entry's exception. *)
Lemma loadProjects_listed :
  run w (loadProjects cwd currentProjectPath)
  = (Called (fs_readFile (configPath currentProjectPath)) :: Called (JSON_parse text)
       :: map (fun '(n, p) => Printed (Linked n p)) linked
       ++ match first_error items with
          | Some e => [Printed (Warning (err_message e))]
          | None => []
          end,
     (put_all (Put [] base currentProjectPath) linked, Ok base)).
Proof.
  rewrite loadProjects_run. unfold outcome, trace.
  rewrite (load_config_parsed w cwd currentProjectPath _ text readable), parsed, listed.
  cbn zeta. unfold outcome, trace.
  rewrite (for_of_run w cwd currentProjectPath items _). cbn [fst snd].
  destruct (first_error items) as [e|] eqn:E.
  - now rewrite (first_error_warning items e E).
  - now rewrite app_nil_r.
Qed.

(** The path left under a name other than [__proto__]: that of the last
    entry the loop got through that binds the name. *)
Lemma loadProjects_last_binding_wins (k : string) :
  k <> "__proto__" ->
  getOwn (fst (outcome w (loadProjects cwd currentProjectPath))) k
  = match last_binding k linked with
    | Some p => Some p
    | None => getOwn (Put [] base currentProjectPath) k
    end.
Proof.
  intros N. unfold outcome. rewrite loadProjects_listed. cbn [fst snd].
  now apply getOwn_put_all.
Qed.

End LoadListed.

(** C5 (loadProjects, projectLoader.js 16-46), as amended.  For a directory
    whose base name is not [__proto__], [loadProjects] never fails and
    returns the base name.  When the configuration file cannot be read,
    cannot be parsed, or parses to something without a [projects] list, the
    registry is exactly the base name mapped to the directory.  When it
    parses to an object with a [projects] list, the registry is that entry
    followed by the bindings of the entries before the first one that makes
    the loop throw, assigned in file order: the links made before a throw
    stay, and the base name is mapped to the directory unless one of those
    entries binds it, and then to the path of the last one that does.  An
    error is passed over in silence exactly when its code is ENOENT; every
    other error caught, the one of a throwing entry included, is printed as
    one warning and swallowed. *)
Theorem C5_load_never_fails_and_registers_the_base_name
    (w : world) (cwd currentProjectPath : string) :
  let base := path_basename currentProjectPath in
  let cfg := configPath currentProjectPath in
  let loaded := run w (loadProjects cwd currentProjectPath) in
  base <> "__proto__" ->
  snd (snd loaded) = Ok base
  /\ (forall e, w _ (fs_readFile cfg) = Thrown e ->
        loaded = (Called (fs_readFile cfg) :: warning_for e,
                  ([(base, currentProjectPath)], Ok base)))
  /\ (forall text e,
        w _ (fs_readFile cfg) = Ok text -> w _ (JSON_parse text) = Thrown e ->
        loaded = (Called (fs_readFile cfg) :: Called (JSON_parse text) :: warning_for e,
                  ([(base, currentProjectPath)], Ok base)))
  /\ (forall text config,
        w _ (fs_readFile cfg) = Ok text -> w _ (JSON_parse text) = Ok config ->
        no_projects_list config ->
        snd loaded = ([(base, currentProjectPath)], Ok base)
        /\ filter is_warning (fst loaded)
           = match config with
             | JNull => [Printed (Warning
                           "Cannot read properties of null (reading 'projects')")]
             | _ => []
             end)
  /\ (forall text fields items,
        w _ (fs_readFile cfg) = Ok text -> w _ (JSON_parse text) = Ok (JObj fields) ->
        assoc "projects" fields = Some (JArr items) ->
        let linked := bindings cwd currentProjectPath (reached items) in
        loaded
        = (Called (fs_readFile cfg) :: Called (JSON_parse text)
             :: map (fun '(n, p) => Printed (Linked n p)) linked
             ++ match first_error items with
                | Some e => [Printed (Warning (err_message e))]
                | None => []
                end,
           (put_all [(base, currentProjectPath)] linked, Ok base))
        /\ getOwn (fst (snd loaded)) base
           = Some (match last_binding base linked with
                   | Some p => p
                   | None => currentProjectPath
                   end))
  /\ (forall e, warning_for e = [] <-> err_code e = Some "ENOENT").
Proof.
  intros base cfg loaded N.
  pose proof (start_registry currentProjectPath N) as S.
  split; [|split; [|split; [|split; [|split]]]].
  - destruct (loadProjects_total w cwd currentProjectPath) as [projects E].
    unfold loaded. unfold outcome in E. now rewrite E.
  - intros e R. unfold loaded. rewrite loadProjects_run. unfold outcome, trace.
    rewrite (load_config_unreadable w cwd currentProjectPath _ e R). cbn [fst snd app].
    now rewrite S.
  - intros text e R P. unfold loaded. rewrite loadProjects_run. unfold outcome, trace.
    rewrite (load_config_parsed w cwd currentProjectPath _ text R), P. cbn [fst snd app].
    now rewrite S.
  - intros text config R P NL. unfold loaded. rewrite loadProjects_run.
    unfold outcome, trace.
    rewrite (load_config_parsed w cwd currentProjectPath _ text R), P.
    destruct config as [| b | repr | s | items | fields]; cbn [fst snd];
      try (rewrite S; split; reflexivity).
    cbn in NL.
    destruct (assoc "projects" fields) as [[| b | repr | s | items | fields']|];
      cbn [fst snd]; try (rewrite S; split; reflexivity).
    destruct NL.
  - intros text fields items R P L linked. split.
    + unfold loaded.
      rewrite (loadProjects_listed w cwd currentProjectPath text fields items R P L).
      now rewrite S.
    + unfold loaded.
      change (fst (snd (run w (loadProjects cwd currentProjectPath))))
        with (fst (outcome w (loadProjects cwd currentProjectPath))).
      rewrite (loadProjects_last_binding_wins w cwd currentProjectPath text fields items
                 R P L base N).
      fold linked. destruct (last_binding base linked); [reflexivity|].
      now rewrite getOwn_Put_eq.
  - apply warning_for_silent.
Qed.

Lemma C5_witness :
  let text := "{ projects: [ { name: lib, path: ../lib }, null, { name: late, path: /late } ] }" in
  let items := [JObj [("name", JStr "lib"); ("path", JStr "../lib")]; JNull;
                JObj [("name", JStr "late"); ("path", JStr "/late")]] in
  let w := scenario_world
             {| sc_files := [("/repo/app/.workspace-bridge.json", text)];
                sc_dirs := ["/repo/app"];
                sc_json := [(text, JObj [("projects", JArr items)])];
                sc_log := []; sc_raw := "" |} in
  run w (loadProjects "/repo/app" "/repo/app")
  = ([Called (fs_readFile "/repo/app/.workspace-bridge.json"); Called (JSON_parse text);
      Printed (Linked "lib" "/repo/lib");
      Printed (Warning "Cannot read properties of null (reading 'name')")],
     ([("app", "/repo/app"); ("lib", "/repo/lib")], Ok "app")).
Proof.
  intros text items w.
  assert (N : path_basename "/repo/app" <> "__proto__") by (cbn; discriminate).
  exact (proj1 (proj1 (proj2 (proj2 (proj2 (proj2
           (C5_load_never_fails_and_registers_the_base_name w "/repo/app" "/repo/app" N)))))
           text [("projects", JArr items)] items eq_refl eq_refl eq_refl)).
Defined.

(** C5 as stated fails: here the configuration file is of the wrong shape
    (its second entry is [null], which makes the loop throw and a warning
    appear), the load succeeds, and the base name [app] is mapped to the path
    of the first entry, not to the current directory.  And in a directory
    called [__proto__] without a configuration file, the registry returned
    has no entry at all. *)
Lemma C5_counterexample :
  let text := "{ projects: [ { name: app, path: /other }, null ] }" in
  let config :=
    JObj [("projects",
           JArr [JObj [("name", JStr "app"); ("path", JStr "/other")]; JNull])] in
  let w := scenario_world
             {| sc_files := [("/repo/app/.workspace-bridge.json", text)];
                sc_dirs := ["/repo/app"]; sc_json := [(text, config)];
                sc_log := []; sc_raw := "" |} in
  let w' := scenario_world
              {| sc_files := []; sc_dirs := ["/work/__proto__"]; sc_json := [];
                 sc_log := []; sc_raw := "" |} in
  run w (loadProjects "/repo/app" "/repo/app")
  = ([Called (fs_readFile "/repo/app/.workspace-bridge.json");
      Called (JSON_parse text);
      Printed (Linked "app" "/other");
      Printed (Warning "Cannot read properties of null (reading 'name')")],
     ([("app", "/other")], Ok "app"))
  /\ getOwn (fst (outcome w (loadProjects "/repo/app" "/repo/app")))
            (path_basename "/repo/app") <> Some "/repo/app"
  /\ outcome w' (loadProjects "/work/__proto__" "/work/__proto__") = ([], Ok "__proto__").
Proof. split; [reflexivity | split; [cbn; discriminate | reflexivity]]. Qed.

(** Started in a directory called [__proto__], the loader returns that name
    and a registry without any entry. *)
Example loadProjects_in_proto_directory :
  outcome (scenario_world {| sc_files := []; sc_dirs := ["/work/__proto__"];
                             sc_json := []; sc_log := []; sc_raw := "" |})
          (loadProjects "/work/__proto__" "/work/__proto__")
  = ([], Ok "__proto__").
Proof. reflexivity. Qed.

(* ================================================================== *)
(** * Configuration entries *)
(* ================================================================== *)

Lemma assoc_app {V : Type} (k : string) (l1 l2 : list (string * V)) :
  assoc k (l1 ++ l2) = match assoc k l1 with Some v => Some v | None => assoc k l2 end.
Proof.
  induction l1 as [|[k' v'] l1 IH]; simpl; [reflexivity|].
  now destruct (k' =? k)%string.
Qed.

Lemma assoc_none {V : Type} (k : string) (l : list (string * V)) :
  Forall (fun kv => fst kv <> k) l -> assoc k l = None.
Proof.
  induction 1 as [|[k' v'] l N F IH]; simpl; [reflexivity|].
  simpl in N. now apply String.eqb_neq in N as ->.
Qed.

Lemma links_app (cwd dir : string) (l1 l2 : list json) :
  links cwd dir (l1 ++ l2) = links cwd dir l1 ++ links cwd dir l2.
Proof. unfold links. apply flat_map_app. Qed.

Lemma links_other_names (cwd dir k : string) (items : list json) :
  Forall (fun entry => forall p, well_formed_entry entry <> Some (k, p)) items ->
  Forall (fun kv => fst kv <> k) (links cwd dir items).
Proof.
  induction 1 as [|entry items N F IH]; [constructor|].
  unfold links in *. cbn [flat_map].
  destruct (well_formed_entry entry) as [[n p]|]; [|exact IH].
  constructor; [|exact IH]. cbn. intros ->. now apply (N p).
Qed.

(** The binding of the last well-formed entry of a name. *)
Lemma last_binding_links (cwd dir k p : string) (before after : list json) (entry : json) :
  well_formed_entry entry = Some (k, p) ->
  Forall (fun later => forall p', well_formed_entry later <> Some (k, p')) after ->
  last_binding k (links cwd dir (before ++ entry :: after))
  = Some (path_resolve cwd [dir; p]).
Proof.
  intros W L. unfold last_binding.
  change (entry :: after) with ([entry] ++ after).
  rewrite !links_app, !rev_app_distr, !assoc_app.
  rewrite assoc_none.
  - unfold links. cbn [flat_map]. rewrite W. cbn. now rewrite String.eqb_refl.
  - apply Forall_rev. now apply links_other_names.
Qed.

Section LoadShaped.

Variable w : world.
Variables cwd currentProjectPath text : string.
Variable fields : list (string * json).
Variable items : list json.

Local Abbreviation base := (path_basename currentProjectPath).

Hypothesis readable : w _ (fs_readFile (configPath currentProjectPath)) = Ok text.
Hypothesis parsed : w _ (JSON_parse text) = Ok (JObj fields).
Hypothesis listed : assoc "projects" fields = Some (JArr items).
Hypothesis documented : Forall shaped items.

(** A configuration of the documented shape: the current project first,
    then every well-formed entry in file order; nothing is printed but the
    links. *)
Lemma loadProjects_shaped :
  run w (loadProjects cwd currentProjectPath)
  = (Called (fs_readFile (configPath currentProjectPath)) :: Called (JSON_parse text)
       :: map (fun '(n, p) => Printed (Linked n p)) (links cwd currentProjectPath items),
     (put_all (Put [] base currentProjectPath) (links cwd currentProjectPath items),
      Ok base)).
Proof.
  rewrite loadProjects_run. unfold outcome, trace.
  rewrite (load_config_parsed w cwd currentProjectPath _ text readable), parsed, listed.
  cbn zeta. unfold outcome, trace.
  rewrite (for_of_shaped w cwd currentProjectPath items _ documented).
  reflexivity.
Qed.

(** Last entry wins: a name other than [__proto__] is bound to the path
    of the last well-formed entry that carries it. *)
Lemma loadProjects_last_entry_wins (k : string) :
  k <> "__proto__" ->
  getOwn (fst (outcome w (loadProjects cwd currentProjectPath))) k
  = match last_binding k (links cwd currentProjectPath items) with
    | Some p => Some p
    | None => getOwn (Put [] base currentProjectPath) k
    end.
Proof.
  intros N. unfold outcome. rewrite loadProjects_shaped. cbn [fst snd].
  now apply getOwn_put_all.
Qed.

End LoadShaped.

Lemma assoc_Some_In {V : Type} (k : string) (l : list (string * V)) (v : V) :
  assoc k l = Some v -> In (k, v) l.
Proof.
  induction l as [|[k' v'] l IH]; simpl; [discriminate|].
  destruct (String.eqb_spec k' k) as [->|N]; intros H.
  - injection H as ->. now left.
  - right. now apply IH.
Qed.

(** Every path bound by an entry is a result of [path.resolve]. *)
Lemma bindings_resolved (cwd dir k v : string) (items : list json) :
  In (k, v) (bindings cwd dir items) -> exists p, v = path_resolve cwd [dir; p].
Proof.
  unfold bindings. intros I. apply in_flat_map in I as (entry & _ & I).
  unfold entry_binding in I.
  destruct entry as [| b | repr | s | items' | fields]; try (now destruct I).
  destruct (truthy_json (assoc "name" fields) && truthy_json (assoc "path" fields));
    [|now destruct I].
  destruct (validateString (assoc "path" fields) "paths[1]") as [p|e]; [|now destruct I].
  destruct (key_of (assoc "name" fields)) as [k'|e]; [|now destruct I].
  destruct I as [I|[]]. injection I as _ <-. now exists p.
Qed.

(** C10 (loadProjects, projectLoader.js 16-37), as amended.  Let the base
    name of the current directory not be [__proto__], and let the
    [projects] list hold an entry with a non-empty name equal to the base
    name and a non-empty path, none of the entries before it making the
    loop throw.  Then [loadProjects] leaves under the name the resolved
    path of the last entry that binds the name among the entries the loop
    gets through, which is this entry's own resolved path when no later
    one does: the name resolves to that path, hence not to the current
    directory when the two differ.  This lasts until the name is assigned
    again: adding the current directory under its name makes it resolve to
    the directory. *)
Theorem C10_entry_named_like_the_current_project_overrides_it
    (w : world) (cwd currentProjectPath text p : string)
    (fields : list (string * json)) (before after : list json) (entry : json) :
  let base := path_basename currentProjectPath in
  let resolvedPath := path_resolve cwd [currentProjectPath; p] in
  base <> "__proto__" ->
  w _ (fs_readFile (configPath currentProjectPath)) = Ok text ->
  w _ (JSON_parse text) = Ok (JObj fields) ->
  assoc "projects" fields = Some (JArr (before ++ entry :: after)) ->
  Forall (fun earlier => entry_error earlier = None) before ->
  well_formed_entry entry = Some (base, p) ->
  let projects := fst (outcome w (loadProjects cwd currentProjectPath)) in
  let final :=
    match last_binding base (bindings cwd currentProjectPath (reached after)) with
    | Some later => later
    | None => resolvedPath
    end in
  getOwn projects base = Some final
  /\ getProjectPath projects base = Ok (Str final)
  /\ (final <> currentProjectPath ->
      getProjectPath projects base <> Ok (Str currentProjectPath))
  /\ (w _ (fs_stat currentProjectPath) = Ok {| isDirectory := true |} ->
      getProjectPath
        (fst (outcome w (addProject cwd base currentProjectPath projects))) base
      = Ok (Str (path_resolve cwd [currentProjectPath]))).
Proof.
  intros base resolvedPath N R P L B W projects final.
  destruct (well_formed_entry_binding cwd currentProjectPath entry base p W) as [We Wb].
  assert (E : getOwn projects base = Some final).
  { unfold projects.
    rewrite (loadProjects_last_binding_wins w cwd currentProjectPath text fields _ R P L base N).
    destruct (reached_app before (entry :: after) B) as [-> _].
    cbn [reached]. rewrite We.
    change (entry :: reached after) with ([entry] ++ reached after).
    rewrite !bindings_app. unfold last_binding. rewrite !rev_app_distr, !assoc_app.
    unfold final, last_binding.
    destruct (assoc base (rev (bindings cwd currentProjectPath (reached after))));
      [reflexivity|].
    unfold bindings at 1. cbn [flat_map]. rewrite Wb. cbn [app rev assoc].
    now rewrite String.eqb_refl. }
  assert (F : final <> "").
  { unfold final.
    destruct (last_binding base (bindings cwd currentProjectPath (reached after)))
      as [later|] eqn:Lb; [|apply path_resolve_nonempty].
    unfold last_binding in Lb. apply assoc_Some_In, in_rev in Lb.
    destruct (bindings_resolved _ _ _ _ _ Lb) as [p' ->]. apply path_resolve_nonempty. }
  assert (G : getProjectPath projects base = Ok (Str final)).
  { apply getProjectPath_own; [exact E | exact F]. }
  repeat split; try assumption.
  - intros Diff. rewrite G. intros H. injection H as H. now elim Diff.
  - intros S.
    pose proof (addProject_then_resolve w cwd projects base currentProjectPath S N) as T.
    destruct (outcome w (addProject cwd base currentProjectPath projects)) as [projects' r].
    now destruct T.
Qed.

Lemma C10_witness :
  let text := "{ projects: [ { path: 5 }, { name: app, path: ../other }, null ] }" in
  let entry := JObj [("name", JStr "app"); ("path", JStr "../other")] in
  let items := [JObj [("path", JNum "5")]; entry; JNull] in
  let w := scenario_world
             {| sc_files := [("/repo/app/.workspace-bridge.json", text)];
                sc_dirs := ["/repo/app"];
                sc_json := [(text, JObj [("projects", JArr items)])];
                sc_log := []; sc_raw := "" |} in
  getProjectPath (fst (outcome w (loadProjects "/repo/app" "/repo/app"))) "app"
  = Ok (Str "/repo/other").
Proof.
  intros text entry items w.
  assert (N : path_basename "/repo/app" <> "__proto__") by (cbn; discriminate).
  assert (B : Forall (fun earlier => entry_error earlier = None) [JObj [("path", JNum "5")]])
    by (repeat constructor).
  exact (proj1 (proj2 (C10_entry_named_like_the_current_project_overrides_it
                         w "/repo/app" "/repo/app" text "../other"
                         [("projects", JArr items)] [JObj [("path", JNum "5")]] [JNull] entry
                         N eq_refl eq_refl eq_refl B eq_refl))).
Defined.

(** C10 as stated fails.  The entry named [app] overrides the current
    project at load time, but the current directory does not stay
    unreachable by its name for the rest of the process: adding it again
    under that name makes the name resolve to it.  And an entry named [app]
    that comes after an entry that makes the loop throw is never
    registered: the name keeps the current directory.  In a directory
    called [__proto__], an entry of that name is printed as linked and
    stored nowhere. *)
Lemma C10_counterexample :
  let text := "{ projects: [ { name: app, path: /other } ] }" in
  let entry := JObj [("name", JStr "app"); ("path", JStr "/other")] in
  let w := scenario_world
             {| sc_files := [("/repo/app/.workspace-bridge.json", text)];
                sc_dirs := ["/repo/app"];
                sc_json := [(text, JObj [("projects", JArr [entry])])];
                sc_log := []; sc_raw := "" |} in
  let loaded := fst (outcome w (loadProjects "/repo/app" "/repo/app")) in
  let later := fst (outcome w (addProject "/repo/app" "app" "/repo/app" loaded)) in
  let text' := "{ projects: [ null, { name: app, path: /other } ] }" in
  let w' := scenario_world
              {| sc_files := [("/repo/app/.workspace-bridge.json", text')];
                 sc_dirs := ["/repo/app"];
                 sc_json := [(text', JObj [("projects", JArr [JNull; entry])])];
                 sc_log := []; sc_raw := "" |} in
  let text'' := "{ projects: [ { name: __proto__, path: /other } ] }" in
  let entry'' := JObj [("name", JStr "__proto__"); ("path", JStr "/other")] in
  let w'' := scenario_world
               {| sc_files := [("/work/__proto__/.workspace-bridge.json", text'')];
                  sc_dirs := ["/work/__proto__"];
                  sc_json := [(text'', JObj [("projects", JArr [entry''])])];
                  sc_log := []; sc_raw := "" |} in
  well_formed_entry entry = Some (path_basename "/repo/app", "/other")
  /\ getProjectPath loaded "app" = Ok (Str "/other")
  /\ snd (outcome w (addProject "/repo/app" "app" "/repo/app" loaded)) = Ok tt
  /\ getProjectPath later "app" = Ok (Str "/repo/app")
  /\ getProjectPath (fst (outcome w' (loadProjects "/repo/app" "/repo/app"))) "app"
     = Ok (Str "/repo/app")
  /\ well_formed_entry entry'' = Some (path_basename "/work/__proto__", "/other")
  /\ getOwn (fst (outcome w'' (loadProjects "/work/__proto__" "/work/__proto__")))
            "__proto__" = None.
Proof. repeat split. Qed.

(* ================================================================== *)
(** * Resolution comes before every collaborator call *)
(* ================================================================== *)

Section UnknownProject.

Variable w : world.
Variable projects : Registry.

Lemma getGitInstance_unknown (projectName : string) :
  getOwn projects projectName = None -> inherited projectName = false ->
  run w (getGitInstance projectName projects)
  = ([], (projects, Thrown (new_Error (unknownProjectMessage projects projectName)))).
Proof.
  intros H1 H2. unfold getGitInstance, bind, read_registry, lift. cbn.
  now rewrite (getProjectPath_unknown projects projectName H1 H2).
Qed.

(** A tool called with a name that is neither registered nor a member of
    [Object.prototype] throws the Unknown project error, behind the
    tool's own prefix, without any call to a collaborator and without
    touching the registry. *)
Lemma unknown_project_fails_first (c : project_call) :
  getOwn projects (project_of c) = None -> inherited (project_of c) = false ->
  run w (handle c projects)
  = ([], (projects,
          Thrown (new_Error (failure_prefix c
                             +:+ unknownProjectMessage projects (project_of c))))).
Proof.
  intros H1 H2.
  pose proof (getGitInstance_unknown (project_of c) H1 H2) as G.
  pose proof (getProjectPath_unknown projects (project_of c) H1 H2) as P.
  destruct c; cbn [handle project_of failure_prefix] in *;
    try (unfold listFiles_tool, readFile_tool, bind, read_registry, lift; cbn;
         now rewrite P);
    unfold getCommitHistory_tool, searchCommits_tool, getCommitDetails_tool,
      getFileHistory_tool, gitBlame_tool, getRepositoryInfo_tool, compareBranches_tool;
    rewrite run_rethrow, run_bind; unfold outcome, trace; rewrite G; reflexivity.
Qed.

(** Once the name has resolved, the first thing a git tool does is to
    create a client with the resolved value. *)
Lemma getGitInstance_creates_client (projectName : string) (root : value) :
  getProjectPath projects projectName = Ok root ->
  exists rest,
    trace w (getGitInstance projectName projects) = Called (simpleGit root) :: rest.
Proof.
  intros H. unfold getGitInstance, bind, read_registry, lift, await.
  cbn [io_bind]. rewrite H. cbn [io_bind]. rewrite trace_Await.
  eexists. reflexivity.
Qed.

End UnknownProject.

(** C9 (getGitInstance, gitHelpers.js 17-28; the tool handlers).  The
    claim: a tool called with a name that is not registered fails with the
    Unknown project error before any collaborator is called.  With the
    name [constructor], which is not registered, [getProjectPath] returns
    [Object.prototype.constructor]: readFile then fails inside [path.join]
    with a TypeError about its argument, and every git tool goes on to
    create a simple-git client with that value and to ask it whether it is
    in a repository. *)
Theorem C9_unregistered_prototype_member_name_passes_resolution (w : world) :
  let projects := [("app", "/repo/app")] in
  getOwn projects "constructor" = None
  /\ run w (handle (ReadFile "constructor" "README.md") projects)
     = ([], (projects, Thrown (ERR_INVALID_ARG_TYPE "path" "function Object")))
  /\ (exists rest,
        trace w (handle (GetRepositoryInfo "constructor") projects)
        = Called (simpleGit (Builtin "constructor")) :: rest).
Proof.
  cbn zeta. split; [reflexivity|]. split; [reflexivity|].
  unfold handle, getRepositoryInfo_tool. rewrite trace_rethrow.
  destruct (trace_bind w (getGitInstance "constructor")
              (fun git =>
                 status <- await (git_status git) ;;
                 branches <- await (git_branch git) ;;
                 remotes <- await (git_getRemotes git) ;;
                 tags <- await (git_tags git) ;;
                 ret (RepositoryInfo "constructor" status branches remotes tags))
              [("app", "/repo/app")]) as [rest ->].
  destruct (getGitInstance_creates_client w [("app", "/repo/app")] "constructor"
              (Builtin "constructor") eq_refl) as [rest' ->].
  eexists. reflexivity.
Qed.

(* ================================================================== *)
(** * searchCommits: merging by hash *)
(* ================================================================== *)

Section MapFacts.

Variable V : Type.
Implicit Types (m : list (string * V)) (k : string) (v : V).

Lemma assoc_define_eq m k v : assoc k (define m k v) = Some v.
Proof.
  induction m as [|[k' v'] m IH]; simpl.
  - now rewrite String.eqb_refl.
  - destruct (k' =? k)%string eqn:E; simpl; [now rewrite String.eqb_refl | now rewrite E].
Qed.

Lemma assoc_define_ne m k k' v : k <> k' -> assoc k' (define m k v) = assoc k' m.
Proof.
  intros N. induction m as [|[k0 v0] m IH]; simpl.
  - now apply String.eqb_neq in N as ->.
  - destruct (k0 =? k)%string eqn:E; simpl.
    + apply String.eqb_eq in E as ->. now apply String.eqb_neq in N as ->.
    + now rewrite IH.
Qed.

Lemma assoc_define m k k' v :
  assoc k' (define m k v) = if (k =? k')%string then Some v else assoc k' m.
Proof.
  destruct (String.eqb_spec k k') as [->|N];
    [apply assoc_define_eq | now apply assoc_define_ne].
Qed.

(** A key that is present keeps its place; a new key goes to the end. *)
Lemma keys_define m k v :
  map fst (define m k v) = if mem k (map fst m) then map fst m else map fst m ++ [k].
Proof.
  unfold mem. induction m as [|[k' v'] m IH]; simpl; [reflexivity|].
  rewrite (String.eqb_sym k k').
  destruct (k' =? k)%string eqn:E; simpl.
  - apply String.eqb_eq in E as ->. reflexivity.
  - rewrite IH. now destruct (existsb (String.eqb k) (map fst m)).
Qed.

Lemma assoc_In_NoDup m k v :
  NoDup (map fst m) -> In (k, v) m -> assoc k m = Some v.
Proof.
  induction m as [|[k' v'] m IH]; simpl; intros ND H; [destruct H|].
  inversion ND as [|? ? NI ND']; subst.
  destruct H as [H|H].
  - injection H as -> ->. now rewrite String.eqb_refl.
  - destruct (String.eqb_spec k' k) as [->|N]; [|now apply IH].
    elim NI. apply in_map_iff. now exists (k, v).
Qed.

End MapFacts.

Section Distinct.

Lemma mem_In (h : string) (hs : list string) : mem h hs = true <-> In h hs.
Proof.
  unfold mem. rewrite existsb_exists. split.
  - intros (x & I & E). apply String.eqb_eq in E. now subst.
  - intros I. exists h. split; [exact I | apply String.eqb_refl].
Qed.

Lemma mem_ext (s1 s2 : list string) :
  (forall x, In x s1 <-> In x s2) -> forall h, mem h s1 = mem h s2.
Proof.
  intros E h. destruct (mem h s1) eqn:M1, (mem h s2) eqn:M2; try reflexivity.
  - apply mem_In, E, mem_In in M1. congruence.
  - apply mem_In, E, mem_In in M2. congruence.
Qed.

Lemma distinct_ext (hs s1 s2 : list string) :
  (forall x, In x s1 <-> In x s2) -> distinct s1 hs = distinct s2 hs.
Proof.
  revert s1 s2. induction hs as [|h hs IH]; intros s1 s2 E; simpl; [reflexivity|].
  rewrite (mem_ext s1 s2 E h). destruct (mem h s2); [now apply IH|].
  f_equal. apply IH. intros x. simpl. rewrite E. tauto.
Qed.



Lemma distinct_In (seen hs : list string) (h : string) :
  In h (distinct seen hs) <-> In h hs /\ ~ In h seen.
Proof.
  revert seen. induction hs as [|h' hs IH]; intros seen; simpl; [tauto|].
  destruct (mem h' seen) eqn:M.
  - rewrite IH. apply mem_In in M. intuition congruence.
  - simpl. rewrite IH. simpl.
    assert (~ In h' seen) by (intros I; apply mem_In in I; congruence).
    destruct (String.eqb_spec h' h) as [->|N]; intuition congruence.
Qed.

Lemma distinct_NoDup (seen hs : list string) : NoDup (distinct seen hs).
Proof.
  revert seen. induction hs as [|h hs IH]; intros seen; simpl; [constructor|].
  destruct (mem h seen); [apply IH|].
  constructor; [|apply IH]. rewrite distinct_In. simpl. tauto.
Qed.

End Distinct.

Section UniqueByHash.

Local Abbreviation step := (fun (m : list (string * Commit)) (c : Commit) => define m (hash c) c).

Lemma keys_fold (cs : list Commit) (m : list (string * Commit)) :
  map fst (fold_left step cs m) = map fst m ++ distinct (map fst m) (map hash cs).
Proof.
  revert m. induction cs as [|c cs IH]; intros m; simpl.
  - now rewrite app_nil_r.
  - rewrite IH. cbv beta. rewrite !keys_define.
    destruct (mem (hash c) (map fst m)); [reflexivity|].
    rewrite <- app_assoc. simpl. do 2 f_equal. apply distinct_ext.
    intros x. rewrite in_app_iff. simpl. tauto.
Qed.

Lemma find_app {A : Type} (f : A -> bool) (l1 l2 : list A) :
  find f (l1 ++ l2) = match find f l1 with Some x => Some x | None => find f l2 end.
Proof.
  induction l1 as [|x l1 IH]; simpl; [reflexivity|]. now destruct (f x).
Qed.

Lemma last_with_hash_cons (h : string) (c : Commit) (cs : list Commit) :
  last_with_hash h (c :: cs)
  = match last_with_hash h cs with
    | Some c' => Some c'
    | None => if (hash c =? h)%string then Some c else None
    end.
Proof. unfold last_with_hash. simpl. now rewrite find_app. Qed.

Lemma last_with_hash_app (h : string) (cs1 cs2 : list Commit) :
  last_with_hash h (cs1 ++ cs2)
  = match last_with_hash h cs2 with
    | Some c => Some c
    | None => last_with_hash h cs1
    end.
Proof. unfold last_with_hash. now rewrite rev_app_distr, find_app. Qed.

Lemma last_with_hash_hash (h : string) (c : Commit) (cs : list Commit) :
  last_with_hash h cs = Some c -> hash c = h /\ In c cs.
Proof.
  unfold last_with_hash. intros F. apply find_some in F as [I E].
  apply String.eqb_eq in E. split; [exact E | now apply in_rev].
Qed.

Lemma assoc_fold (cs : list Commit) (m : list (string * Commit)) (h : string) :
  assoc h (fold_left step cs m)
  = match last_with_hash h cs with
    | Some c => Some c
    | None => assoc h m
    end.
Proof.
  revert m. induction cs as [|c cs IH]; intros m; simpl; [reflexivity|].
  rewrite IH, last_with_hash_cons. rewrite assoc_define.
  destruct (last_with_hash h cs); [reflexivity|].
  now destruct (hash c =? h)%string.
Qed.

(** The hashes of the merged list: each once, in order of first occurrence. *)
Lemma uniqueByHash_hashes (cs : list Commit) :
  map hash (uniqueByHash cs) = distinct [] (map hash cs).
Proof.
  unfold uniqueByHash.
  pose proof (keys_fold cs []) as K. simpl in K. rewrite <- K, map_map.
  assert (H : forall kv, In kv (fold_left step cs []) -> hash (snd kv) = fst kv).
  { intros [k v] I. simpl.
    assert (ND : NoDup (map fst (fold_left step cs [])))
      by (rewrite keys_fold; apply distinct_NoDup).
    pose proof (assoc_In_NoDup _ _ k v ND I) as A.
    rewrite assoc_fold in A. simpl in A.
    destruct (last_with_hash k cs) as [c|] eqn:L; [|discriminate].
    injection A as <-. now apply last_with_hash_hash in L. }
  now apply map_ext_in.
Qed.

(** Every merged entry is the last one of its hash in the list merged. *)
Lemma uniqueByHash_last (cs : list Commit) :
  Forall (fun c => last_with_hash (hash c) cs = Some c) (uniqueByHash cs).
Proof.
  unfold uniqueByHash. apply Forall_forall. intros c I.
  apply in_map_iff in I as ([k v] & <- & I). simpl.
  assert (ND : NoDup (map fst (fold_left step cs [])))
    by (rewrite keys_fold; apply distinct_NoDup).
  pose proof (assoc_In_NoDup _ _ k v ND I) as A.
  rewrite assoc_fold in A. simpl in A.
  destruct (last_with_hash k cs) as [c|] eqn:L; [|discriminate].
  injection A as <-. destruct (last_with_hash_hash _ _ _ L) as [-> _]. exact L.
Qed.

End UniqueByHash.

Section GitTools.

Variable w : world.
Variable projects : Registry.
Variable project : string.
Variable root : value.

Hypothesis resolves : getProjectPath projects project = Ok root.
Hypothesis client : w _ (simpleGit root) = Ok tt.
Hypothesis repository : w _ (git_checkIsRepo root) = Ok true.

Lemma getGitInstance_ok :
  run w (getGitInstance project projects)
  = ([Called (simpleGit root); Called (git_checkIsRepo root)], (projects, Ok root)).
Proof.
  unfold getGitInstance, bind, read_registry, lift, await. cbn.
  rewrite resolves. cbn. rewrite client. cbn. rewrite repository. reflexivity.
Qed.

Variables (query : string) (maxCount : option Z) (author : option string).
Variable logAll : list RawCommit.

Local Abbreviation limit := (or_default maxCount 50%Z).

Hypothesis message_search : w _ (git_log root (searchOptions query limit author)) = Ok logAll.


Variable diffResults : string.
Hypothesis diff_search : w _ (git_raw root (diffOptions query limit author)) = Ok diffResults.

(** With [searchInDiff] the answer is the merged list, cut after the merge. *)
Lemma searchCommits_with_diff :
  let merged := uniqueByHash (map formatCommit logAll ++ parseDiffResults diffResults) in
  run w (searchCommits_tool project query (Some true) maxCount author projects)
  = ([Called (simpleGit root); Called (git_checkIsRepo root);
      Called (git_log root (searchOptions query limit author));
      Called (git_raw root (diffOptions query limit author))],
     (projects,
      Ok (SearchResult project query true (length (slice0 merged limit))
            (slice0 merged limit)))).
Proof.
  intros merged. unfold searchCommits_tool. cbn [or_default].
  apply run_rethrow_Ok.
  etransitivity.
  { eapply run_bind_Ok; [apply getGitInstance_ok|].
    eapply run_bind_Ok; [rewrite run_await, message_search; reflexivity|].
    eapply run_bind_Ok; [|reflexivity].
    eapply run_bind_Ok; [rewrite run_await, diff_search; reflexivity|].
    reflexivity. }
  reflexivity.
Qed.

End GitTools.


(** C2 (searchCommits, gitTools.js 549-585), as amended.  With
    [searchInDiff] the answer is the message-search results followed by the
    diff-search results, merged by hash and cut to [maxCount] after the
    merge.  The merged list has every hash once, in the order of first
    occurrence; on a collision the entry of the diff search replaces the one
    of the message search (at the place of the latter), and an entry of the
    message search survives only when the diff search has none of its hash. *)
Theorem C2_searchInDiff_merge_keeps_the_diff_entry
    (w : world) (projects : Registry) (project : string) (root : value)
    (query : string) (maxCount : option Z) (author : option string)
    (logAll : list RawCommit) (diffResults : string) :
  let limit := or_default maxCount 50%Z in
  let messageCommits := map formatCommit logAll in
  let diffCommits := parseDiffResults diffResults in
  let merged := uniqueByHash (messageCommits ++ diffCommits) in
  getProjectPath projects project = Ok root ->
  w _ (simpleGit root) = Ok tt ->
  w _ (git_checkIsRepo root) = Ok true ->
  w _ (git_log root (searchOptions query limit author)) = Ok logAll ->
  w _ (git_raw root (diffOptions query limit author)) = Ok diffResults ->
  outcome w (searchCommits_tool project query (Some true) maxCount author projects)
  = (projects,
     Ok (SearchResult project query true (length (slice0 merged limit))
           (slice0 merged limit)))
  /\ map hash merged = distinct [] (map hash messageCommits ++ map hash diffCommits)
  /\ Forall (fun c =>
               match last_with_hash (hash c) diffCommits with
               | Some d => c = d
               | None => last_with_hash (hash c) messageCommits = Some c
               end) merged.
Proof.
  intros limit messageCommits diffCommits merged R C G L D.
  split; [|split].
  - unfold outcome.
    now rewrite (searchCommits_with_diff w projects project root R C G query maxCount
                   author logAll L diffResults D).
  - unfold merged. now rewrite uniqueByHash_hashes, map_app.
  - unfold merged. eapply Forall_impl; [|apply uniqueByHash_last].
    intros c H. cbv beta in H. rewrite last_with_hash_app in H.
    destruct (last_with_hash (hash c) diffCommits) as [d|]; [congruence | exact H].
Qed.

Lemma C2_witness :
  let first :=
    {| raw_hash := "1f2e3d4c5b6a79881f2e3d4c5b6a79881f2e3d4c"; raw_date := "2024-03-01";
       raw_message := "fix bug"; raw_body := "details";
       raw_author_name := "Al"; raw_author_email := "al@example.org" |} in
  let w := scenario_world
             {| sc_files := []; sc_dirs := ["/repo/app"]; sc_json := [];
                sc_log := [first];
                sc_raw := "0a0b0c0d0e0f0a0b0c0d0e0f0a0b0c0d0e0f0a0b|Bo|bo@example.org|2024-02-01|add bug" |} in
  outcome w (searchCommits_tool "app" "bug" (Some true) (Some 1%Z) None [("app", "/repo/app")])
  = ([("app", "/repo/app")],
     Ok (SearchResult "app" "bug" true 1 [formatCommit first])).
Proof.
  intros first w.
  exact (proj1 (C2_searchInDiff_merge_keeps_the_diff_entry
                  w [("app", "/repo/app")] "app" (Str "/repo/app") "bug" (Some 1%Z) None
                  [first]
                  "0a0b0c0d0e0f0a0b0c0d0e0f0a0b0c0d0e0f0a0b|Bo|bo@example.org|2024-02-01|add bug"
                  eq_refl eq_refl eq_refl eq_refl eq_refl)).
Defined.

(** C2 as stated fails: the commit found by both searches is answered with
    the entry of the diff search (its body is the marker text), whereas the
    claim keeps the entry of the message search (with the commit's body). *)
Lemma C2_counterexample :
  let both :=
    {| raw_hash := "1f2e3d4c5b6a79881f2e3d4c5b6a79881f2e3d4c"; raw_date := "2024-03-01";
       raw_message := "fix bug"; raw_body := "details";
       raw_author_name := "Al"; raw_author_email := "al@example.org" |} in
  let diffResults :=
    "1f2e3d4c5b6a79881f2e3d4c5b6a79881f2e3d4c|Al|al@example.org|2024-03-01 10:00:00 +0000|fix bug" in
  let w := scenario_world
             {| sc_files := []; sc_dirs := ["/repo/app"]; sc_json := [];
                sc_log := [both]; sc_raw := diffResults |} in
  let answer :=
    commits_of (snd (outcome w (searchCommits_tool "app" "bug" (Some true) None None
                                  [("app", "/repo/app")]))) in
  answer = [ {| hash := "1f2e3d4c5b6a79881f2e3d4c5b6a79881f2e3d4c";
                author := Some "Al"; email := Some "al@example.org";
                date := Some "2024-03-01 10:00:00 +0000";
                message := "fix bug"; body := "(found in code changes)" |} ]
  /\ merge_message_first (map formatCommit [both]) (parseDiffResults diffResults) 50
     = [formatCommit both]
  /\ answer
     <> merge_message_first (map formatCommit [both]) (parseDiffResults diffResults) 50.
Proof. repeat split. discriminate. Qed.






(* ================================================================== *)
(** * gitBlame: the parser on a well-formed stream *)
(* ================================================================== *)

Section Lines.

Lemma lacks_app (c : ascii) (a b : string) :
  lacks c (a +:+ b) = lacks c a && lacks c b.
Proof.
  induction a as [|x a IH]; cbn [lacks String.append]; [reflexivity|].
  now rewrite IH, andb_assoc.
Qed.

Lemma split_sep (c : ascii) (l rest : string) :
  lacks c l = true -> split c (l +:+ String c rest) = l :: split c rest.
Proof.
  induction l as [|x l IH]; cbn [lacks split String.append]; intros H.
  - now rewrite Ascii.eqb_refl.
  - apply andb_prop in H as [N L]. apply negb_true_iff in N. rewrite N.
    now rewrite (IH L).
Qed.

Lemma split_whole (c : ascii) (l : string) : lacks c l = true -> split c l = [l].
Proof.
  induction l as [|x l IH]; cbn [lacks split]; intros H; [reflexivity|].
  apply andb_prop in H as [N L]. apply negb_true_iff in N. rewrite N.
  now rewrite (IH L).
Qed.


End Lines.

Section Decimals.

Import Decimal.








End Decimals.

Section Hex.


Lemma lacks_hex (c : ascii) (h : string) :
  is_hex_lower c = false -> hex_string h = true -> lacks c h = true.
Proof.
  intros N. induction h as [|x h IH]; cbn [lacks hex_string]; intros H; [reflexivity|].
  apply andb_prop in H as [X H]. rewrite (IH H), andb_true_r.
  apply negb_true_iff, Ascii.eqb_neq. intros ->. congruence.
Qed.

End Hex.

Section BlameSteps.

Variable data : list BlameLine.
Variable cc : BlameLine.






End BlameSteps.










Section BlameTool.

Variable w : world.
Variable projects : Registry.
Variables project rootPath file : string.
Variables startLine endLine : option Z.
Variable blameOutput : string.

Hypothesis resolves : getProjectPath projects project = Ok (Str rootPath).
Hypothesis client : w _ (simpleGit (Str rootPath)) = Ok tt.
Hypothesis repository : w _ (git_checkIsRepo (Str rootPath)) = Ok true.
Hypothesis file_exists : w _ (fs_access (path_join [rootPath; file])) = Ok tt.
Hypothesis blamed :
  w _ (git_raw (Str rootPath) (blameArgs file startLine endLine)) = Ok blameOutput.


End BlameTool.



Example gitBlame_sample_answer :
  snd (outcome sample_blame_world
         (gitBlame_tool "app" "src/a.js" (Some 2%Z) (Some 3%Z) [("app", "/repo/app")]))
  = Ok (Blame "app" "src/a.js"
          [ {| bl_hash := "1f2e3d4c5b6a79881f2e3d4c5b6a79881f2e3d4c";
               bl_lineNum := Some 2%Z; bl_author := Some "Al";
               bl_date := Some "2023-11-14T22:13:20.000Z";
               bl_summary := Some "fix bug"; bl_content := Some "let x = 1;" |};
            {| bl_hash := "1f2e3d4c5b6a79881f2e3d4c5b6a79881f2e3d4c";
               bl_lineNum := Some 3%Z; bl_author := Some "Al";
               bl_date := Some "2023-11-14T22:13:20.000Z";
               bl_summary := Some "fix bug"; bl_content := Some "return x;" |} ]).
Proof. vm_compute. reflexivity. Qed.

(** One bound alone, or a bound that is 0, asks git for the whole file. *)
Example blameArgs_without_range :
  blameArgs "src/a.js" (Some 5%Z) None = ["blame"; "--line-porcelain"; "src/a.js"]
  /\ blameArgs "src/a.js" (Some 0%Z) (Some 5%Z) = ["blame"; "--line-porcelain"; "src/a.js"]
  /\ blameArgs "src/a.js" (Some 2%Z) (Some 3%Z)
     = ["blame"; "--line-porcelain"; "-L2,3"; "src/a.js"].
Proof. repeat split. Qed.

(* ================================================================== *)
(** * The registry never holds an empty path *)
(* ================================================================== *)

Section Invariant.

Variable w : world.
Variable cwd : string.

Lemma setOwn_nonempty (o : Registry) (k v : string) :
  paths_nonempty o -> v <> "" -> paths_nonempty (setOwn o k v).
Proof.
  unfold paths_nonempty. intros F N. induction F as [|[k' v'] o H F IH]; simpl.
  - now repeat constructor.
  - destruct (k' =? k)%string; constructor; assumption.
Qed.

Lemma Put_nonempty (o : Registry) (k v : string) :
  paths_nonempty o -> v <> "" -> paths_nonempty (Put o k v).
Proof.
  intros F N. unfold Put.
  destruct (getOwn o k); [now apply setOwn_nonempty|].
  destruct (k =? "__proto__")%string; [exact F | now apply setOwn_nonempty].
Qed.

Lemma Delete_nonempty (o : Registry) (k : string) :
  paths_nonempty o -> paths_nonempty (Delete o k).
Proof.
  unfold paths_nonempty, Delete. intros F. apply Forall_forall. intros kv I.
  apply filter_In in I as [I _]. now apply (proj1 (Forall_forall _ _) F).
Qed.

Lemma registered_path_nonempty (o : Registry) (k p : string) :
  paths_nonempty o -> getOwn o k = Some p -> p <> "".
Proof.
  intros F G. apply getOwn_Some_In in G.
  exact (proj1 (Forall_forall _ _) F (k, p) G).
Qed.

Lemma removeProject_nonempty (projects : Registry) (name : string) :
  paths_nonempty projects -> paths_nonempty (fst (removeProject projects name)).
Proof.
  intros F. unfold removeProject.
  destruct (negb (truthy (Get projects name))); [exact F | now apply Delete_nonempty].
Qed.

Lemma addProject_nonempty (projects : Registry) (name projectPath : string) :
  paths_nonempty projects ->
  paths_nonempty (fst (outcome w (addProject cwd name projectPath projects))).
Proof.
  intros F. unfold outcome. rewrite addProject_run.
  destruct (w Stats (fs_stat projectPath)) as [[[|]]|e]; cbn; try exact F.
  apply Put_nonempty; [exact F | apply path_resolve_nonempty].
Qed.

Lemma for_of_nonempty (currentProjectPath : string) (items : list json)
      (projects : Registry) :
  paths_nonempty projects ->
  paths_nonempty
    (fst (outcome w (for_of items (link_project cwd currentProjectPath) projects))).
Proof.
  revert projects. induction items as [|entry items IH]; intros projects F.
  - exact F.
  - cbn [for_of]. unfold outcome. rewrite run_bind.
    pose proof (link_project_assigns w cwd currentProjectPath entry projects) as A.
    cbn zeta in A.
    destruct (outcome w (link_project cwd currentProjectPath entry projects))
      as [projects' [[]|e]]; cbn [fst snd] in *.
    + apply IH. destruct A as [->|(k & p & ->)]; [exact F|].
      apply Put_nonempty; [exact F | apply path_resolve_nonempty].
    + destruct A as [->|(k & p & ->)]; [exact F|].
      apply Put_nonempty; [exact F | apply path_resolve_nonempty].
Qed.

(** Started in a directory, the loader returns a registry of non-empty
    paths, and adding and removing keep it so. *)
Lemma loadProjects_nonempty (currentProjectPath : string) :
  currentProjectPath <> "" ->
  paths_nonempty (fst (outcome w (loadProjects cwd currentProjectPath))).
Proof.
  intros N. unfold outcome at 1. rewrite loadProjects_run.
  assert (S : paths_nonempty (Put [] (path_basename currentProjectPath) currentProjectPath))
    by (apply Put_nonempty; [constructor | exact N]).
  assert (K : paths_nonempty
                (fst (outcome w (load_config cwd currentProjectPath
                                   (Put [] (path_basename currentProjectPath)
                                      currentProjectPath))))).
  { unfold outcome.
    destruct (w _ (fs_readFile (configPath currentProjectPath))) as [text|e] eqn:R.
    - rewrite (load_config_parsed w cwd currentProjectPath _ text R).
      destruct (w json (JSON_parse text)) as [[| b | repr | s | items | fields]|e];
        try exact S.
      destruct (assoc "projects" fields) as [[| b | repr | s | items | fields']|];
        try exact S.
      cbn. now apply for_of_nonempty.
    - now rewrite (load_config_unreadable w cwd currentProjectPath _ e R). }
  destruct (outcome w (load_config cwd currentProjectPath _)) as [projects [[]|e]];
    exact K.
Qed.

(** Under the invariant: a registered name is removed without error and no
    longer has an entry. *)
Lemma removeProject_present (projects : Registry) (name p : string) :
  paths_nonempty projects -> getOwn projects name = Some p ->
  snd (removeProject projects name) = Ok tt
  /\ getOwn (fst (removeProject projects name)) name = None.
Proof.
  intros F G. pose proof (registered_path_nonempty projects name p F G) as N.
  destruct (removeProject_registered projects name p G N) as (-> & D & _).
  now split.
Qed.

End Invariant.

(** The name [missing] is no member of [Object.prototype]: whenever it is
    not registered, resolving it fails with the message of scenario 2. *)
Lemma resolve_missing (projects : Registry) :
  getOwn projects "missing" = None ->
  exists rest,
    getProjectPath projects "missing"
    = Thrown (new_Error ("Unknown project: missing" +:+ rest)).
Proof.
  intros H. rewrite (getProjectPath_unknown projects "missing" H eq_refl).
  unfold unknownProjectMessage. eexists. reflexivity.
Qed.

(* ================================================================== *)
(** * Further properties of the registry *)
(* ================================================================== *)

(** X1 (getProjectPath, projectLoader.js 83-92).  A name that is neither
    registered nor a member name of [Object.prototype] is refused with an
    error whose message starts with "Unknown project: <name>", contains
    every registered name, and says that there is none when the registry is
    empty. *)
Theorem X1_unknown_name_is_refused_with_the_list_of_names
    (projects : Registry) (projectName : string) :
  getOwn projects projectName = None ->
  inherited projectName = false ->
  exists message,
    getProjectPath projects projectName = Thrown (new_Error message)
    /\ startsWith ("Unknown project: " +:+ projectName) message = true
    /\ (forall k, In k (map fst projects) -> includes k message = true)
    /\ (projects = [] -> includes "none (use addProject tool first)" message = true).
Proof.
  intros H I. exists (unknownProjectMessage projects projectName).
  split; [now apply getProjectPath_unknown|]. split; [|split].
  - destruct (unknownProjectMessage_prefix projects projectName) as [rest ->].
    rewrite <- append_assoc. apply startsWith_append.
  - intros k K. apply includes_occurs. now apply unknownProjectMessage_enumerates.
  - intros ->. apply includes_occurs. rewrite unknownProjectMessage_empty.
    exists ("Unknown project: " +:+ projectName +:+ ". Available projects: "), "".
    now rewrite !append_assoc.
Qed.

Lemma X1_witness :
  exists message,
    getProjectPath [("app", "/repo/app"); ("lib", "/repo/lib")] "missing"
    = Thrown (new_Error message)
    /\ startsWith ("Unknown project: " +:+ "missing") message = true
    /\ (forall k, In k (map fst [("app", "/repo/app"); ("lib", "/repo/lib")]) ->
                  includes k message = true)
    /\ ([("app", "/repo/app"); ("lib", "/repo/lib")] = [] ->
        includes "none (use addProject tool first)" message = true).
Proof.
  exact (X1_unknown_name_is_refused_with_the_list_of_names
           [("app", "/repo/app"); ("lib", "/repo/lib")] "missing" eq_refl eq_refl).
Defined.

(** X2 (addProject, projectLoader.js 54-61).  When [fs.stat] reports a
    directory and the name is not [__proto__], [addProject] asks the file
    system exactly once, completes, and the name then resolves to
    [path.resolve(projectPath)]: a non-empty path, absolute in a process
    whose working directory is absolute, whether or not the name was
    registered before. *)
Theorem X2_added_project_resolves_to_its_absolute_path
    (w : world) (cwd : string) (projects : Registry) (name projectPath : string) :
  w _ (fs_stat projectPath) = Ok {| isDirectory := true |} ->
  name <> "__proto__" ->
  let added := run w (addProject cwd name projectPath projects) in
  fst added = [Called (fs_stat projectPath)]
  /\ snd (snd added) = Ok tt
  /\ getProjectPath (fst (snd added)) name = Ok (Str (path_resolve cwd [projectPath]))
  /\ path_resolve cwd [projectPath] <> ""
  /\ (isAbsolute cwd = true -> isAbsolute (path_resolve cwd [projectPath]) = true).
Proof.
  intros D N added. unfold added. rewrite addProject_run, D. cbn [fst snd isDirectory].
  repeat split.
  - apply getProjectPath_own; [now apply getOwn_Put_eq | apply path_resolve_nonempty].
  - apply path_resolve_nonempty.
  - intros A. now apply path_resolve_absolute.
Qed.

Lemma X2_witness :
  getProjectPath
    (fst (snd (run (scenario_world {| sc_files := []; sc_dirs := ["/repo/app/../lib"];
                                      sc_json := []; sc_log := []; sc_raw := "" |})
                   (addProject "/repo/app" "lib" "/repo/app/../lib" [("app", "/repo/app")]))))
    "lib"
  = Ok (Str "/repo/lib").
Proof.
  exact (proj1 (proj2 (proj2
           (X2_added_project_resolves_to_its_absolute_path
              (scenario_world {| sc_files := []; sc_dirs := ["/repo/app/../lib"];
                                 sc_json := []; sc_log := []; sc_raw := "" |})
              "/repo/app" [("app", "/repo/app")] "lib" "/repo/app/../lib" eq_refl
              ltac:(discriminate))))).
Defined.

(** X3 (addProject, projectLoader.js 54-61).  In every world [addProject]
    leaves the entries of all other names as they were; when it throws, the
    registry is the one it was given; a path that is not a directory is
    refused with "Path is not a directory: <path>", and an error of
    [fs.stat] is passed on as it is. *)
Theorem X3_addProject_fails_without_a_trace_in_the_registry
    (w : world) (cwd : string) (projects : Registry) (name projectPath : string) :
  let projects' := fst (outcome w (addProject cwd name projectPath projects)) in
  let completion := snd (outcome w (addProject cwd name projectPath projects)) in
  (forall other, name <> other -> getOwn projects' other = getOwn projects other)
  /\ (completion <> Ok tt -> projects' = projects)
  /\ (w _ (fs_stat projectPath) = Ok {| isDirectory := false |} ->
      completion = Thrown (new_Error ("Path is not a directory: " +:+ projectPath)))
  /\ (forall e, w _ (fs_stat projectPath) = Thrown e -> completion = Thrown e).
Proof.
  cbn zeta. unfold outcome. rewrite addProject_run. cbn [fst snd].
  destruct (w Stats (fs_stat projectPath)) as [[[|]]|e]; cbn [fst snd isDirectory];
    repeat split; try congruence; try discriminate.
  intros other N. now apply getOwn_Put_ne.
Qed.

Lemma X3_witness :
  snd (outcome (scenario_world {| sc_files := [("/repo/notes.txt", "text")];
                                  sc_dirs := []; sc_json := []; sc_log := [];
                                  sc_raw := "" |})
               (addProject "/repo/app" "notes" "/repo/notes.txt" [("app", "/repo/app")]))
  = Thrown (new_Error ("Path is not a directory: " +:+ "/repo/notes.txt")).
Proof.
  exact (proj1 (proj2 (proj2
           (X3_addProject_fails_without_a_trace_in_the_registry
              (scenario_world {| sc_files := [("/repo/notes.txt", "text")];
                                 sc_dirs := []; sc_json := []; sc_log := [];
                                 sc_raw := "" |})
              "/repo/app" [("app", "/repo/app")] "notes" "/repo/notes.txt"))) eq_refl).
Defined.

Lemma keys_Delete (o : Registry) (k : string) :
  map fst (Delete o k) = filter (fun k' => negb (k' =? k)%string) (map fst o).
Proof.
  induction o as [|[k' v'] o IH]; simpl; [reflexivity|].
  destruct (k' =? k)%string; simpl; now rewrite IH.
Qed.

(** X4 (removeProject, projectLoader.js 68-74).  [removeProject] never
    touches the entry of another name; when it throws, the error is
    "Project '<name>' not found" and the registry is unchanged; when it
    completes, the name has no entry any more and the remaining names keep
    their order. *)
Theorem X4_removeProject_removes_one_name_or_nothing
    (projects : Registry) (name : string) :
  let projects' := fst (removeProject projects name) in
  let completion := snd (removeProject projects name) in
  (forall other, name <> other -> getOwn projects' other = getOwn projects other)
  /\ (forall e, completion = Thrown e ->
        e = new_Error (notFoundMessage name) /\ projects' = projects)
  /\ (completion = Ok tt ->
        getOwn projects' name = None
        /\ map fst projects'
           = filter (fun k => negb (k =? name)%string) (map fst projects)).
Proof.
  cbn zeta. unfold removeProject.
  destruct (negb (truthy (Get projects name))); cbn [fst snd].
  - repeat split; try discriminate. now injection H as <-.
  - split; [|split].
    + intros other N. now apply getOwn_Delete_ne.
    + discriminate.
    + intros _. split; [apply getOwn_Delete_eq | apply keys_Delete].
Qed.

Lemma X4_witness :
  getOwn (fst (removeProject [("app", "/repo/app"); ("lib", "/repo/lib")] "lib")) "lib" = None
  /\ map fst (fst (removeProject [("app", "/repo/app"); ("lib", "/repo/lib")] "lib"))
     = filter (fun k => negb (k =? "lib")%string)
              (map fst [("app", "/repo/app"); ("lib", "/repo/lib")]).
Proof.
  exact (proj2 (proj2 (X4_removeProject_removes_one_name_or_nothing
                         [("app", "/repo/app"); ("lib", "/repo/lib")] "lib")) eq_refl).
Defined.

Section PathInvariant.

Variable w : world.
Variable cwd : string.
Variable P : string -> Prop.

Hypothesis resolved : forall args, P (path_resolve cwd args).

Local Abbreviation all_paths := (fun projects : Registry => Forall (fun kv => P (snd kv)) projects).

Lemma setOwn_paths (o : Registry) (k v : string) :
  all_paths o -> P v -> all_paths (setOwn o k v).
Proof.
  intros F N. induction F as [|[k' v'] o H F IH]; simpl.
  - now repeat constructor.
  - destruct (k' =? k)%string; constructor; assumption.
Qed.

Lemma Put_paths (o : Registry) (k v : string) :
  all_paths o -> P v -> all_paths (Put o k v).
Proof.
  intros F N. unfold Put.
  destruct (getOwn o k); [now apply setOwn_paths|].
  destruct (k =? "__proto__")%string; [exact F | now apply setOwn_paths].
Qed.

Lemma Delete_paths (o : Registry) (k : string) : all_paths o -> all_paths (Delete o k).
Proof.
  unfold Delete. intros F. apply Forall_forall. intros kv I.
  apply filter_In in I as [I _]. now apply (proj1 (Forall_forall _ _) F).
Qed.

Lemma removeProject_paths (projects : Registry) (name : string) :
  all_paths projects -> all_paths (fst (removeProject projects name)).
Proof.
  intros F. unfold removeProject.
  destruct (negb (truthy (Get projects name))); [exact F | now apply Delete_paths].
Qed.

Lemma addProject_paths (projects : Registry) (name projectPath : string) :
  all_paths projects ->
  all_paths (fst (outcome w (addProject cwd name projectPath projects))).
Proof.
  intros F. unfold outcome. rewrite addProject_run.
  destruct (w Stats (fs_stat projectPath)) as [[[|]]|e]; cbn; try exact F.
  now apply Put_paths.
Qed.

Lemma for_of_paths (currentProjectPath : string) (items : list json)
      (projects : Registry) :
  all_paths projects ->
  all_paths (fst (outcome w (for_of items (link_project cwd currentProjectPath) projects))).
Proof.
  revert projects. induction items as [|entry items IH]; intros projects F.
  - exact F.
  - cbn [for_of]. unfold outcome. rewrite run_bind.
    pose proof (link_project_assigns w cwd currentProjectPath entry projects) as A.
    cbn zeta in A.
    destruct (outcome w (link_project cwd currentProjectPath entry projects))
      as [projects' [[]|e]]; cbn [fst snd] in *.
    + apply IH. destruct A as [->|(k & p & ->)]; [exact F | now apply Put_paths].
    + destruct A as [->|(k & p & ->)]; [exact F | now apply Put_paths].
Qed.

Lemma loadProjects_paths (currentProjectPath : string) :
  P currentProjectPath ->
  all_paths (fst (outcome w (loadProjects cwd currentProjectPath))).
Proof.
  intros N. unfold outcome at 1. rewrite loadProjects_run.
  assert (S : all_paths (Put [] (path_basename currentProjectPath) currentProjectPath))
    by (apply Put_paths; [constructor | exact N]).
  assert (K : all_paths
                (fst (outcome w (load_config cwd currentProjectPath
                                   (Put [] (path_basename currentProjectPath)
                                      currentProjectPath))))).
  { unfold outcome.
    destruct (w _ (fs_readFile (configPath currentProjectPath))) as [text|e] eqn:R.
    - rewrite (load_config_parsed w cwd currentProjectPath _ text R).
      destruct (w json (JSON_parse text)) as [[| b | repr | s | items | fields]|e];
        try exact S.
      destruct (assoc "projects" fields) as [[| b | repr | s | items | fields']|];
        try exact S.
      cbn. now apply for_of_paths.
    - now rewrite (load_config_unreadable w cwd currentProjectPath _ e R). }
  destruct (outcome w (load_config cwd currentProjectPath _)) as [projects [[]|e]];
    exact K.
Qed.

End PathInvariant.

(** X5 (loadProjects, addProject, removeProject; projectLoader.js 16-74).
    In a process started in an absolute directory, every registry that the
    loader, [addProject] and [removeProject] can produce holds absolute paths
    only, so every registered name resolves: [getProjectPath] returns the
    path stored under it. *)
Theorem X5_registered_paths_are_absolute_and_resolve
    (w : world) (cwd currentProjectPath : string) (projects : Registry) :
  isAbsolute cwd = true ->
  isAbsolute currentProjectPath = true ->
  reachable w cwd currentProjectPath projects ->
  paths_absolute projects
  /\ forall name p, getOwn projects name = Some p ->
       isAbsolute p = true /\ getProjectPath projects name = Ok (Str p).
Proof.
  intros A D R.
  assert (F : paths_absolute projects).
  { induction R as [|projects name projectPath R IH|projects name R IH].
    - apply (loadProjects_paths w cwd (fun p => isAbsolute p = true));
        [intros args; now apply path_resolve_absolute | exact D].
    - apply (addProject_paths w cwd (fun p => isAbsolute p = true));
        [intros args; now apply path_resolve_absolute | exact IH].
    - now apply (removeProject_paths (fun p => isAbsolute p = true)). }
  split; [exact F|]. intros name p G.
  assert (Abs : isAbsolute p = true)
    by exact (proj1 (Forall_forall _ _) F (name, p) (getOwn_Some_In _ _ _ G)).
  split; [exact Abs|]. apply getProjectPath_own; [exact G|].
  intros ->. discriminate.
Qed.

Lemma X5_witness :
  let w := scenario_world {| sc_files := []; sc_dirs := ["/repo/lib"]; sc_json := [];
                             sc_log := []; sc_raw := "" |} in
  paths_absolute
    (fst (outcome w (addProject "/repo/app" "lib" "/repo/lib"
                       (fst (outcome w (loadProjects "/repo/app" "/repo/app")))))).
Proof.
  intros w.
  exact (proj1 (X5_registered_paths_are_absolute_and_resolve
                  w "/repo/app" "/repo/app" _ eq_refl eq_refl
                  (reach_add w "/repo/app" "/repo/app" _ "lib" "/repo/lib"
                     (reach_load w "/repo/app" "/repo/app")))).
Defined.

(* ================================================================== *)
(** * Further properties of the loader *)
(* ================================================================== *)

Section LoaderCalls.

Variable w : world.
Variables cwd currentProjectPath : string.

Lemma link_project_no_call (entry : json) (projects : Registry) :
  filter is_call (trace w (link_project cwd currentProjectPath entry projects)) = [].
Proof.
  unfold trace. rewrite link_project_run.
  destruct (entry_error entry); [reflexivity|].
  now destruct (entry_binding cwd currentProjectPath entry) as [[k p]|].
Qed.

Lemma for_of_no_call (items : list json) (projects : Registry) :
  filter is_call
    (trace w (for_of items (link_project cwd currentProjectPath) projects)) = [].
Proof.
  revert projects. induction items as [|entry items IH]; intros projects; [reflexivity|].
  cbn [for_of]. unfold trace at 1. rewrite run_bind.
  pose proof (link_project_no_call entry projects) as L.
  destruct (outcome w (link_project cwd currentProjectPath entry projects))
    as [projects' [[]|e]]; cbn [fst]; [|exact L].
  now rewrite filter_app, L, IH.
Qed.

(** The loop over a list in two parts: the second part runs when the first
    has not thrown. *)
Lemma for_of_app (l1 l2 : list json) (projects : Registry) :
  run w (for_of (l1 ++ l2) (link_project cwd currentProjectPath) projects)
  = let '(t1, (projects1, r1)) :=
      run w (for_of l1 (link_project cwd currentProjectPath) projects) in
    match r1 with
    | Ok _ =>
        let '(t2, o2) :=
          run w (for_of l2 (link_project cwd currentProjectPath) projects1) in
        (t1 ++ t2, o2)
    | Thrown e => (t1, (projects1, Thrown e))
    end.
Proof.
  revert projects. induction l1 as [|entry l1 IH]; intros projects.
  - cbn. now destruct (run w (for_of l2 _ projects)).
  - cbn [app for_of]. rewrite !run_bind_let.
    destruct (run w (link_project cwd currentProjectPath entry projects))
      as [t [projects' [[]|e]]]; [|reflexivity].
    rewrite IH.
    destruct (run w (for_of l1 _ projects')) as [t1 [projects1 [[]|e1]]]; [|reflexivity].
    destruct (run w (for_of l2 _ projects1)) as [t2 o2]. now rewrite app_assoc.
Qed.

Lemma link_project_error (entry : json) (e : exn) (projects : Registry) :
  entry_error entry = Some e ->
  run w (link_project cwd currentProjectPath entry projects) = ([], (projects, Thrown e)).
Proof. intros E. now rewrite link_project_run, E. Qed.

End LoaderCalls.

(** X6 (loadProjects, projectLoader.js 16-46).  Whatever the file system and
    the parser answer, the loader reads one file, the configuration file of
    the current project, and parses its text at most once: it never stats or
    reads a linked path and never opens the configuration of a linked
    project. *)
Theorem X6_loader_reads_only_the_current_config
    (w : world) (cwd currentProjectPath : string) :
  filter is_call (trace w (loadProjects cwd currentProjectPath))
  = Called (fs_readFile (configPath currentProjectPath))
      :: match w _ (fs_readFile (configPath currentProjectPath)) with
         | Ok text => [Called (JSON_parse text)]
         | Thrown _ => []
         end.
Proof.
  unfold trace at 1. rewrite loadProjects_run.
  assert (W : forall e, filter is_call (warning_for e) = [])
    by (intros e; unfold warning_for; now destruct (is_ENOENT e)).
  assert (T : filter is_call
                (trace w (load_config cwd currentProjectPath
                            (Put [] (path_basename currentProjectPath) currentProjectPath)))
              = Called (fs_readFile (configPath currentProjectPath))
                  :: match w _ (fs_readFile (configPath currentProjectPath)) with
                     | Ok text => [Called (JSON_parse text)]
                     | Thrown _ => []
                     end).
  { unfold trace.
    destruct (w _ (fs_readFile (configPath currentProjectPath))) as [text|e] eqn:R.
    - rewrite (load_config_parsed w cwd currentProjectPath _ text R).
      destruct (w json (JSON_parse text)) as [[| b | repr | s | items | fields]|e];
        try reflexivity.
      destruct (assoc "projects" fields) as [[| b | repr | s | items | fields']|];
        try reflexivity.
      cbn [fst filter is_call]. now rewrite for_of_no_call.
    - now rewrite (load_config_unreadable w cwd currentProjectPath _ e R). }
  destruct (outcome w (load_config cwd currentProjectPath _)) as [projects [[]|e]];
    cbn [fst]; [exact T|].
  now rewrite filter_app, T, W, app_nil_r.
Qed.

Lemma assoc_None_notin {V : Type} (k : string) (l : list (string * V)) :
  assoc k l = None <-> ~ In k (map fst l).
Proof.
  induction l as [|[k' v'] l IH]; simpl; [tauto|].
  destruct (String.eqb_spec k' k) as [->|N]; [split; [discriminate | tauto]|].
  rewrite IH. tauto.
Qed.

Lemma last_binding_None (k : string) (l : list (string * string)) :
  last_binding k l = None <-> ~ In k (map fst l).
Proof.
  unfold last_binding. rewrite assoc_None_notin, map_rev. now rewrite <- in_rev.
Qed.

Lemma links_names (cwd dir k : string) (items : list json) :
  In k (map fst (links cwd dir items))
  <-> exists entry p, In entry items /\ well_formed_entry entry = Some (k, p).
Proof.
  unfold links. rewrite in_map_iff. split.
  - intros ([k' v] & E & I). simpl in E. subst k'.
    apply in_flat_map in I as (entry & I & H).
    destruct (well_formed_entry entry) as [[n p]|] eqn:W; [|destruct H].
    destruct H as [H|[]]. injection H as -> _. now exists entry, p.
  - intros (entry & p & I & W).
    exists (k, path_resolve cwd [dir; p]). split; [reflexivity|].
    apply in_flat_map. exists entry. split; [exact I|]. rewrite W. now left.
Qed.

Lemma linked_lines_no_warning (l : list (string * string)) :
  filter is_warning (map (fun '(n, p) => Printed (Linked n p)) l) = [].
Proof. induction l as [|[n p] l IH]; [reflexivity | exact IH]. Qed.

(** X7 (loadProjects, projectLoader.js 25-37).  For a configuration of the
    documented shape the loader prints one "Linked project" line per entry
    that has a non-empty name and a non-empty path, in file order, and no
    warning; entries that lack one of the two are skipped without a word.
    Apart from [__proto__], the names registered afterwards are the base
    name of the directory and the names of those entries, nothing else. *)
Theorem X7_exactly_the_well_formed_entries_are_linked
    (w : world) (cwd currentProjectPath text : string)
    (fields : list (string * json)) (items : list json) :
  w _ (fs_readFile (configPath currentProjectPath)) = Ok text ->
  w _ (JSON_parse text) = Ok (JObj fields) ->
  assoc "projects" fields = Some (JArr items) ->
  Forall shaped items ->
  path_basename currentProjectPath <> "__proto__" ->
  let loaded := run w (loadProjects cwd currentProjectPath) in
  fst loaded
  = Called (fs_readFile (configPath currentProjectPath)) :: Called (JSON_parse text)
      :: map (fun '(n, p) => Printed (Linked n p)) (links cwd currentProjectPath items)
  /\ filter is_warning (fst loaded) = []
  /\ snd (snd loaded) = Ok (path_basename currentProjectPath)
  /\ forall k, k <> "__proto__" ->
       (getOwn (fst (snd loaded)) k <> None
        <-> k = path_basename currentProjectPath
            \/ exists entry p, In entry items /\ well_formed_entry entry = Some (k, p)).
Proof.
  intros R P L D N loaded. unfold loaded.
  rewrite (loadProjects_shaped w cwd currentProjectPath text fields items R P L D).
  cbn [fst snd]. split; [reflexivity|]. split; [|split; [reflexivity|]].
  - cbn [filter is_warning]. apply linked_lines_no_warning.
  - intros k K. rewrite (getOwn_put_all _ _ k K), <- links_names.
    destruct (last_binding k (links cwd currentProjectPath items)) as [v|] eqn:B.
    + split; [|discriminate]. intros _. right.
      destruct (in_dec string_dec k (map fst (links cwd currentProjectPath items)))
        as [I|NI]; [exact I|]. apply last_binding_None in NI. congruence.
    + apply last_binding_None in B.
      destruct (String.eqb_spec (path_basename currentProjectPath) k) as [<-|NE].
      * rewrite getOwn_Put_eq by exact N. split; [now left | discriminate].
      * rewrite getOwn_Put_ne by exact NE. cbn. split; [congruence|].
        intros [->|I]; [now elim NE | now elim B].
Qed.

Lemma X7_witness :
  let text := "{ projects: [ { name: lib, path: ../lib }, { name: draft } ] }" in
  let items := [JObj [("name", JStr "lib"); ("path", JStr "../lib")];
                JObj [("name", JStr "draft")]] in
  let w := scenario_world
             {| sc_files := [("/repo/app/.workspace-bridge.json", text)];
                sc_dirs := ["/repo/app"];
                sc_json := [(text, JObj [("projects", JArr items)])];
                sc_log := []; sc_raw := "" |} in
  fst (run w (loadProjects "/repo/app" "/repo/app"))
  = [Called (fs_readFile "/repo/app/.workspace-bridge.json"); Called (JSON_parse text);
     Printed (Linked "lib" "/repo/lib")].
Proof.
  intros text items w.
  refine (proj1 (X7_exactly_the_well_formed_entries_are_linked
                   w "/repo/app" "/repo/app" text [("projects", JArr items)] items
                   eq_refl eq_refl eq_refl _ _)).
  - repeat constructor.
  - cbn. discriminate.
Defined.

(** X8 (loadProjects, projectLoader.js 25-43).  The body of the loop
    throws on an entry exactly when the entry is [null], or has a truthy
    name and a truthy path and either the path is not a string or the name
    cannot be turned into a property key.  At the first such entry the
    loop ends: the entries before it keep their links, the entries after
    it are not looked at, one warning with the error's message is printed,
    and the load still succeeds. *)
Theorem X8_a_throwing_entry_ends_the_linking
    (w : world) (cwd currentProjectPath text : string)
    (fields : list (string * json)) (before after : list json) (bad : json) (e : exn) :
  w _ (fs_readFile (configPath currentProjectPath)) = Ok text ->
  w _ (JSON_parse text) = Ok (JObj fields) ->
  assoc "projects" fields = Some (JArr (before ++ bad :: after)) ->
  Forall (fun earlier => entry_error earlier = None) before ->
  entry_error bad = Some e ->
  run w (loadProjects cwd currentProjectPath)
  = (Called (fs_readFile (configPath currentProjectPath)) :: Called (JSON_parse text)
       :: map (fun '(n, p) => Printed (Linked n p)) (bindings cwd currentProjectPath before)
       ++ [Printed (Warning (err_message e))],
     (put_all (Put [] (path_basename currentProjectPath) currentProjectPath)
              (bindings cwd currentProjectPath before),
      Ok (path_basename currentProjectPath)))
  /\ forall entry projects,
       snd (snd (run w (link_project cwd currentProjectPath entry projects)))
       = match entry_error entry with
         | Some error => Thrown error
         | None => Ok tt
         end.
Proof.
  intros R P L B E. split.
  - rewrite (loadProjects_listed w cwd currentProjectPath text fields _ R P L).
    destruct (reached_app before (bad :: after) B) as [-> ->].
    cbn [reached first_error]. rewrite E, app_nil_r. reflexivity.
  - intros entry projects. rewrite link_project_run.
    destruct (entry_error entry); [reflexivity|].
    now destruct (entry_binding cwd currentProjectPath entry) as [[k p]|].
Qed.

Lemma X8_witness :
  let text := "{ projects: [ { name: lib, path: /repo/lib }, { path: 5 }, { name: n, path: 5 }, { name: late, path: /repo/late } ] }" in
  let items := [JObj [("name", JStr "lib"); ("path", JStr "/repo/lib")];
                JObj [("path", JNum "5")];
                JObj [("name", JStr "n"); ("path", JNum "5")];
                JObj [("name", JStr "late"); ("path", JStr "/repo/late")]] in
  let w := scenario_world
             {| sc_files := [("/repo/app/.workspace-bridge.json", text)];
                sc_dirs := ["/repo/app"];
                sc_json := [(text, JObj [("projects", JArr items)])];
                sc_log := []; sc_raw := "" |} in
  snd (run w (loadProjects "/repo/app" "/repo/app"))
  = ([("app", "/repo/app"); ("lib", "/repo/lib")], Ok "app").
Proof.
  intros text items w.
  assert (B : Forall (fun earlier => entry_error earlier = None)
                [JObj [("name", JStr "lib"); ("path", JStr "/repo/lib")];
                 JObj [("path", JNum "5")]])
    by (repeat constructor).
  rewrite (proj1 (X8_a_throwing_entry_ends_the_linking
                    w "/repo/app" "/repo/app" text [("projects", JArr items)]
                    [JObj [("name", JStr "lib"); ("path", JStr "/repo/lib")];
                     JObj [("path", JNum "5")]]
                    [JObj [("name", JStr "late"); ("path", JStr "/repo/late")]]
                    (JObj [("name", JStr "n"); ("path", JNum "5")])
                    (ERR_INVALID_ARG_TYPE "paths[1]" "type number (5)")
                    eq_refl eq_refl eq_refl B eq_refl)).
  reflexivity.
Defined.

Lemma path_resolve_from_absolute (cwd cwd' dir p : string) :
  isAbsolute dir = true ->
  path_resolve cwd [dir; p] = path_resolve cwd' [dir; p].
Proof.
  intros A. unfold path_resolve. cbn [rev app resolve_loop].
  assert (T : truthy_string dir = true) by (destruct dir; [discriminate | reflexivity]).
  destruct (truthy_string p); [destruct (isAbsolute p); [reflexivity|]|];
    now rewrite T, A.
Qed.

Lemma link_project_from_absolute
    (cwd cwd' currentProjectPath : string) (entry : json) (projects : Registry) :
  isAbsolute currentProjectPath = true ->
  link_project cwd currentProjectPath entry projects
  = link_project cwd' currentProjectPath entry projects.
Proof.
  intros A. unfold link_project, bind, lift. cbn [io_bind].
  destruct (get_field entry "name") as [name|e]; [|reflexivity].
  destruct (truthy_json name); [|reflexivity]. cbn [io_bind].
  destruct (get_field entry "path") as [path|e]; [|reflexivity].
  destruct (truthy_json path); [|reflexivity]. cbn [io_bind].
  unfold path_resolve_json.
  destruct (validateString path "paths[1]") as [s|e]; [|reflexivity].
  now rewrite (path_resolve_from_absolute cwd cwd' _ s A).
Qed.

Lemma for_of_from_absolute
    (w : world) (cwd cwd' currentProjectPath : string) (items : list json)
    (projects : Registry) :
  isAbsolute currentProjectPath = true ->
  run w (for_of items (link_project cwd currentProjectPath) projects)
  = run w (for_of items (link_project cwd' currentProjectPath) projects).
Proof.
  intros A. revert projects.
  induction items as [|entry items IH]; intros projects; [reflexivity|].
  cbn [for_of]. rewrite !run_bind_let.
  rewrite (link_project_from_absolute cwd cwd' _ entry projects A).
  destruct (run w (link_project cwd' currentProjectPath entry projects))
    as [t [projects' [[]|e]]]; [|reflexivity].
  now rewrite IH.
Qed.

(** X9 (loadProjects, projectLoader.js 16-46).  When the directory handed
    to the loader is an absolute path, nothing it does depends on the
    working directory of the process: the calls, the printed lines, the
    registry and the returned name are the same.  A relative path of an
    entry is resolved against that directory. *)
Theorem X9_loading_is_independent_of_the_working_directory
    (w : world) (cwd cwd' currentProjectPath : string) :
  isAbsolute currentProjectPath = true ->
  run w (loadProjects cwd currentProjectPath)
  = run w (loadProjects cwd' currentProjectPath).
Proof.
  intros A. rewrite !loadProjects_run. unfold outcome, trace.
  set (start := Put [] (path_basename currentProjectPath) currentProjectPath).
  enough (E : run w (load_config cwd currentProjectPath start)
              = run w (load_config cwd' currentProjectPath start)) by now rewrite E.
  unfold load_config. rewrite !run_bind_let, !run_await.
  destruct (w _ (fs_readFile _)) as [text|e]; [|reflexivity].
  rewrite !run_bind_let, !run_await.
  destruct (w _ (JSON_parse text)) as [config|e]; [|reflexivity].
  rewrite !run_bind_let. unfold lift. cbn [run].
  destruct (get_field config "projects") as [field|e]; [|reflexivity].
  destruct (truthy_json field && isArray field); [|reflexivity].
  destruct field as [[| b | repr | s | items | fields]|]; try reflexivity.
  now rewrite (for_of_from_absolute w cwd cwd' _ items start A).
Qed.

Lemma X9_witness :
  let text := "{ projects: [ { name: lib, path: ../lib } ] }" in
  let w := scenario_world
             {| sc_files := [("/repo/app/.workspace-bridge.json", text)];
                sc_dirs := ["/repo/app"];
                sc_json := [(text, JObj [("projects",
                              JArr [JObj [("name", JStr "lib"); ("path", JStr "../lib")]])])];
                sc_log := []; sc_raw := "" |} in
  snd (run w (loadProjects "/somewhere/else" "/repo/app"))
  = ([("app", "/repo/app"); ("lib", "/repo/lib")], Ok "app").
Proof.
  intros text w.
  rewrite (X9_loading_is_independent_of_the_working_directory
             w "/somewhere/else" "/" "/repo/app" eq_refl).
  reflexivity.
Defined.

(* ================================================================== *)
(** * Further properties of the tools *)
(* ================================================================== *)

Section ReadOnly.

Variable w : world.

Lemma keeps_ret {A : Type} (a : A) : keeps_registry w (ret a).
Proof. intros projects. reflexivity. Qed.

Lemma keeps_throw {A : Type} (e : exn) : keeps_registry w (@throw A e).
Proof. intros projects. reflexivity. Qed.

Lemma keeps_lift {A : Type} (r : result A) : keeps_registry w (lift r).
Proof. intros projects. reflexivity. Qed.

Lemma keeps_read : keeps_registry w read_registry.
Proof. intros projects. reflexivity. Qed.

Lemma keeps_await {X : Type} (c : collab X) : keeps_registry w (await c).
Proof. intros projects. reflexivity. Qed.

Lemma keeps_bind {A B : Type} (m : M A) (f : A -> M B) :
  keeps_registry w m -> (forall a, keeps_registry w (f a)) -> keeps_registry w (bind m f).
Proof.
  intros Hm Hf projects. unfold outcome. rewrite run_bind.
  specialize (Hm projects).
  destruct (outcome w (m projects)) as [projects' [a|e]]; cbn [fst snd] in *; subst.
  - apply Hf.
  - reflexivity.
Qed.

Lemma keeps_try_catch {A : Type} (m : M A) (h : exn -> M A) :
  keeps_registry w m -> (forall e, keeps_registry w (h e)) ->
  keeps_registry w (try_catch m h).
Proof.
  intros Hm Hh projects. unfold outcome. rewrite run_try_catch.
  specialize (Hm projects).
  destruct (outcome w (m projects)) as [projects' [a|e]]; cbn [fst snd] in *; subst.
  - reflexivity.
  - apply Hh.
Qed.

Lemma keeps_rethrow {A : Type} (prefix : string) (m : M A) :
  keeps_registry w m -> keeps_registry w (rethrow prefix m).
Proof. intros Hm. apply keeps_try_catch; [exact Hm | intros e; apply keeps_throw]. Qed.

End ReadOnly.

Ltac keeps_step :=
  first
    [ apply keeps_rethrow | apply keeps_bind; [|intros ?]
    | apply keeps_try_catch; [|intros ?]
    | apply keeps_await | apply keeps_ret | apply keeps_throw
    | apply keeps_lift | apply keeps_read
    | match goal with
      | |- keeps_registry _ (if ?b then _ else _) => destruct b
      | |- keeps_registry _ (match ?x with _ => _ end) => destruct x
      end ].

Lemma getGitInstance_keeps (w : world) (projectName : string) :
  keeps_registry w (getGitInstance projectName).
Proof. unfold getGitInstance. repeat keeps_step. Qed.

(** X10 (the tool handlers of gitTools.js 479-886 and of fileTools.js
    972-1055).  The nine tools that take a project name, and listProjects,
    never change the registry: whatever the arguments, whatever the file
    system and git answer, and whether the tool answers or throws, the
    registry afterwards is the registry before. *)
Theorem X10_project_tools_leave_the_registry_alone
    (w : world) (c : project_call) (projects : Registry) :
  fst (snd (run w (handle c projects))) = projects
  /\ fst (snd (run w (listProjects_tool projects))) = projects.
Proof.
  split.
  - change (fst (outcome w (handle c projects)) = projects). revert projects.
    change (keeps_registry w (handle c)).
    destruct c; cbn [handle];
      unfold listFiles_tool, readFile_tool, getCommitHistory_tool, searchCommits_tool,
        getCommitDetails_tool, getFileHistory_tool, gitBlame_tool, getRepositoryInfo_tool,
        compareBranches_tool; cbn zeta;
      repeat first [ apply getGitInstance_keeps | keeps_step ].
  - change (fst (outcome w (listProjects_tool projects)) = projects). revert projects.
    change (keeps_registry w listProjects_tool).
    unfold listProjects_tool. repeat keeps_step.
Qed.

Section FailFast.

Variable w : world.

Lemma all_succeeded_stops (t : list event) :
  all_succeeded w t = true -> stops_at_failure w t = true.
Proof.
  induction t as [|e t IH]; [reflexivity|]. cbn [all_succeeded forallb stops_at_failure].
  intros H. apply andb_prop in H as [H1 H2].
  destruct (failed w e); [discriminate | now apply IH].
Qed.

Lemma all_succeeded_app (t t' : list event) :
  all_succeeded w (t ++ t') = all_succeeded w t && all_succeeded w t'.
Proof. apply forallb_app. Qed.

Lemma stops_after_successes (t t' : list event) :
  all_succeeded w t = true -> stops_at_failure w (t ++ t') = stops_at_failure w t'.
Proof.
  induction t as [|e t IH]; [reflexivity|]. cbn [all_succeeded forallb app stops_at_failure].
  intros H. apply andb_prop in H as [H1 H2].
  destruct (failed w e); [discriminate | now apply IH].
Qed.

Lemma stops_at_failure_last (t before after : list event) (e : event) :
  stops_at_failure w t = true -> t = before ++ e :: after -> failed w e = true ->
  after = [].
Proof.
  intros S -> F. induction before as [|b before IH]; cbn [app stops_at_failure] in S.
  - rewrite F in S. now destruct after.
  - destruct (failed w b); [now destruct before | now apply IH].
Qed.

Lemma all_succeeded_In (t : list event) (e : event) :
  all_succeeded w t = true -> In e t -> failed w e = false.
Proof.
  unfold all_succeeded. rewrite forallb_forall. intros H I.
  specialize (H e I). now destruct (failed w e).
Qed.

Lemma ff_ret {A : Type} (a : A) : fail_fast w (ret a).
Proof. intros projects. reflexivity. Qed.

Lemma ff_throw {A : Type} (e : exn) : fail_fast w (@throw A e).
Proof. intros projects. reflexivity. Qed.

Lemma ff_lift {A : Type} (r : result A) : fail_fast w (lift r).
Proof. intros projects. now destruct r. Qed.

Lemma ff_read : fail_fast w read_registry.
Proof. intros projects. reflexivity. Qed.

Lemma ff_await {X : Type} (c : collab X) : fail_fast w (await c).
Proof.
  intros projects. unfold outcome, trace. rewrite run_await. cbn [fst snd].
  destruct (w X c) eqn:E; cbn; now rewrite E.
Qed.

Lemma ff_bind {A B : Type} (m : M A) (f : A -> M B) :
  fail_fast w m -> (forall a, fail_fast w (f a)) -> fail_fast w (bind m f).
Proof.
  intros Hm Hf projects. unfold outcome at 1, trace. rewrite run_bind.
  specialize (Hm projects).
  destruct (outcome w (m projects)) as [projects' [a|e]] eqn:E; cbn [fst snd] in *.
  - specialize (Hf a projects').
    destruct (snd (outcome w (f a projects'))).
    + rewrite all_succeeded_app. now rewrite Hm, Hf.
    + now rewrite stops_after_successes.
  - exact Hm.
Qed.

(** A handler that only throws another error. *)
Lemma ff_catch_throw {A : Type} (m : M A) (g : exn -> exn) :
  fail_fast w m -> fail_fast w (try_catch m (fun e => throw (g e))).
Proof.
  intros Hm projects. unfold outcome at 1, trace. rewrite run_try_catch.
  specialize (Hm projects).
  destruct (outcome w (m projects)) as [projects' [a|e]] eqn:E; cbn [fst snd] in *.
  - exact Hm.
  - unfold throw. cbn. now rewrite app_nil_r.
Qed.

Lemma ff_rethrow {A : Type} (prefix : string) (m : M A) :
  fail_fast w m -> fail_fast w (rethrow prefix m).
Proof.
  intros Hm.
  exact (ff_catch_throw m (fun e => new_Error (prefix +:+ err_message e)) Hm).
Qed.

End FailFast.

Ltac ff_step :=
  first
    [ apply ff_rethrow | apply ff_bind; [|intros ?]
    | apply ff_catch_throw
    | apply ff_await | apply ff_ret | apply ff_throw
    | apply ff_lift | apply ff_read
    | match goal with
      | |- fail_fast _ (if ?b then _ else _) => destruct b
      | |- fail_fast _ (match ?x with _ => _ end) => destruct x
      end ].

Lemma handle_fail_fast (w : world) (c : project_call) : fail_fast w (handle c).
Proof.
  destruct c; cbn [handle];
    unfold listFiles_tool, readFile_tool, getCommitHistory_tool, searchCommits_tool,
      getCommitDetails_tool, getFileHistory_tool, gitBlame_tool, getRepositoryInfo_tool,
      compareBranches_tool, getGitInstance; cbn zeta;
    repeat ff_step.
Qed.

(** X11 (the tool handlers of gitTools.js 479-886 and of fileTools.js
    1009-1055; getGitInstance, gitHelpers.js 17-28).  In each of the nine
    tools that take a project name, a call to the file system or to git
    that fails is the last thing the tool does: nothing is called after it,
    and the tool throws.  A tool that answers has had every one of its
    calls succeed. *)
Theorem X11_a_failed_call_is_the_last_one
    (w : world) (c : project_call) (projects : Registry) :
  (forall before e after,
      trace w (handle c projects) = before ++ e :: after -> failed w e = true ->
      after = [] /\ exists error, snd (outcome w (handle c projects)) = Thrown error)
  /\ (forall answer,
        snd (outcome w (handle c projects)) = Ok answer ->
        forall e, In e (trace w (handle c projects)) -> failed w e = false).
Proof.
  pose proof (handle_fail_fast w c projects) as H.
  destruct (snd (outcome w (handle c projects))) as [answer|error] eqn:O.
  - split.
    + intros before e after T F.
      assert (I : In e (trace w (handle c projects)))
        by (rewrite T; apply in_or_app; right; now left).
      rewrite (all_succeeded_In w _ e H I) in F. discriminate.
    + intros answer' _ e I. exact (all_succeeded_In w _ e H I).
  - split; [|discriminate].
    intros before e after T F. split.
    + exact (stops_at_failure_last w _ before after e H T F).
    + now exists error.
Qed.

Lemma X11_witness :
  let w := scenario_world {| sc_files := []; sc_dirs := []; sc_json := [];
                             sc_log := []; sc_raw := "" |} in
  let projects := [("app", "/repo/app")] in
  trace w (handle (GitBlame "app" "a.txt" None None) projects)
  = [Called (simpleGit (Str "/repo/app")); Called (git_checkIsRepo (Str "/repo/app"))]
    ++ Called (fs_access "/repo/app/a.txt") :: []
  /\ exists error, snd (outcome w (handle (GitBlame "app" "a.txt" None None) projects))
                   = Thrown error.
Proof.
  intros w projects. split; [reflexivity|].
  exact (proj2 (proj1 (X11_a_failed_call_is_the_last_one
                         w (GitBlame "app" "a.txt" None None) projects)
                  [Called (simpleGit (Str "/repo/app"));
                   Called (git_checkIsRepo (Str "/repo/app"))]
                  (Called (fs_access "/repo/app/a.txt")) [] eq_refl eq_refl)).
Defined.

Lemma getGitInstance_no_repository
    (w : world) (projects : Registry) (project : string) (root : value) :
  getProjectPath projects project = Ok root ->
  w _ (simpleGit root) = Ok tt ->
  w _ (git_checkIsRepo root) = Ok false ->
  run w (getGitInstance project projects)
  = ([Called (simpleGit root); Called (git_checkIsRepo root)],
     (projects,
      Thrown (new_Error ("Project '" +:+ project +:+ "' at " +:+ value_toString root
                         +:+ " is not a git repository")))).
Proof.
  intros R C N. unfold getGitInstance, bind, read_registry, lift, await. cbn.
  rewrite R. cbn. rewrite C. cbn. rewrite N. reflexivity.
Qed.

(** X12 (getGitInstance, gitHelpers.js 17-28; the tool handlers of
    gitTools.js).  When the project's directory is not a git repository,
    each of the seven git tools stops after asking git whether it is one:
    it throws, behind its own prefix, the message that names the project
    and its directory, and runs no git command and no file system call. *)
Theorem X12_git_tools_refuse_a_directory_that_is_no_repository
    (w : world) (c : project_call) (projects : Registry) (root : value) :
  is_git_tool c = true ->
  getProjectPath projects (project_of c) = Ok root ->
  w _ (simpleGit root) = Ok tt ->
  w _ (git_checkIsRepo root) = Ok false ->
  run w (handle c projects)
  = ([Called (simpleGit root); Called (git_checkIsRepo root)],
     (projects,
      Thrown (new_Error (failure_prefix c +:+ "Project '" +:+ project_of c +:+ "' at "
                         +:+ value_toString root +:+ " is not a git repository")))).
Proof.
  intros G R C N.
  pose proof (getGitInstance_no_repository w projects (project_of c) root R C N) as E.
  destruct c; try discriminate G; cbn [handle project_of failure_prefix] in *;
    unfold getCommitHistory_tool, searchCommits_tool, getCommitDetails_tool,
      getFileHistory_tool, gitBlame_tool, getRepositoryInfo_tool, compareBranches_tool;
    cbn zeta;
    (etransitivity;
     [ eapply run_rethrow_Thrown; eapply run_bind_Thrown; exact E | reflexivity ]).
Qed.

Lemma X12_witness :
  let w := no_repository_world {| sc_files := []; sc_dirs := ["/repo/notes"]; sc_json := [];
                                  sc_log := []; sc_raw := "" |} in
  snd (snd (run w (handle (GetFileHistory "notes" "a.txt" None) [("notes", "/repo/notes")])))
  = Thrown (new_Error "Failed to get file history: Project 'notes' at /repo/notes is not a git repository").
Proof.
  intros w.
  rewrite (X12_git_tools_refuse_a_directory_that_is_no_repository
             w (GetFileHistory "notes" "a.txt" None) [("notes", "/repo/notes")]
             (Str "/repo/notes") eq_refl eq_refl eq_refl eq_refl).
  reflexivity.
Defined.

(** X13 (getCommitDetails, gitTools.js 619-653).  In a repository,
    getCommitDetails asks the log for the commit.  When the log comes back
    empty it throws "Commit '<hash>' not found" behind its prefix and asks
    git for nothing more.  Otherwise the commit of the answer is the first
    entry of the log, formatted, and the diff and the statistics are what
    [git show] and [git show --stat --oneline] returned for the hash as it
    was given. *)
Theorem X13_getCommitDetails_reports_the_first_log_entry_or_not_found
    (w : world) (projects : Registry) (project commitHash : string) (root : value)
    (logAll : list RawCommit) :
  getProjectPath projects project = Ok root ->
  w _ (simpleGit root) = Ok tt ->
  w _ (git_checkIsRepo root) = Ok true ->
  w _ (git_log root (define [("maxCount", ONum 1)] commitHash ONull)) = Ok logAll ->
  let asked := [Called (simpleGit root); Called (git_checkIsRepo root);
                Called (git_log root (define [("maxCount", ONum 1)] commitHash ONull))] in
  match logAll with
  | [] =>
      run w (getCommitDetails_tool project commitHash projects)
      = (asked,
         (projects,
          Thrown (new_Error ("Failed to get commit details: Commit '" +:+ commitHash
                             +:+ "' not found"))))
  | first :: _ =>
      forall diff stats,
        w _ (git_show root [commitHash]) = Ok diff ->
        w _ (git_raw root ["show"; "--stat"; "--oneline"; commitHash]) = Ok stats ->
        run w (getCommitDetails_tool project commitHash projects)
        = (asked ++ [Called (git_show root [commitHash]);
                     Called (git_raw root ["show"; "--stat"; "--oneline"; commitHash])],
           (projects, Ok (CommitDetails project (formatCommit first) stats diff)))
  end.
Proof.
  intros R C G L asked.
  pose proof (getGitInstance_ok w projects project root R C G) as E.
  destruct logAll as [|first rest].
  - unfold getCommitDetails_tool. etransitivity.
    { eapply run_rethrow_Thrown. eapply run_bind_Ok; [exact E|].
      eapply run_bind_Ok; [rewrite run_await, L; reflexivity|]. reflexivity. }
    reflexivity.
  - intros diff stats D S. unfold getCommitDetails_tool. etransitivity.
    { eapply run_rethrow_Ok. eapply run_bind_Ok; [exact E|].
      eapply run_bind_Ok; [rewrite run_await, L; reflexivity|].
      eapply run_bind_Ok; [rewrite run_await, D; reflexivity|].
      eapply run_bind_Ok; [rewrite run_await, S; reflexivity|]. reflexivity. }
    reflexivity.
Qed.

Lemma X13_witness :
  let w := scenario_world {| sc_files := []; sc_dirs := ["/repo/app"]; sc_json := [];
                             sc_log := []; sc_raw := "" |} in
  snd (snd (run w (getCommitDetails_tool "app" "abc1234" [("app", "/repo/app")])))
  = Thrown (new_Error "Failed to get commit details: Commit 'abc1234' not found").
Proof.
  intros w.
  rewrite (X13_getCommitDetails_reports_the_first_log_entry_or_not_found
             w [("app", "/repo/app")] "app" "abc1234" (Str "/repo/app") []
             eq_refl eq_refl eq_refl eq_refl).
  reflexivity.
Defined.

(** X14 (gitBlame, gitTools.js 714-775).  In a repository, when the check
    of the file under the project's directory fails, for whatever reason,
    gitBlame throws "File '<file>' not found in project '<project>'" behind
    its prefix, and [git blame] is not run. *)
Theorem X14_gitBlame_checks_the_file_before_running_git
    (w : world) (projects : Registry) (project file rootPath : string)
    (startLine endLine : option Z) (reason : exn) :
  getProjectPath projects project = Ok (Str rootPath) ->
  w _ (simpleGit (Str rootPath)) = Ok tt ->
  w _ (git_checkIsRepo (Str rootPath)) = Ok true ->
  w _ (fs_access (path_join [rootPath; file])) = Thrown reason ->
  run w (gitBlame_tool project file startLine endLine projects)
  = ([Called (simpleGit (Str rootPath)); Called (git_checkIsRepo (Str rootPath));
      Called (fs_access (path_join [rootPath; file]))],
     (projects,
      Thrown (new_Error ("Failed to get git blame: File '" +:+ file
                         +:+ "' not found in project '" +:+ project +:+ "'")))).
Proof.
  intros R C G A.
  pose proof (getGitInstance_ok w projects project (Str rootPath) R C G) as E.
  unfold gitBlame_tool. etransitivity.
  { eapply run_rethrow_Thrown. eapply run_bind_Ok; [exact E|].
    eapply run_bind_Ok; [reflexivity|].
    eapply run_bind_Ok; [unfold lift; rewrite R; reflexivity|].
    eapply run_bind_Ok; [reflexivity|].
    eapply run_bind_Thrown. rewrite run_try_catch. unfold outcome, trace.
    rewrite run_await, A. reflexivity. }
  reflexivity.
Qed.

Lemma X14_witness :
  let w := scenario_world {| sc_files := []; sc_dirs := ["/repo/app"]; sc_json := [];
                             sc_log := []; sc_raw := "" |} in
  snd (snd (run w (gitBlame_tool "app" "src/a.js" (Some 1%Z) (Some 2%Z)
                     [("app", "/repo/app")])))
  = Thrown (new_Error "Failed to get git blame: File 'src/a.js' not found in project 'app'").
Proof.
  intros w.
  rewrite (X14_gitBlame_checks_the_file_before_running_git
             w [("app", "/repo/app")] "app" "src/a.js" "/repo/app" (Some 1%Z) (Some 2%Z)
             (ENOENT "access" "/repo/app/src/a.js")
             eq_refl eq_refl eq_refl eq_refl).
  reflexivity.
Defined.

(* ================================================================== *)
(** * gitBlame: the parser on any output *)
(* ================================================================== *)

Section BlameAnyOutput.

Variable all : list string.

Local Abbreviation tab_line := (startsWith (String TAB "")).
Local Abbreviation shown r := (exists text, bl_content r = Some text /\ In (String TAB text) all).
Local Abbreviation pending st := (match snd st with Some _ => 1 | None => 0 end).
Local Abbreviation one b := (if b then 1 else 0).

Lemma tab_line_content (line : string) :
  tab_line line = true -> line = String TAB (substring_from 1 line).
Proof.
  destruct line as [|c line]; [discriminate|]. cbn [startsWith substring_from].
  rewrite andb_true_r. intros E. apply Ascii.eqb_eq in E. now subst.
Qed.

Lemma commit_line_no_tab (line : string) :
  matches_commit_line line = true -> tab_line line = false.
Proof.
  destruct line as [|c line]; [discriminate|].
  unfold matches_commit_line. cbn [hex_prefix startsWith]. intros H.
  apply andb_prop in H as [H _]. rewrite andb_true_r.
  destruct (Ascii.eqb_spec TAB c) as [<-|]; [discriminate H | reflexivity].
Qed.

Lemma blame_step_inv (st : blame_state) (line : string) :
  In line all ->
  match blame_step st line with
  | Ok st' =>
      (Forall (fun r => shown r) (fst st) -> Forall (fun r => shown r) (fst st'))
      /\ length (fst st') + pending st'
         <= length (fst st) + pending st + one (matches_commit_line line)
      /\ length (fst st') <= length (fst st) + one (tab_line line)
  | Thrown e =>
      startsWith "author-time " line = true
      /\ toISOString (option_map (fun n => n * 1000)%Z
                                 (parseInt (substring_from 12 line))) = Thrown e
  end.
Proof.
  intros I. destruct st as [blameData currentCommit]. unfold blame_step.
  destruct (matches_commit_line line) eqn:C.
  - cbn [fst snd]. split; [tauto|]. split; [destruct currentCommit; lia | lia].
  - destruct currentCommit as [cc|]; [|cbn [fst snd]; split; [tauto | lia]].
    destruct (startsWith "author " line); [cbn [fst snd]; split; [tauto | lia]|].
    destruct (startsWith "author-time " line).
    { destruct (toISOString _) as [d|e] eqn:T; [|now split].
      cbn [fst snd]. split; [tauto | lia]. }
    destruct (startsWith "summary " line); [cbn [fst snd]; split; [tauto | lia]|].
    destruct (tab_line line) eqn:T; [|cbn [fst snd]; split; [tauto | lia]].
    cbn [fst snd]. rewrite length_app. cbn [length]. split; [|lia].
    intros F. apply Forall_app. split; [exact F|]. constructor; [|constructor].
    exists (substring_from 1 line). split; [reflexivity|].
    now rewrite <- (tab_line_content line T).
Qed.

Lemma blame_loop_inv (lines : list string) (st : blame_state) :
  incl lines all ->
  match blame_loop lines st with
  | Ok st' =>
      (Forall (fun r => shown r) (fst st) -> Forall (fun r => shown r) (fst st'))
      /\ length (fst st') + pending st'
         <= length (fst st) + pending st + length (filter matches_commit_line lines)
      /\ length (fst st') <= length (fst st) + length (filter tab_line lines)
  | Thrown e =>
      exists line,
        In line lines /\ startsWith "author-time " line = true
        /\ toISOString (option_map (fun n => n * 1000)%Z
                                   (parseInt (substring_from 12 line))) = Thrown e
  end.
Proof.
  revert st. induction lines as [|line lines IH]; intros st I.
  - cbn. split; [tauto | lia].
  - cbn [blame_loop filter].
    pose proof (blame_step_inv st line (I line (or_introl eq_refl))) as S.
    destruct (blame_step st line) as [st1|e].
    + specialize (IH st1 (fun x H => I x (or_intror H))).
      destruct (blame_loop lines st1) as [st'|e].
      * destruct S as (S1 & S2 & S3), IH as (H1 & H2 & H3).
        split; [tauto|].
        destruct (matches_commit_line line), (tab_line line); cbn [length] in *; lia.
      * destruct IH as (l & Il & H). exists l. split; [now right | exact H].
    + exists line. split; [now left | exact S].
Qed.

End BlameAnyOutput.

(** X15 (gitBlame, gitTools.js 736-756).  Whatever text [git blame]
    returns, the parser can fail in one way only: on a line that starts
    with [author-time ] and whose number is missing or out of the range of
    dates, with the RangeError of [toISOString].
    When it does not fail, every record carries the text of a line of the
    output that starts with a TAB, and there are no more records than
    commit lines and no more than TAB lines. *)
Theorem X15_parseBlame_on_any_output (blameOutput : string) :
  let lines := split LF blameOutput in
  match parseBlame blameOutput with
  | Ok records =>
      Forall (fun r => exists text, bl_content r = Some text /\ In (String TAB text) lines)
             records
      /\ length records <= length (filter matches_commit_line lines)
      /\ length records <= length (filter (startsWith (String TAB "")) lines)
  | Thrown e =>
      e = mkExn ERangeError None "Invalid time value"
      /\ exists line,
           In line lines /\ startsWith "author-time " line = true
           /\ toISOString (option_map (fun n => n * 1000)%Z
                                      (parseInt (substring_from 12 line))) = Thrown e
  end.
Proof.
  intros lines. unfold parseBlame. fold lines.
  pose proof (blame_loop_inv lines lines ([], None) (incl_refl lines)) as H.
  destruct (blame_loop lines ([], None)) as [[records pending]|e].
  - cbn [fst snd length] in H. destruct H as (H1 & H2 & H3).
    split; [apply H1; constructor|]. split; [destruct pending; lia | lia].
  - destruct H as (line & I & A & T). split; [|now exists line].
    unfold toISOString in T.
    destruct (option_map _ _) as [ms|]; [destruct (Z.abs ms <=? _)%Z; [discriminate|]|];
      now injection T as <-.
Qed.

(* ================================================================== *)
(** * searchCommits: reading the output of the diff search *)
(* ================================================================== *)

Section DiffLines.

Lemma split_cons (c : ascii) (s : string) : exists first rest, split c s = first :: rest.
Proof.
  induction s as [|x s (first & rest & IH)]; cbn [split]; [now eexists _, _|].
  destruct (Ascii.eqb x c); [now eexists _, _|]. rewrite IH. now eexists _, _.
Qed.

Lemma concat_cons (sep first second : string) (rest : list string) :
  String.concat sep (first :: second :: rest)
  = first +:+ sep +:+ String.concat sep (second :: rest).
Proof. reflexivity. Qed.

(** Splitting at a character and joining with it gives the text back. *)
Lemma join_split (c : ascii) (s : string) : join (String c "") (split c s) = s.
Proof.
  unfold join. induction s as [|x s IH]; cbn [split]; [reflexivity|].
  destruct (split_cons c s) as (first & rest & E). rewrite E in *.
  destruct (Ascii.eqb_spec x c) as [->|N].
  - rewrite concat_cons, IH. reflexivity.
  - destruct rest as [|second rest].
    + cbn [String.concat] in *. now rewrite IH.
    + rewrite <- IH, !concat_cons. reflexivity.
Qed.

Lemma split_concat (c : ascii) (first : string) (rest : list string) :
  Forall (fun l => lacks c l = true) (first :: rest) ->
  split c (String.concat (String c "") (first :: rest)) = first :: rest.
Proof.
  revert first. induction rest as [|second rest IH]; intros first F.
  - cbn [String.concat]. apply split_whole. now inversion F.
  - rewrite concat_cons. inversion F as [|? ? L F']; subst.
    cbn [String.append]. rewrite (split_sep c first _ L). now rewrite (IH second F').
Qed.

Lemma diff_entry_ok_fields (e : DiffEntry) :
  diff_entry_ok e = true ->
  (truthy_string (de_hash e) = true /\ hex_string (de_hash e) = true)
  /\ (lacks "|" (de_author e) = true /\ lacks "|" (de_email e) = true
      /\ lacks "|" (de_date e) = true)
  /\ lacks LF (diff_line e) = true.
Proof.
  unfold diff_entry_ok. rewrite !andb_true_iff.
  intros ((((((((T & H) & A) & E) & D) & A') & E') & D') & S).
  split; [now split|]. split; [now repeat split|].
  unfold diff_line. rewrite !lacks_app, A', E', D', S.
  now rewrite (lacks_hex LF (de_hash e) eq_refl H).
Qed.

Lemma parseDiffLine_diff_line (e : DiffEntry) :
  diff_entry_ok e = true -> parseDiffLine (diff_line e) = commit_of_diff_entry e.
Proof.
  intros O. apply diff_entry_ok_fields in O as ((_ & H) & (A & E & D) & _).
  unfold parseDiffLine, diff_line. cbn [String.append].
  rewrite (split_sep "|" (de_hash e) _ (lacks_hex "|" (de_hash e) eq_refl H)).
  rewrite (split_sep "|" (de_author e) _ A), (split_sep "|" (de_email e) _ E).
  rewrite (split_sep "|" (de_date e) _ D).
  cbn [nth nth_error skipn]. now rewrite join_split.
Qed.

Lemma diff_line_trim_truthy (e : DiffEntry) :
  diff_entry_ok e = true -> trim_truthy (diff_line e) = true.
Proof.
  intros O. apply diff_entry_ok_fields in O as ((T & H) & _).
  unfold diff_line. destruct (de_hash e) as [|x h]; [discriminate|].
  cbn [hex_string] in H. apply andb_prop in H as [X _].
  unfold trim_truthy. cbn [String.append trimStart].
  destruct (isWhiteSpace x) eqn:W; [|reflexivity].
  exfalso. revert X W. unfold is_hex_lower, isWhiteSpace.
  generalize (nat_of_ascii x). intros n X W.
  rewrite orb_true_iff, !andb_true_iff, !Nat.leb_le in X.
  rewrite orb_true_iff, andb_true_iff, !Nat.leb_le, Nat.eqb_eq in W. lia.
Qed.

End DiffLines.

(** X16 (searchCommits, gitTools.js 562-577).  The output that
    [git log --pretty=format:%H|%an|%ae|%ad|%s] prints for a list of commits
    is read back as those commits, in order, each with the fixed body
    [(found in code changes)], provided no author name, email or date holds
    a vertical bar.  A subject is kept whole, vertical bars included, and
    the empty output gives no commit. *)
Theorem X16_the_output_of_the_diff_search_is_read_back (es : list DiffEntry) :
  Forall (fun e => diff_entry_ok e = true) es ->
  parseDiffResults (pretty_output es) = map commit_of_diff_entry es.
Proof.
  intros F. unfold parseDiffResults, pretty_output, join.
  destruct es as [|e es]; [reflexivity|].
  change (map diff_line (e :: es)) with (diff_line e :: map diff_line es).
  rewrite split_concat.
  - change (diff_line e :: map diff_line es) with (map diff_line (e :: es)).
    induction F as [|e' es' O F IH]; [reflexivity|].
    cbn [map filter]. rewrite (diff_line_trim_truthy e' O). cbn [map].
    now rewrite (parseDiffLine_diff_line e' O), IH.
  - change (diff_line e :: map diff_line es) with (map diff_line (e :: es)).
    apply Forall_map. eapply Forall_impl; [|exact F].
    intros e' O. now apply diff_entry_ok_fields in O.
Qed.

Lemma X16_witness :
  parseDiffResults
    (pretty_output
       [{| de_hash := "1f3a"; de_author := "Ada"; de_email := "ada@example.org";
           de_date := "2024-05-01 10:00:00 +0000"; de_subject := "parser: a|b alternatives" |}])
  = [{| hash := "1f3a"; author := Some "Ada"; email := Some "ada@example.org";
        date := Some "2024-05-01 10:00:00 +0000";
        message := "parser: a|b alternatives"; body := "(found in code changes)" |}].
Proof.
  apply (X16_the_output_of_the_diff_search_is_read_back
           [{| de_hash := "1f3a"; de_author := "Ada"; de_email := "ada@example.org";
               de_date := "2024-05-01 10:00:00 +0000";
               de_subject := "parser: a|b alternatives" |}]).
  repeat constructor.
Defined.

(* ================================================================== *)
(** * Further properties of the registry tools *)
(* ================================================================== *)

Lemma Delete_setOwn_absent (o : Registry) (k v : string) :
  getOwn o k = None -> Delete (setOwn o k v) k = o.
Proof.
  induction o as [|[k' v'] o IH]; cbn [getOwn setOwn Delete filter fst].
  - now rewrite String.eqb_refl.
  - destruct (k' =? k)%string eqn:E; [discriminate|]. intros H.
    cbn [filter fst]. rewrite E. cbn [negb]. f_equal. exact (IH H).
Qed.

(** X17 (addProject and removeProject, projectLoader.js 54-74).  Adding a
    project under a name that the registry does not hold and removing it
    again gives the registry back as it was, entries and their order; this
    holds for every name, the members of [Object.prototype] included. *)
Theorem X17_removing_an_added_project_restores_the_registry
    (w : world) (cwd : string) (projects : Registry) (name projectPath : string) :
  w _ (fs_stat projectPath) = Ok {| isDirectory := true |} ->
  getOwn projects name = None ->
  snd (outcome w (addProject cwd name projectPath projects)) = Ok tt
  /\ removeProject (fst (outcome w (addProject cwd name projectPath projects))) name
     = (projects, Ok tt).
Proof.
  intros D A. unfold outcome. rewrite addProject_run, D. cbn [isDirectory fst snd].
  split; [reflexivity|]. unfold Put. rewrite A.
  destruct (String.eqb_spec name "__proto__") as [->|N].
  - unfold removeProject, Get. rewrite A. cbn. now rewrite (Delete_absent _ _ A).
  - unfold removeProject, Get. rewrite getOwn_setOwn_eq. cbn [truthy].
    rewrite path_resolve_truthy. cbn [negb].
    now rewrite (Delete_setOwn_absent _ _ _ A).
Qed.

Lemma X17_witness :
  let w := scenario_world {| sc_files := []; sc_dirs := ["/repo/lib"]; sc_json := [];
                             sc_log := []; sc_raw := "" |} in
  removeProject
    (fst (outcome w (addProject "/repo/app" "valueOf" "/repo/lib" [("app", "/repo/app")])))
    "valueOf"
  = ([("app", "/repo/app")], Ok tt).
Proof.
  intros w.
  exact (proj2 (X17_removing_an_added_project_restores_the_registry
                  w "/repo/app" [("app", "/repo/app")] "valueOf" "/repo/lib"
                  eq_refl eq_refl)).
Defined.

Lemma Object_entries_In (o : Registry) (k v : string) :
  getOwn o k = Some v -> In (k, v) (Object_entries o).
Proof.
  intros H. unfold Object_entries. apply in_flat_map. exists k. split.
  - apply Object_keys_In. apply in_map_iff. exists (k, v).
    split; [reflexivity | now apply getOwn_Some_In].
  - rewrite H. now left.
Qed.

Lemma startsWith_refl (p : string) : startsWith p p = true.
Proof. induction p as [|x p IH]; cbn [startsWith]; [reflexivity|]. now rewrite Ascii.eqb_refl. Qed.

Lemma startsWith_app_l (p s t : string) :
  startsWith p s = true -> startsWith p (s +:+ t) = true.
Proof.
  revert s. induction p as [|x p IH]; intros s; cbn [startsWith]; [reflexivity|].
  destruct s as [|y s]; [discriminate|]. cbn [String.append].
  intros H. apply andb_prop in H as [H1 H2]. now rewrite H1, (IH s H2).
Qed.

Lemma occurs_in_app_r (needle pre hay : string) :
  occurs_in needle hay -> occurs_in needle (pre +:+ hay).
Proof.
  intros (a & b & ->). exists (pre +:+ a), b. now rewrite !append_assoc.
Qed.

(** X18 (the addProject tool, fileTools.js 920-935).  When [fs.stat] fails
    or the path is not a directory, the tool throws the reason behind
    [Failed to add project: ] and the registry is as before.  Otherwise,
    for a name other than [__proto__], the registry holds the name with the
    resolved path, and the confirmation names the project with that path
    and lists it among the registered projects. *)
Theorem X18_addProject_tool_confirms_or_explains
    (w : world) (cwd : string) (projects : Registry) (name projectPath : string) :
  let resolved := path_resolve cwd [projectPath] in
  match w _ (fs_stat projectPath) with
  | Thrown e =>
      run w (addProject_tool cwd name projectPath projects)
      = ([Called (fs_stat projectPath)],
         (projects, Thrown (new_Error ("Failed to add project: " +:+ err_message e))))
  | Ok stats =>
      if isDirectory stats then
        name <> "__proto__" ->
        exists text,
          run w (addProject_tool cwd name projectPath projects)
          = ([Called (fs_stat projectPath)],
             (Put projects name resolved, Ok (Text text)))
          /\ getOwn (Put projects name resolved) name = Some resolved
          /\ startsWith ("✅ Successfully added project '" +:+ name +:+ "' at " +:+ resolved)
                        text = true
          /\ occurs_in ("  - " +:+ name +:+ ": " +:+ resolved) text
      else
        run w (addProject_tool cwd name projectPath projects)
        = ([Called (fs_stat projectPath)],
           (projects,
            Thrown (new_Error ("Failed to add project: Path is not a directory: "
                               +:+ projectPath))))
  end.
Proof.
  intros resolved. pose proof (addProject_run w cwd projects name projectPath) as R.
  unfold addProject_tool.
  destruct (w _ (fs_stat projectPath)) as [[[|]]|e]; cbn [isDirectory] in *.
  - intros N. pose proof (getOwn_Put_eq projects name resolved N) as G.
    eexists. split; [|split; [exact G|split]].
    + etransitivity.
      { eapply run_rethrow_Ok. eapply run_bind_Ok; [exact R|].
        eapply run_bind_Ok; [reflexivity|]. reflexivity. }
      reflexivity.
    + unfold Get. fold resolved. rewrite G. cbn [value_toString].
      rewrite <- !append_assoc.
      repeat first [ apply startsWith_refl | apply startsWith_app_l ].
    + unfold Get. fold resolved. rewrite G. cbn [value_toString].
      repeat apply occurs_in_app_r.
      apply (occurs_in_join NL ("  - " +:+ name +:+ ": " +:+ resolved)).
      apply in_map_iff. exists (name, resolved).
      split; [reflexivity | now apply Object_entries_In].
  - etransitivity.
    { eapply run_rethrow_Thrown. eapply run_bind_Thrown. exact R. }
    reflexivity.
  - etransitivity.
    { eapply run_rethrow_Thrown. eapply run_bind_Thrown. exact R. }
    reflexivity.
Qed.

Lemma X18_witness :
  let w := scenario_world {| sc_files := []; sc_dirs := ["/repo/lib/"]; sc_json := [];
                             sc_log := []; sc_raw := "" |} in
  exists text,
    run w (addProject_tool "/repo/app" "lib" "/repo/lib/" [("app", "/repo/app")])
    = ([Called (fs_stat "/repo/lib/")],
       ([("app", "/repo/app"); ("lib", "/repo/lib")], Ok (Text text)))
    /\ occurs_in "  - lib: /repo/lib" text.
Proof.
  intros w.
  pose proof (X18_addProject_tool_confirms_or_explains
                w "/repo/app" [("app", "/repo/app")] "lib" "/repo/lib/") as H.
  cbv zeta in H. change (w Stats (fs_stat "/repo/lib/")) with (@Ok Stats {| isDirectory := true |}) in H.
  cbv iota beta delta [isDirectory] in H.
  destruct (H ltac:(discriminate)) as (text & R & _ & _ & O).
  exists text. split; [exact R | exact O].
Defined.

(** X19 (the listProjects tool, fileTools.js 972-994).  listProjects calls
    nothing and always answers.  For the empty registry the answer is the
    hint to use addProject; otherwise every registered name is shown with
    its path, and the number in the heading is the number of entries. *)
Theorem X19_listProjects_shows_every_registered_project
    (w : world) (projects : Registry) :
  exists text,
    run w (listProjects_tool projects) = ([], (projects, Ok (Text text)))
    /\ (projects = [] ->
        text = "No projects registered yet. Use the 'addProject' tool to add projects.")
    /\ (forall name p,
          getOwn projects name = Some p ->
          startsWith ("📁 Registered Projects ("
                      +:+ decimal (Z.of_nat (length (Object_entries projects))) +:+ "):")
                     text = true
          /\ occurs_in ("  • " +:+ name +:+ NL +:+ "    " +:+ p) text).
Proof.
  unfold listProjects_tool, bind, read_registry, ret. cbn [io_bind].
  destruct (Object_entries projects) as [|entry entries] eqn:E.
  - cbn. eexists. split; [reflexivity|]. split; [reflexivity|].
    intros name p G. apply Object_entries_In in G. rewrite E in G. destruct G.
  - cbn [length Nat.eqb run]. eexists. split; [reflexivity|]. split.
    + intros ->. discriminate E.
    + intros name p G. split.
      * rewrite <- !append_assoc.
        repeat first [ apply startsWith_refl | apply startsWith_app_l ].
      * repeat apply occurs_in_app_r.
        apply (occurs_in_join (NL +:+ NL) ("  • " +:+ name +:+ NL +:+ "    " +:+ p)).
        apply in_map_iff. exists (name, p). split; [reflexivity|].
        rewrite <- E. now apply Object_entries_In.
Qed.

Lemma X19_witness :
  let w := scenario_world {| sc_files := []; sc_dirs := []; sc_json := [];
                             sc_log := []; sc_raw := "" |} in
  exists text,
    run w (listProjects_tool [("app", "/repo/app"); ("7", "/repo/seven")])
    = ([], ([("app", "/repo/app"); ("7", "/repo/seven")], Ok (Text text)))
    /\ startsWith "📁 Registered Projects (2):" text = true
    /\ occurs_in ("  • 7" +:+ NL +:+ "    /repo/seven") text.
Proof.
  intros w.
  destruct (X19_listProjects_shows_every_registered_project
              w [("app", "/repo/app"); ("7", "/repo/seven")]) as (text & R & _ & H).
  exists text. split; [exact R|]. exact (H "7" "/repo/seven" eq_refl).
Defined.

(* ================================================================== *)
(** * The file tools and the project's directory *)
(* ================================================================== *)

Section Segments.

Lemma plain_segment_facts (seg : string) :
  plain_segment seg = true ->
  lacks "/" seg = true
  /\ ((seg =? "") || (seg =? "."))%string = false /\ (seg =? "..")%string = false.
Proof.
  unfold plain_segment. rewrite !andb_true_iff, !negb_true_iff.
  intros (((T & L) & D) & DD). split; [exact L|]. split; [|exact DD].
  rewrite D, orb_false_r. now destruct seg.
Qed.

Lemma normalize_plain (stack segs : list string) :
  Forall (fun seg => plain_segment seg = true) segs ->
  fold_left (normalize_step false) segs stack = rev segs ++ stack.
Proof.
  intros F. revert stack. induction F as [|seg segs P F IH]; intros stack; [reflexivity|].
  cbn [fold_left rev]. rewrite <- app_assoc. cbn [app]. rewrite <- IH. f_equal.
  apply plain_segment_facts in P as (_ & E & D). unfold normalize_step. now rewrite E, D.
Qed.

Lemma concat_app_cons (sep : string) (l : list string) (x : string) (r : list string) :
  String.concat sep (l ++ x :: r)
  = String.concat sep l +:+ (match l with [] => "" | _ => sep end)
    +:+ String.concat sep (x :: r).
Proof.
  induction l as [|a l IH]; [reflexivity|].
  destruct l as [|b l].
  - cbn [app]. rewrite concat_cons. cbn [String.concat]. reflexivity.
  - change ((a :: b :: l) ++ x :: r) with (a :: (b :: l) ++ x :: r).
    change ((b :: l) ++ x :: r) with (b :: l ++ x :: r) in *.
    rewrite !concat_cons, IH, !append_assoc. reflexivity.
Qed.

Lemma concat_truthy (sep : string) (l : list string) (x : string) :
  truthy_string x = true -> truthy_string (String.concat sep (l ++ [x])) = true.
Proof.
  intros T. rewrite concat_app_cons. cbn [String.concat].
  destruct (String.concat sep l) as [|c s]; [|reflexivity].
  destruct l; [exact T|]. cbn [String.append].
  destruct sep; [exact T | reflexivity].
Qed.

(** [path.join(root, "../" + t)] for a root made of plain names. *)
Lemma path_join_parent (dirs : list string) (b t : string) :
  Forall (fun seg => plain_segment seg = true) (dirs ++ [b; t]) ->
  path_join [absolute_path (dirs ++ [b]); "../" +:+ t] = absolute_path (dirs ++ [t]).
Proof.
  intros F.
  assert (Fd : Forall (fun seg => plain_segment seg = true) dirs)
    by (apply Forall_app in F; tauto).
  assert (Pb : plain_segment b = true)
    by (apply Forall_app in F as [_ F]; now inversion F).
  assert (Pt : plain_segment t = true).
  { apply Forall_app in F as [_ F]. inversion F as [|? ? _ F']. now inversion F'. }
  assert (Tt : truthy_string t = true).
  { unfold plain_segment in Pt. rewrite !andb_true_iff in Pt. tauto. }
  set (p := String.concat "/" ("" :: dirs ++ [b; ".."; t])).
  assert (E : join "/" [absolute_path (dirs ++ [b]); "../" +:+ t] = p).
  { unfold p, join, absolute_path, join.
    change ("" :: dirs ++ [b; ".."; t]) with (("" :: dirs) ++ b :: [".."; t]).
    rewrite (concat_app_cons "/" ("" :: dirs) b [".."; t]).
    rewrite (concat_app_cons "/" dirs b []).
    destruct dirs as [|d dirs].
    - cbn [String.concat String.append]. reflexivity.
    - rewrite (concat_cons "/" "" d dirs), !concat_cons. cbn [String.concat].
      rewrite ?append_assoc. cbn [String.append]. now rewrite ?append_assoc. }
  assert (S : split "/" p = "" :: dirs ++ [b; ".."; t]).
  { unfold p. apply split_concat. constructor; [reflexivity|].
    apply Forall_app. split.
    - eapply Forall_impl; [|exact Fd]. intros seg P. now apply plain_segment_facts in P.
    - apply plain_segment_facts in Pb as (Lb & _). apply plain_segment_facts in Pt as (Lt & _).
      now repeat constructor. }
  assert (Tp : exists c p', p = String c p' /\ isAbsolute p = true).
  { unfold p. destruct dirs; cbn [app]; rewrite concat_cons; cbn [String.append];
      eexists _, _; split; reflexivity. }
  destruct Tp as (c & p' & Ep & Ap).
  unfold path_join. cbn [filter].
  change (truthy_string (absolute_path (dirs ++ [b]))) with true.
  change (truthy_string ("../" +:+ t)) with true. cbv iota. rewrite E.
  unfold path_normalize, normalizeString. rewrite S, Ap.
  replace (truthy_string p) with true by (now rewrite Ep).
  assert (N : fold_left (normalize_step false) ("" :: dirs ++ [b; ".."; t]) []
              = t :: rev dirs).
  { cbn [fold_left]. change (normalize_step false [] "") with (@nil string).
    change (dirs ++ [b; ".."; t]) with (dirs ++ [b] ++ [".."] ++ [t]).
    rewrite !fold_left_app, (normalize_plain [] dirs Fd), app_nil_r.
    cbn [fold_left].
    apply plain_segment_facts in Pb as (_ & Eb & Db).
    apply plain_segment_facts in Pt as (_ & Et & Dt).
    unfold normalize_step at 3. rewrite Eb, Db.
    unfold normalize_step at 2. cbn [String.eqb Ascii.eqb Bool.eqb orb andb]. rewrite Db.
    unfold normalize_step. now rewrite Et, Dt. }
  assert (L : match rev ("" :: dirs ++ [b; ".."; t]) with
              | last :: _ :: _ => negb (truthy_string last)
              | _ => false
              end = false).
  { cbn [rev]. rewrite rev_app_distr. cbn [rev app]. now rewrite Tt. }
  cbn [negb]. rewrite N, L. cbn [rev]. rewrite rev_involutive.
  change (join "/" (dirs ++ [t])) with (String.concat "/" (dirs ++ [t])).
  rewrite (concat_truthy "/" dirs t Tt).
  unfold absolute_path, join. now rewrite append_nil_r.
Qed.

End Segments.

(** X20 (the readFile and listFiles tools, fileTools.js 1009-1055).  The
    path handed to the file system is [path.join] of the project's
    directory and the argument, and nothing keeps it inside that
    directory: for a project at [/d1/.../dn/b], the file [../t] is read at
    [/d1/.../dn/t], beside the project, and the directory [../t] is listed
    there.  What readFile answers is the content as the file system gave
    it, and an error of the file system is thrown as it is. *)
Theorem X20_the_file_tools_follow_dot_dot_out_of_the_project
    (w : world) (projects : Registry) (project : string)
    (dirs : list string) (b t : string) :
  Forall (fun seg => plain_segment seg = true) (dirs ++ [b; t]) ->
  getOwn projects project = Some (absolute_path (dirs ++ [b])) ->
  run w (readFile_tool project ("../" +:+ t) projects)
  = ([Called (fs_readFile (absolute_path (dirs ++ [t])))],
     (projects,
      match w _ (fs_readFile (absolute_path (dirs ++ [t]))) with
      | Ok content => Ok (Text content)
      | Thrown e => Thrown e
      end))
  /\ trace w (listFiles_tool project (Some ("../" +:+ t)) projects)
     = [Called (fs_readdir (absolute_path (dirs ++ [t])))].
Proof.
  intros F G.
  assert (R : getProjectPath projects project = Ok (Str (absolute_path (dirs ++ [b]))))
    by (apply getProjectPath_own; [exact G | discriminate]).
  pose proof (path_join_parent dirs b t F) as J.
  split.
  - unfold readFile_tool, bind, read_registry, lift, await, ret. cbn [io_bind].
    rewrite R. cbn [io_bind path_join_value]. rewrite J. cbn [io_bind run].
    now destruct (w _ (fs_readFile (absolute_path (dirs ++ [t])))).
  - unfold listFiles_tool, trace, bind, read_registry, lift, await, ret.
    cbn [io_bind or_default]. rewrite R. cbn [io_bind path_join_value]. rewrite J.
    cbn [io_bind run]. now destruct (w _ (fs_readdir (absolute_path (dirs ++ [t])))).
Qed.

Lemma X20_witness :
  let w := scenario_world
             {| sc_files := [("/home/u/.ssh", "key")]; sc_dirs := ["/home/u/app"];
                sc_json := []; sc_log := []; sc_raw := "" |} in
  run w (readFile_tool "app" "../.ssh" [("app", "/home/u/app")])
  = ([Called (fs_readFile "/home/u/.ssh")], ([("app", "/home/u/app")], Ok (Text "key"))).
Proof.
  intros w.
  exact (proj1 (X20_the_file_tools_follow_dot_dot_out_of_the_project
                  w [("app", "/home/u/app")] "app" ["home"; "u"] "app" ".ssh"
                  ltac:(repeat constructor) eq_refl)).
Defined.

(** X21 (the removeProject tool, fileTools.js 949-960).  When the name
    does not resolve, the tool throws [Project '<name>' not found] without
    a prefix of its own and the registry is as before.  Otherwise the entry
    is deleted and the confirmation shows every project that remains with
    its path, or [(none)] when none remains. *)
Theorem X21_removeProject_tool_confirms_with_what_remains
    (w : world) (projects : Registry) (name : string) :
  if truthy (Get projects name) then
    exists text,
      run w (removeProject_tool name projects)
      = ([], (Delete projects name, Ok (Text text)))
      /\ startsWith ("✅ Successfully removed project '" +:+ name +:+ "'") text = true
      /\ (Delete projects name = [] -> occurs_in "  (none)" text)
      /\ (forall other p,
            getOwn (Delete projects name) other = Some p ->
            occurs_in ("  - " +:+ other +:+ ": " +:+ p) text)
  else
    run w (removeProject_tool name projects)
    = ([], (projects, Thrown (new_Error ("Project '" +:+ name +:+ "' not found")))).
Proof.
  unfold removeProject_tool, bind, read_registry, ret, removeProject. cbn [io_bind].
  destruct (truthy (Get projects name)); cbn [negb io_bind run]; [|reflexivity].
  eexists. split; [reflexivity|]. split; [|split].
  - rewrite <- !append_assoc.
    repeat first [ apply startsWith_refl | apply startsWith_app_l ].
  - intros ->. rewrite ?append_assoc.
    change (Object_entries []) with (@nil (string * string)).
    cbn [map join String.concat truthy_string].
    repeat apply occurs_in_app_r. apply occurs_in_refl.
  - intros other p G. rewrite ?append_assoc.
    pose proof (Object_entries_In _ _ _ G) as I.
    assert (O : occurs_in ("  - " +:+ other +:+ ": " +:+ p)
                  (join NL (map (fun '(n, p0) => "  - " +:+ n +:+ ": " +:+ p0)
                                (Object_entries (Delete projects name))))).
    { apply occurs_in_join. apply in_map_iff. now exists (other, p). }
    destruct (join NL _) as [|c listing] eqn:E.
    + destruct O as ([|? ?] & post & O); discriminate O.
    + cbn [truthy_string]. repeat apply occurs_in_app_r. exact O.
Qed.

Lemma X21_witness :
  let w := scenario_world {| sc_files := []; sc_dirs := []; sc_json := [];
                             sc_log := []; sc_raw := "" |} in
  exists text,
    run w (removeProject_tool "lib" [("app", "/repo/app"); ("lib", "/repo/lib")])
    = ([], ([("app", "/repo/app")], Ok (Text text)))
    /\ occurs_in "  - app: /repo/app" text.
Proof.
  intros w.
  destruct (X21_removeProject_tool_confirms_with_what_remains
              w [("app", "/repo/app"); ("lib", "/repo/lib")] "lib")
    as (text & R & _ & _ & H).
  exists text. split; [exact R | exact (H "app" "/repo/app" eq_refl)].
Defined.
